(** * tui-explorer: a three-pane terminal file manager

    A shallow embedding of [app.py] and the properties of its directory
    listing, cursor handling, preview generation and mutations.

    Layout of the development:
    - [Py]: the fragment of the Python runtime the program relies on
      (strings as sequences of code points, [sorted], [splitlines],
      lossy UTF-8 decoding, pure POSIX paths);
    - [Host]: the interface of the operating system as seen through
      [pathlib], [os] and [shutil];
    - [Disk]: an executable model of a POSIX tree used to run the program
      on concrete directories;
    - [ParentPane], [FileList], [PreviewPane], [Explorer]: the widgets of
      [app.py], one module per class;
    - the theorems. *)

From Stdlib Require Import List ZArith NArith Lia Bool.
From Stdlib Require Import Strings.String Strings.Ascii Strings.Byte.
From Stdlib Require Import Permutation Sorted.
Import ListNotations.
Import Corelib.Init.Datatypes.

Set Implicit Arguments.

(* ===================================================================== *)
(** ** The Python runtime fragment *)
(* ===================================================================== *)

Module Py.

(** A Python [str] is a sequence of Unicode code points. *)
Definition str := list N.

(** Literals: every character of an ASCII literal is its own code point. *)
Definition lit (s : String.string) : str :=
  map Ascii.N_of_ascii (String.list_ascii_of_string s).
Arguments lit s%_string.

Definition str_eq_dec : forall a b : str, {a = b} + {a <> b} :=
  list_eq_dec N.eq_dec.

Definition str_eqb (a b : str) : bool :=
  if str_eq_dec a b then true else false.

(** [a < b], [a == b], [a > b] on [str]: lexicographic on code points,
    a proper prefix being smaller. *)
Fixpoint str_compare (a b : str) : comparison :=
  match a, b with
  | [], [] => Eq
  | [], _ :: _ => Lt
  | _ :: _, [] => Gt
  | x :: a', y :: b' =>
      match N.compare x y with
      | Eq => str_compare a' b'
      | c => c
      end
  end.

Definition str_lt (a b : str) : bool :=
  match str_compare a b with Lt => true | _ => false end.

(** Tuples [(bool, str)] compare on the first component that differs,
    with [False < True]. *)
Definition key := (bool * str)%type.

Definition key_lt (k1 k2 : key) : bool :=
  match fst k1, fst k2 with
  | false, true => true
  | true, false => false
  | _, _ => str_lt (snd k1) (snd k2)
  end.

(** [sorted(l, key=key)].  Python's sort is stable and only ever asks
    [key(y) < key(x)]; on a strict weak order every stable sort returns the
    same list, so the model is the stable insertion sort: an element is
    placed after every element of the sorted rest whose key is strictly
    smaller, and before the others, which followed it in the input. *)
Section Sorted.
Variables (A K : Type) (lt : K -> K -> bool) (keyf : A -> K).

Fixpoint insert (x : A) (l : list A) : list A :=
  match l with
  | [] => [x]
  | y :: l' => if lt (keyf y) (keyf x) then y :: insert x l' else x :: l
  end.

Fixpoint sorted (l : list A) : list A :=
  match l with
  | [] => []
  | x :: l' => insert x (sorted l')
  end.

(** [x] may stand before [y] in sorted output: [y]'s key is not
    strictly below [x]'s. *)
Definition precedes (x y : A) : Prop := lt (keyf y) (keyf x) = false.
End Sorted.

(** [s.startswith(p)] *)
Fixpoint startswith (s p : str) : bool :=
  match p, s with
  | [], _ => true
  | _ :: _, [] => false
  | c :: p', d :: s' => N.eqb c d && startswith s' p'
  end.

(** [s.endswith(p)] *)
Definition endswith (s p : str) : bool := startswith (rev s) (rev p).

(** [s.rstrip(c)] for a single character [c]. *)
Fixpoint lstrip1 (c : N) (s : str) : str :=
  match s with
  | d :: s' => if N.eqb c d then lstrip1 c s' else s
  | [] => []
  end.

Definition rstrip1 (c : N) (s : str) : str := rev (lstrip1 c (rev s)).

(** [s.rfind(c)] for a single character: [None] stands for [-1]. *)
Fixpoint rfind (c : N) (s : str) : option nat :=
  match s with
  | [] => None
  | d :: s' =>
      match rfind c s' with
      | Some i => Some (S i)
      | None => if N.eqb c d then Some 0%nat else None
      end
  end.

(** [sep.join(parts)] *)
Fixpoint join (sep : str) (parts : list str) : str :=
  match parts with
  | [] => []
  | [p] => p
  | p :: rest => p ++ sep ++ join sep rest
  end.

(** [s.split(c)] for a single character. *)
Fixpoint split_on (c : N) (cur : str) (s : str) : list str :=
  match s with
  | [] => [rev cur]
  | d :: s' =>
      if N.eqb c d then rev cur :: split_on c [] s'
      else split_on c (d :: cur) s'
  end.

(** The line boundaries of [str.splitlines]: LF, VT, FF, CR, FS, GS, RS,
    NEL, LINE SEPARATOR and PARAGRAPH SEPARATOR. *)
Definition is_linebreak (c : N) : bool :=
  existsb (N.eqb c) [10; 11; 12; 13; 28; 29; 30; 133; 8232; 8233]%N.

(** [s.splitlines()]: the boundaries are dropped, CR LF counts once, and
    no empty string is produced after a final boundary. *)
Fixpoint splitlines_from (cur : str) (s : str) : list str :=
  match s with
  | [] => match cur with [] => [] | _ => [rev cur] end
  | c :: s' =>
      if is_linebreak c then
        match s' with
        | d :: s'' =>
            if N.eqb c 13 && N.eqb d 10
            then rev cur :: splitlines_from [] s''
            else rev cur :: splitlines_from [] s'
        | [] => [rev cur]
        end
      else splitlines_from (c :: cur) s'
  end.

Definition splitlines (s : str) : list str := splitlines_from [] s.

(** *** [bytes.decode("utf-8", errors="replace")] *)

Definition bytes := list byte.

Definition REPLACEMENT : N := 65533.

Definition is_cont (b : N) : bool := (128 <=? b)%N && (b <=? 191)%N.

Definition low6 (b : N) : N := N.land b 63.

(** The second byte of a three-byte sequence: [E0] excludes overlong
    forms, [ED] excludes the surrogates. *)
Definition second_of_3 (b0 b1 : N) : bool :=
  is_cont b1 &&
  (if N.eqb b0 224 then (160 <=? b1)%N
   else if N.eqb b0 237 then (b1 <? 160)%N else true).

(** The second byte of a four-byte sequence: [F0] excludes overlong
    forms, [F4] stays below U+110000. *)
Definition second_of_4 (b0 b1 : N) : bool :=
  is_cont b1 &&
  (if N.eqb b0 240 then (144 <=? b1)%N
   else if N.eqb b0 244 then (b1 <? 144)%N else true).

(** Every maximal ill-formed prefix is replaced by one U+FFFD and decoding
    resumes at the offending byte. *)
Fixpoint decode_codes (bs : list N) : str :=
  match bs with
  | [] => []
  | b0 :: t1 =>
      if (b0 <? 128)%N then b0 :: decode_codes t1
      else if (b0 <? 194)%N then REPLACEMENT :: decode_codes t1
      else if (b0 <? 224)%N then
        match t1 with
        | [] => [REPLACEMENT]
        | b1 :: t2 =>
            if is_cont b1
            then N.lor (N.shiftl (N.land b0 31) 6) (low6 b1) :: decode_codes t2
            else REPLACEMENT :: decode_codes t1
        end
      else if (b0 <? 240)%N then
        match t1 with
        | [] => [REPLACEMENT]
        | b1 :: t2 =>
            if second_of_3 b0 b1 then
              match t2 with
              | [] => [REPLACEMENT]
              | b2 :: t3 =>
                  if is_cont b2
                  then N.lor (N.shiftl (N.land b0 15) 12)
                         (N.lor (N.shiftl (low6 b1) 6) (low6 b2))
                       :: decode_codes t3
                  else REPLACEMENT :: decode_codes t2
              end
            else REPLACEMENT :: decode_codes t1
        end
      else if (b0 <? 245)%N then
        match t1 with
        | [] => [REPLACEMENT]
        | b1 :: t2 =>
            if second_of_4 b0 b1 then
              match t2 with
              | [] => [REPLACEMENT]
              | b2 :: t3 =>
                  if is_cont b2 then
                    match t3 with
                    | [] => [REPLACEMENT]
                    | b3 :: t4 =>
                        if is_cont b3
                        then N.lor (N.shiftl (N.land b0 7) 18)
                               (N.lor (N.shiftl (low6 b1) 12)
                                  (N.lor (N.shiftl (low6 b2) 6) (low6 b3)))
                             :: decode_codes t4
                        else REPLACEMENT :: decode_codes t3
                    end
                  else REPLACEMENT :: decode_codes t2
              end
            else REPLACEMENT :: decode_codes t1
        end
      else REPLACEMENT :: decode_codes t1
  end.

Definition decode_replace (raw : bytes) : str :=
  decode_codes (map Byte.to_N raw).

(** [b"\x00" in raw] *)
Definition contains_nul (raw : bytes) : bool :=
  existsb (fun b => N.eqb (Byte.to_N b) 0) raw.

(** [len(l)] *)
Definition len {A} (l : list A) : Z := Z.of_nat (length l).

(** [l[:n]] for a bound [n >= 0]. *)
Fixpoint upto {A} (n : Z) (l : list A) : list A :=
  match l with
  | [] => []
  | x :: rest => if (0 <? n)%Z then x :: upto (n - 1) rest else []
  end.

(** The truth value of a [str]: only the empty string is false. *)
Definition truthy (s : str) : bool :=
  match s with [] => false | _ :: _ => true end.

(** *** Pure POSIX paths

    A [Path] is absolute and is kept as the list of its components below
    the root; the root is the empty list. *)
Definition Path := list str.

Definition path_eq_dec : forall p q : Path, {p = q} + {p <> q} :=
  list_eq_dec str_eq_dec.

(** [p.parent]: the root is its own parent. *)
Definition parent (p : Path) : Path := removelast p.

(** [p.name]: the final component, empty for the root. *)
Definition name (p : Path) : str := last p [].

(** [p.suffix]: the final component from its last dot on, unless that dot
    is its first or its last character. *)
Definition suffix (p : Path) : str :=
  let n := name p in
  match rfind 46 n with
  | Some i =>
      if (0 <? i)%nat && (i <? length n - 1)%nat then skipn i n else []
  | None => []
  end.

(** The components of a typed segment: empty and [.] components vanish. *)
Definition parts (s : str) : list str :=
  filter (fun c => negb (str_eqb c [] || str_eqb c [46%N]))
         (split_on 47 [] s).

(** [p / s]: an absolute segment replaces [p]. *)
Definition joinpath (p : Path) (s : str) : Path :=
  if startswith s [47%N] then parts s else p ++ parts s.

End Py.

Import Py.

(* ===================================================================== *)
(** ** Exceptions, results and the state-and-exception monad *)
(* ===================================================================== *)

(** The exceptions the program meets.  The first six are the [OSError]
    family raised by the file system calls; [OSError] itself stands for
    the members without a class of their own (a symbolic link loop, a
    directory that is not empty, [rmtree] applied to a link, a time stamp
    the C library cannot convert).  [ValueError] and [OverflowError] are
    what [datetime.fromtimestamp] raises for a time stamp outside the
    years 1 to 9999, or outside the platform's [time_t]. *)
Inductive exn :=
| PermissionError
| FileNotFoundError
| FileExistsError
| NotADirectoryError
| IsADirectoryError
| OSError
| ValueError
| OverflowError.

(** [isinstance(e, OSError)], the test of [except OSError]. *)
Definition is_oserror (e : exn) : bool :=
  match e with
  | ValueError | OverflowError => false
  | _ => true
  end.

Inductive result (A : Type) :=
| Ok (a : A)
| Raise (e : exn).
Arguments Ok {A} a.
Arguments Raise {A} e.

(** One statement after the other in code that reads but does not
    assign: the first exception ends it. *)
Definition and_then {A B} (r : result A) (k : A -> result B) : result B :=
  match r with
  | Ok a => k a
  | Raise e => Raise e
  end.

(** [try: r except OSError: handler] *)
Definition except_OSError {A} (r : result A) (handler : A) : result A :=
  match r with
  | Ok a => Ok a
  | Raise e => if is_oserror e then Ok handler else Raise e
  end.

(** A computation over a mutable store [S]: it returns or raises, and the
    store keeps whatever was assigned before the exception. *)
Definition M (S A : Type) := S -> S * result A.

Definition ret {S A} (a : A) : M S A := fun s => (s, Ok a).

Definition raise {S A} (e : exn) : M S A := fun s => (s, Raise e).

Definition bind {S A B} (c : M S A) (k : A -> M S B) : M S B :=
  fun s =>
    match c s with
    | (s1, Ok a) => k a s1
    | (s1, Raise e) => (s1, Raise e)
    end.

Definition get {S} : M S S := fun s => (s, Ok s).

Definition modify {S} (f : S -> S) : M S unit := fun s => (f s, Ok tt).

(** A read that may raise. *)
Definition lift {S A} (r : S -> result A) : M S A := fun s => (s, r s).

Declare Scope py_scope.
Delimit Scope py_scope with py.
Notation "x <- c ;; k" := (bind c (fun x => k))
  (at level 61, c at next level, right associativity) : py_scope.
Notation "c ;; k" := (bind c (fun _ => k))
  (at level 61, right associativity) : py_scope.
Notation "'when' b 'then' c" := (if b then c else ret tt)
  (at level 61, b at level 9, right associativity) : py_scope.

Declare Scope result_scope.
Delimit Scope result_scope with result.
Notation "x <~ r ;; k" := (and_then r (fun x => k))
  (at level 61, r at next level, right associativity) : result_scope.

(** [[g(x) for x in l]], and the body of a [for] loop that appends one
    item per element: the elements are visited in order and the first
    exception ends the loop. *)
Fixpoint traverse {A B} (g : A -> result B) (l : list A) : result (list B) :=
  match l with
  | [] => Ok []
  | x :: rest =>
      (y <~ g x ;; ys <~ traverse g rest ;; Ok (y :: ys))%result
  end.

(* ===================================================================== *)
(** ** The module-level helpers and the dialogs of [app.py] *)
(* ===================================================================== *)

(** [c.isspace()] for one character: the white space [str.strip()]
    removes. *)
Definition isspace (c : N) : bool :=
  ((9 <=? c) && (c <=? 13) || (28 <=? c) && (c <=? 32)
   || (c =? 133) || (c =? 160) || (c =? 5760)
   || (8192 <=? c) && (c <=? 8202)
   || (c =? 8232) || (c =? 8233) || (c =? 8239) || (c =? 8287)
   || (c =? 12288))%N.

(** [s.lstrip()] and [s.strip()] *)
Fixpoint lstrip (s : str) : str :=
  match s with
  | c :: s' => if isspace c then lstrip s' else s
  | [] => []
  end.

Definition strip (s : str) : str := rev (lstrip (rev (lstrip s))).

(** [str(n)]: the decimal digits of an integer, most significant first.
    [digits] prepends the digits of [n >= 0] to [acc]; an integer has no
    more decimal digits than binary ones, which bounds the recursion. *)
Fixpoint digits (fuel : nat) (n : Z) (acc : str) : str :=
  match fuel with
  | O => acc
  | S fuel' =>
      let acc' := (48 + Z.to_N (n mod 10))%N :: acc in
      if (n <? 10)%Z then acc' else digits fuel' (n / 10) acc'
  end.

Definition str_of_int (n : Z) : str :=
  if (n <? 0)%Z then 45%N :: digits (S (Z.to_nat (Z.log2 (- n)))) (- n) []
  else digits (S (Z.to_nat (Z.log2 n))) n [].

(** The format [>w]: [s.rjust(w)]. *)
Definition rjust (w : nat) (s : str) : str := repeat 32%N (w - length s) ++ s.

(** The integer nearest to [n / d] for [d > 0], a tie going to the even
    one. *)
Definition round_half_even (n d : Z) : Z :=
  let q := (n / d)%Z in
  let r := (n mod d)%Z in
  if (2 * r <? d)%Z then q
  else if (d <? 2 * r)%Z then (q + 1)%Z
  else if Z.even q then q else (q + 1)%Z.

(** The format [.1f] of the number [n / d >= 0]: its nearest tenth. *)
Definition fixed1 (n d : Z) : str :=
  let t := round_half_even (10 * n) d in
  str_of_int (t / 10) ++ lit "." ++ str_of_int (t mod 10).

(** The loop of [format_size] over the units still to try, the variable
    [size] holding the number [n / d].  Below [2 ** 53] an integer is a
    float, and so is each of its quotients by a power of 1024: dividing
    changes the exponent only.  The float the loop holds is then that
    number exactly, and [.1f] prints its nearest tenth. *)
Fixpoint format_size_loop (units : list str) (n d : Z) : str :=
  match units with
  | [] => rjust 5 (fixed1 n d) ++ lit "P"
  | unit :: rest =>
      if (n <? 1024 * d)%Z then
        (if negb (str_eqb unit (lit "B")) then rjust 5 (fixed1 n d)
         else rjust 5 (str_of_int n)) ++ unit
      else format_size_loop rest n (1024 * d)
  end.

Definition format_size (size : Z) : str :=
  format_size_loop [lit "B"; lit "K"; lit "M"; lit "G"; lit "T"] size 1.

(** [stat.S_IFMT], [stat.S_ISDIR] and [stat.S_ISLNK] *)
Definition S_IFMT (mode : Z) : Z := Z.land mode 61440.

Definition S_ISDIR (mode : Z) : bool := (S_IFMT mode =? 16384)%Z.

Definition S_ISLNK (mode : Z) : bool := (S_IFMT mode =? 40960)%Z.

(** [(stat.S_IRUSR, stat.S_IWUSR, ..., stat.S_IXOTH)] *)
Definition PERMISSION_MASKS : list Z := [256; 128; 64; 32; 16; 8; 4; 2; 1]%Z.

(** One turn of the loop of [format_permissions]:
    [perms += "rwxrwxrwx"[len(perms)] if mode & who else "-"]. *)
Definition add_permission (mode : Z) (perms : str) (who : Z) : str :=
  perms ++ [if (Z.land mode who =? 0)%Z then 45%N
            else nth (length perms) (lit "rwxrwxrwx") 0%N].

Definition format_permissions (mode : Z) : str :=
  let perms := fold_left (add_permission mode) PERMISSION_MASKS [] in
  let prefix :=
    if S_ISDIR mode then lit "d" else if S_ISLNK mode then lit "l" else lit "-" in
  prefix ++ perms.

(** [class InputDialog]: what the screen is dismissed with, given the text
    in its input field. *)
Module InputDialog.

Record t := mk { _title : str; _default : str }.

Definition on_button_pressed (value : str) (button_id : str) : option str :=
  if str_eqb button_id (lit "ok") then Some (strip value) else None.

Definition on_input_submitted (value : str) : option str := Some (strip value).

Definition key_escape : option str := None.

(** The three ways out of the dialog. *)
Inductive event :=
| Pressed (button_id : str)
| Submitted
| Escape.

Definition dismissed (value : str) (ev : event) : option str :=
  match ev with
  | Pressed button_id => on_button_pressed value button_id
  | Submitted => on_input_submitted value
  | Escape => key_escape
  end.

End InputDialog.

(** [class ConfirmDialog] *)
Module ConfirmDialog.

Record t := mk { _message : str }.

Definition on_button_pressed (button_id : str) : bool :=
  str_eqb button_id (lit "yes").

Definition key_y : bool := true.

Definition key_n : bool := false.

Definition key_escape : bool := false.

(** The four ways out of the dialog. *)
Inductive event :=
| Pressed (button_id : str)
| KeyY
| KeyN
| Escape.

Definition dismissed (ev : event) : bool :=
  match ev with
  | Pressed button_id => on_button_pressed button_id
  | KeyY => key_y
  | KeyN => key_n
  | Escape => key_escape
  end.

End ConfirmDialog.

(* ===================================================================== *)
(** ** The host: operating system, user database, clock and Unicode tables *)
(* ===================================================================== *)

(** The fields of [os.stat_result] the program reads. *)
Record stat_result := {
  st_mode : Z;
  st_uid : Z;
  st_gid : Z;
  st_size : Z;
  st_mtime : Z
}.

(** The calls that touch file content or change the file system; the
    program's runs record them in issue order, most recent first. *)
Inductive call :=
| CallReadBytes (p : Path)
| CallMkdir (p : Path)
| CallTouch (p : Path)
| CallRename (src dst : Path)
| CallRmtree (p : Path)
| CallUnlink (p : Path).

(** What the program asks of its environment.  [fs] is a snapshot of the
    file system; queries read it, mutations return the next snapshot
    together with their outcome (a failed mutation may still have changed
    the snapshot, as a recursive removal that stops half-way does).  The
    three tests of [pathlib] answer [False] for a path that is missing or
    runs through a file or a link loop, and raise every other error of
    the underlying [stat], a denied search permission among them. *)
Class Host := {
  fs : Type;
  (* [str.lower] *)
  lower : str -> str;
  (* [Path.home()] *)
  home : Path;
  (* [os.listdir], in the order the system enumerates *)
  listdir : fs -> Path -> result (list str);
  (* [Path.exists] and [Path.is_dir], which follow symbolic links, and
     [Path.is_symlink], which does not *)
  path_exists : fs -> Path -> result bool;
  is_dir : fs -> Path -> result bool;
  is_symlink : fs -> Path -> result bool;
  (* [Path.lstat] and [Path.stat] *)
  lstat : fs -> Path -> result stat_result;
  stat : fs -> Path -> result stat_result;
  (* [os.access(p, os.X_OK)] *)
  access_x : fs -> Path -> bool;
  (* [Path.read_bytes] *)
  read_bytes : fs -> Path -> result bytes;
  (* [pwd.getpwuid(uid).pw_name] and [grp.getgrgid(gid).gr_name];
     [None] stands for [KeyError] *)
  getpwuid : Z -> option str;
  getgrgid : Z -> option str;
  (* [datetime.fromtimestamp(t)] in the local time zone, and
     [dt.strftime(format)] *)
  datetime : Type;
  fromtimestamp : Z -> result datetime;
  strftime : datetime -> str -> str;
  (* [Path.mkdir(exist_ok=True)], [Path.touch()], [Path.rename(target)],
     [shutil.rmtree(p)], [Path.unlink()] *)
  mkdir_exist_ok : fs -> Path -> fs * result unit;
  touch : fs -> Path -> fs * result unit;
  rename : fs -> Path -> Path -> fs * result unit;
  rmtree : fs -> Path -> fs * result unit;
  unlink : fs -> Path -> fs * result unit
}.

Section Listing.
Context `{Host}.
Local Open Scope result_scope.

(** [p.iterdir()]: the children of [p] as paths below [p]. *)
Definition iterdir (f : fs) (p : Path) : result (list Path) :=
  names <~ listdir f p ;; Ok (map (fun n => p ++ [n]) names).

(** [lambda p: (not p.is_dir(), p.name.lower())], the sort key of the
    three panes. *)
Definition entry_key (f : fs) (p : Path) : result key :=
  d <~ is_dir f p ;; Ok (negb d, lower (name p)).

(** [sorted(paths, key=...)] computes the key of every element first, in
    the order of the list, so that the first key that raises ends the
    call; the elements are then sorted by these keys. *)
Fixpoint keyed (f : fs) (paths : list Path) : result (list (key * Path)) :=
  match paths with
  | [] => Ok []
  | p :: rest =>
      k <~ entry_key f p ;; ks <~ keyed f rest ;; Ok ((k, p) :: ks)
  end.

Definition sorted_entries (f : fs) (paths : list Path) : result (list Path) :=
  ks <~ keyed f paths ;; Ok (map snd (sorted key_lt fst ks)).

(** [sorted(p.iterdir(), key=...)] *)
Definition listing (f : fs) (p : Path) : result (list Path) :=
  raw <~ iterdir f p ;; sorted_entries f raw.

(** [e.name.startswith(".")] *)
Definition is_hidden (e : Path) : bool := startswith (name e) (lit ".").

(** [[e for e in entries if not e.name.startswith(".")]] *)
Definition visible (entries : list Path) : list Path :=
  filter (fun e => negb (is_hidden e)) entries.
End Listing.

(* ===================================================================== *)
(** ** [class ParentPane] *)
(* ===================================================================== *)

Module ParentPane.

Record t := mk { current_dir : Path; show_hidden : bool }.

(** The markup of one line: the current directory in reverse video, the
    other directories in bold cyan with a trailing slash, the rest plain. *)
Inductive style := Current | Directory | Plain.

(** The three shapes [render_entries] returns: [str(self.current_dir)]
    at the root, the red [Permission denied] message, or one line per
    entry. *)
Inductive view :=
| RootPath (p : Path)
| PermissionDenied
| Lines (ls : list (str * style)).

Section Methods.
Context `{Host}.
Local Open Scope result_scope.

Definition line (f : fs) (self : t) (entry : Path) : result (str * style) :=
  if path_eq_dec entry (current_dir self) then Ok (name entry, Current)
  else d <~ is_dir f entry ;; Ok (name entry, if d then Directory else Plain).

Definition render_entries (f : fs) (self : t) : result view :=
  let parent := parent (current_dir self) in
  if path_eq_dec parent (current_dir self) then Ok (RootPath (current_dir self))
  else
    match listing f parent with
    | Ok entries =>
        let entries := if show_hidden self then entries else visible entries in
        ls <~ traverse (line f self) entries ;; Ok (Lines ls)
    | Raise PermissionError => Ok PermissionDenied
    | Raise e => Raise e
    end.
End Methods.

End ParentPane.

(* ===================================================================== *)
(** ** [class FileList] *)
(* ===================================================================== *)

Module FileList.

Record t := mk { current_dir : Path; cursor : Z; show_hidden : bool }.

Definition with_cursor (c : Z) (self : t) : t :=
  mk (current_dir self) c (show_hidden self).

(** The markup of an entry name: [name/] in bold cyan, [name@] in
    magenta, [name*] in green, or the bare name. *)
Inductive decoration := DirName | LinkName | ExecName | PlainName.

(** One line of the main pane: the name with its markup, the size and
    the time columns, and whether the line is in reverse video. *)
Record row := {
  row_name : str;
  row_decoration : decoration;
  row_size : str;
  row_mtime : str;
  row_reverse : bool
}.

(** [render_list] returns the dim [Empty directory] message or the rows. *)
Inductive view :=
| EmptyDirectory
| Rows (rs : list row).

Section Methods.
Context `{Host}.
Local Open Scope result_scope.

Definition get_entries (f : fs) (self : t) : result (list Path) :=
  match listing f (current_dir self) with
  | Ok entries => Ok (if show_hidden self then entries else visible entries)
  | Raise PermissionError => Ok []
  | Raise e => Raise e
  end.

(** The size and time columns of an entry: the [try] block of
    [render_list] with its [except OSError]. *)
Definition columns (f : fs) (entry : Path) : result (str * str) :=
  except_OSError
    (st <~ lstat f entry ;;
     let size := format_size (st_size st) in
     dt <~ fromtimestamp (st_mtime st) ;;
     Ok (size, strftime dt (lit "%Y-%m-%d %H:%M")))
    (lit "    ?", lit "               ?").

Definition render_row (f : fs) (self : t) (i : Z) (entry : Path) : result row :=
  cols <~ columns f entry ;;
  d <~ is_dir f entry ;;
  display <~ (if d then Ok DirName
              else l <~ is_symlink f entry ;;
                   Ok (if l then LinkName
                       else if access_x f entry then ExecName
                       else PlainName)) ;;
  Ok {| row_name := name entry;
        row_decoration := display;
        row_size := fst cols;
        row_mtime := snd cols;
        row_reverse := Z.eqb i (cursor self) |}.

(** [for i, entry in enumerate(entries)], counting from [i]. *)
Fixpoint render_rows (f : fs) (self : t) (i : Z) (entries : list Path)
  : result (list row) :=
  match entries with
  | [] => Ok []
  | entry :: rest =>
      r <~ render_row f self i entry ;;
      rs <~ render_rows f self (i + 1) rest ;;
      Ok (r :: rs)
  end.

Definition render_list (f : fs) (self : t) : result view :=
  match get_entries f self with
  | Ok [] => Ok EmptyDirectory
  | Ok entries => rs <~ render_rows f self 0 entries ;; Ok (Rows rs)
  | Raise e => Raise e
  end.

(** Assigning the reactive [current_dir]: the watcher runs only when
    the value changes, and resets the cursor. *)
Definition watch_current_dir (self : t) : t := with_cursor 0 self.

Definition set_current_dir (d : Path) (self : t) : t :=
  if path_eq_dec (current_dir self) d then self
  else watch_current_dir (mk d (cursor self) (show_hidden self)).

Definition watch_show_hidden (self : t) : t := with_cursor 0 self.

Definition set_show_hidden (h : bool) (self : t) : t :=
  if Bool.eqb (show_hidden self) h then self
  else watch_show_hidden (mk (current_dir self) (cursor self) h).

Definition selected_path (f : fs) (self : t) : result (option Path) :=
  match get_entries f self with
  | Ok entries =>
      if (0 <=? cursor self)%Z && (cursor self <? len entries)%Z
      then Ok (nth_error entries (Z.to_nat (cursor self)))
      else Ok None
  | Raise e => Raise e
  end.
End Methods.

End FileList.

(* ===================================================================== *)
(** ** [class PreviewPane] *)
(* ===================================================================== *)

Module PreviewPane.

Record t := mk { preview_path : option Path; show_hidden : bool }.

Definition MAX_PREVIEW_LINES : Z := 80.
Definition MAX_LINE_LEN : Z := 200.
Definition MAX_PREVIEW_BYTES : Z := 64 * 1024.

Definition BINARY_EXTENSIONS : list str := map lit [
  ".png"; ".jpg"; ".jpeg"; ".gif"; ".bmp"; ".ico"; ".webp"; ".tiff"; ".tif";
  ".svg"; ".mp3"; ".mp4"; ".mkv"; ".avi"; ".mov"; ".flac"; ".wav"; ".ogg";
  ".webm"; ".zip"; ".tar"; ".gz"; ".bz2"; ".xz"; ".zst"; ".7z"; ".rar";
  ".pdf"; ".doc"; ".docx"; ".xls"; ".xlsx"; ".ppt"; ".pptx";
  ".so"; ".dylib"; ".dll"; ".exe"; ".o"; ".a"; ".pyc"; ".pyo";
  ".woff"; ".woff2"; ".ttf"; ".otf"; ".eot";
  ".db"; ".sqlite"; ".sqlite3";
  ".bin"; ".dat"; ".iso"; ".img"
]%string.

(** [x in BINARY_EXTENSIONS] *)
Definition is_binary_extension (x : str) : bool :=
  existsb (str_eqb x) BINARY_EXTENSIONS.

(** What follows the header in the returned markup.  [Text content]
    stands for [escape(content)], which displays as [content]; the
    other constructors are the fixed messages of the source. *)
Inductive body :=
| NoSelection
| DoesNotExist
| PermissionDenied
| DirDigest (children : list (str * bool)) (more : option Z)
| BinaryExtension (sfx : str)
| TooLarge (size : Z)
| BinaryContent
| Text (content : str)
| CannotRead.

(** The five fields of the header line. *)
Record head := {
  perms : str;
  owner : str;
  group : str;
  size : str;
  mtime : str
}.

(** The header is the empty string, [None] here, or the header line. *)
Record view := { header : option head; content : body }.

Definition bare (b : body) : view := {| header := None; content := b |}.

(** The body of a rendering. *)
Definition content_of (r : list call * result view) : result body :=
  match snd r with
  | Ok v => Ok (content v)
  | Raise e => Raise e
  end.

Section Methods.
Context `{Host}.
Local Open Scope result_scope.

(** The [try] block that builds the header, with its [except OSError]. *)
Definition head_of (f : fs) (path : Path) : result (option head) :=
  except_OSError
    (st <~ lstat f path ;;
     let perms := format_permissions (st_mode st) in
     let owner :=
       match getpwuid (st_uid st) with
       | Some pw_name => pw_name
       | None => str_of_int (st_uid st)
       end in
     let group :=
       match getgrgid (st_gid st) with
       | Some gr_name => gr_name
       | None => str_of_int (st_gid st)
       end in
     let size := format_size (st_size st) in
     dt <~ fromtimestamp (st_mtime st) ;;
     Ok (Some {| perms := perms; owner := owner; group := group; size := size;
                 mtime := strftime dt (lit "%Y-%m-%d %H:%M:%S") |}))
    None.

(** [try: file_size = path.stat().st_size except OSError: file_size = 0] *)
Definition file_size_of (f : fs) (path : Path) : result Z :=
  except_OSError (st <~ stat f path ;; Ok (st_size st)) 0%Z.

(** [lines = text.splitlines()[:80]; truncated = [ln[:200] ...];
    content = "\n".join(truncated)] *)
Definition text_digest (raw : bytes) : str :=
  let text := decode_replace raw in
  let lines := upto MAX_PREVIEW_LINES (splitlines text) in
  let truncated := map (upto MAX_LINE_LEN) lines in
  join [10%N] truncated.

(** One line of the digest of a directory: the name and whether
    [e.is_dir()] holds. *)
Definition digest_line (f : fs) (e : Path) : result (str * bool) :=
  d <~ is_dir f e ;; Ok (name e, d).

(** The rendering, paired with the content reads it issued. *)
Definition render_preview (f : fs) (self : t) : list call * result view :=
  match preview_path self with
  | None => ([], Ok (bare NoSelection))
  | Some path =>
      match path_exists f path with
      | Raise e => ([], Raise e)
      | Ok false => ([], Ok (bare DoesNotExist))
      | Ok true =>
          match head_of f path with
          | Raise e => ([], Raise e)
          | Ok header =>
              let out b := Ok {| header := header; content := b |} in
              match is_dir f path with
              | Raise e => ([], Raise e)
              | Ok true =>
                  match listing f path with
                  | Ok entries =>
                      let entries :=
                        if show_hidden self then entries else visible entries in
                      ([], children <~ traverse (digest_line f) (upto 50 entries) ;;
                           out (DirDigest children
                                  (if (len entries >? 50)%Z
                                   then Some (len entries - 50)%Z else None)))
                  | Raise PermissionError => ([], out PermissionDenied)
                  | Raise e => ([], Raise e)
                  end
              | Ok false =>
                  if is_binary_extension (lower (suffix path)) then
                    ([], out (BinaryExtension (suffix path)))
                  else
                    match file_size_of f path with
                    | Raise e => ([], Raise e)
                    | Ok file_size =>
                        if (file_size >? MAX_PREVIEW_BYTES)%Z
                        then ([], out (TooLarge file_size))
                        else
                          ([CallReadBytes path],
                           match read_bytes f path with
                           | Ok data =>
                               let raw := upto MAX_PREVIEW_BYTES data in
                               if contains_nul (upto 1024 raw)
                               then out BinaryContent
                               else out (Text (text_digest raw))
                           | Raise _ => out CannotRead
                           end)
                    end
              end
          end
      end
  end.
End Methods.

End PreviewPane.

(* ===================================================================== *)
(** ** [class StatusBar] *)
(* ===================================================================== *)

Module StatusBar.

(** The text of the bar: the path and the two counts it interpolates;
    [None] is the initial empty string. *)
Record summary := { shown_dir : Path; count_dirs : Z; count_files : Z }.

Record t := mk { text : option summary }.

End StatusBar.

(* ===================================================================== *)
(** ** [class Explorer] *)
(* ===================================================================== *)

Module Explorer.

Local Open Scope py_scope.

Section App.
Context `{Host}.

(** The application object with its four stateful widgets
    ([query_one] returns these very objects), together with the file
    system it runs on and the log of the calls it issued. *)
Record t := mk {
  disk : fs;
  calls : list call;
  current_dir : Path;
  show_hidden : bool;
  parent_pane : ParentPane.t;
  file_list : FileList.t;
  preview_pane : PreviewPane.t;
  status_bar : StatusBar.t
}.

(** The state once the host call [c] has left the snapshot [f]. *)
Definition with_disk (f : fs) (c : call) (s : t) : t :=
  mk f (c :: calls s) (current_dir s) (show_hidden s) (parent_pane s)
     (file_list s) (preview_pane s) (status_bar s).

Definition with_current_dir (d : Path) (s : t) : t :=
  mk (disk s) (calls s) d (show_hidden s) (parent_pane s)
     (file_list s) (preview_pane s) (status_bar s).

Definition with_show_hidden (h : bool) (s : t) : t :=
  mk (disk s) (calls s) (current_dir s) h (parent_pane s)
     (file_list s) (preview_pane s) (status_bar s).

Definition with_parent_pane (p : ParentPane.t) (s : t) : t :=
  mk (disk s) (calls s) (current_dir s) (show_hidden s) p
     (file_list s) (preview_pane s) (status_bar s).

Definition with_file_list (fl : FileList.t) (s : t) : t :=
  mk (disk s) (calls s) (current_dir s) (show_hidden s) (parent_pane s)
     fl (preview_pane s) (status_bar s).

Definition with_preview_pane (p : PreviewPane.t) (s : t) : t :=
  mk (disk s) (calls s) (current_dir s) (show_hidden s) (parent_pane s)
     (file_list s) p (status_bar s).

Definition with_status_bar (b : StatusBar.t) (s : t) : t :=
  mk (disk s) (calls s) (current_dir s) (show_hidden s) (parent_pane s)
     (file_list s) (preview_pane s) b.

(** [fl.cursor = c] *)
Definition set_cursor (c : Z) : M t unit :=
  modify (fun s => with_file_list (FileList.with_cursor c (file_list s)) s).

(** [fl.get_entries()] and [fl.selected_path()] on the live widget. *)
Definition get_entries : M t (list Path) :=
  lift (fun s => FileList.get_entries (disk s) (file_list s)).

Definition selected_path : M t (option Path) :=
  lift (fun s => FileList.selected_path (disk s) (file_list s)).

Definition _update_preview : M t unit :=
  modify (fun s => with_preview_pane
            (PreviewPane.mk (PreviewPane.preview_path (preview_pane s))
                            (show_hidden s)) s) ;;
  selected <- selected_path ;;
  modify (fun s => with_preview_pane
            (PreviewPane.mk selected
                            (PreviewPane.show_hidden (preview_pane s))) s).

(** [sum(1 for e in entries if e.is_dir())] *)
Definition dirs_among (f : fs) (entries : list Path) : result Z :=
  (tests <~ traverse (is_dir f) entries ;; Ok (len (filter id tests)))%result.

Definition _sync_all : M t unit :=
  modify (fun s => with_parent_pane
            (ParentPane.mk (current_dir s)
                           (ParentPane.show_hidden (parent_pane s))) s) ;;
  modify (fun s => with_parent_pane
            (ParentPane.mk (ParentPane.current_dir (parent_pane s))
                           (show_hidden s)) s) ;;
  modify (fun s => with_file_list
            (FileList.set_current_dir (current_dir s) (file_list s)) s) ;;
  modify (fun s => with_file_list
            (FileList.set_show_hidden (show_hidden s) (file_list s)) s) ;;
  _update_preview ;;
  entries <- get_entries ;;
  s <- get ;;
  count_dirs <- lift (fun s => dirs_among (disk s) entries) ;;
  let count_files := (len entries - count_dirs)%Z in
  modify (with_status_bar
            (StatusBar.mk
               (Some {| StatusBar.shown_dir := current_dir s;
                        StatusBar.count_dirs := count_dirs;
                        StatusBar.count_files := count_files |}))).

Definition on_mount : M t unit := _sync_all.

Definition watch_current_dir : M t unit := _sync_all.

(** [self.current_dir = d]: the watcher runs when the value changes. *)
Definition set_current_dir (d : Path) : M t unit :=
  s <- get ;;
  if path_eq_dec (current_dir s) d then ret tt
  else modify (with_current_dir d) ;; watch_current_dir.

Definition action_cursor_down : M t unit :=
  entries <- get_entries ;;
  s <- get ;;
  when (FileList.cursor (file_list s) <? len entries - 1)%Z then
    (set_cursor (FileList.cursor (file_list s) + 1) ;; _update_preview).

Definition action_cursor_up : M t unit :=
  s <- get ;;
  when (FileList.cursor (file_list s) >? 0)%Z then
    (set_cursor (FileList.cursor (file_list s) - 1) ;; _update_preview).

Definition action_enter_dir : M t unit :=
  selected <- selected_path ;;
  match selected with
  | Some sel =>
      d <- lift (fun s => is_dir (disk s) sel) ;;
      when d then set_current_dir sel
  | None => ret tt
  end.

(** [for i, e in enumerate(entries): if e == old: ...; break],
    counting from [i]. *)
Fixpoint place_cursor (old : Path) (i : Z) (entries : list Path) : M t unit :=
  match entries with
  | [] => ret tt
  | e :: rest =>
      if path_eq_dec e old then set_cursor i ;; _update_preview
      else place_cursor old (i + 1) rest
  end.

Definition action_parent_dir : M t unit :=
  s <- get ;;
  let parent := parent (current_dir s) in
  if path_eq_dec parent (current_dir s) then ret tt
  else
    let old := current_dir s in
    set_current_dir parent ;;
    entries <- get_entries ;;
    place_cursor old 0 entries.

Definition action_go_top : M t unit :=
  set_cursor 0 ;; _update_preview.

Definition action_go_bottom : M t unit :=
  entries <- get_entries ;;
  match entries with
  | [] => ret tt
  | _ => set_cursor (len entries - 1) ;; _update_preview
  end.

Definition action_toggle_hidden : M t unit :=
  modify (fun s => with_show_hidden (negb (show_hidden s)) s) ;;
  _sync_all.

Definition action_go_home : M t unit := set_current_dir home.

Definition _refresh_view : M t unit :=
  _sync_all ;;
  entries <- get_entries ;;
  s <- get ;;
  (when (FileList.cursor (file_list s) >=? len entries)%Z then
     set_cursor (Z.max 0 (len entries - 1))) ;;
  _update_preview.

(** A mutating host call: logged, and the snapshot it leaves is kept
    whether it returns or raises. *)
Definition host_call (c : call) (op : fs -> fs * result unit) : M t unit :=
  fun s => let (f, r) := op (disk s) in (with_disk f c s, r).

(** [action_create] with the answer of its dialog: [on_result(name)]. *)
Definition action_create (answer : option str) : M t unit :=
  match answer with
  | Some name =>
      if truthy name then
        s <- get ;;
        (if endswith name (lit "/") then
           let p := joinpath (current_dir s) (rstrip1 47 name) in
           host_call (CallMkdir p) (fun f => mkdir_exist_ok f p)
         else
           let p := joinpath (current_dir s) name in
           host_call (CallTouch p) (fun f => touch f p)) ;;
        _refresh_view
      else ret tt
  | None => ret tt
  end.

(** [action_rename] with the answer of its dialog; [selected] is the
    entry under the cursor when the dialog was opened. *)
Definition action_rename (answer : option str) : M t unit :=
  selected <- selected_path ;;
  match selected with
  | None => ret tt
  | Some sel =>
      match answer with
      | Some new_name =>
          if truthy new_name && negb (str_eqb new_name (name sel)) then
            s <- get ;;
            let target := joinpath (current_dir s) new_name in
            host_call (CallRename sel target) (fun f => rename f sel target) ;;
            _refresh_view
          else ret tt
      | None => ret tt
      end
  end.

(** [action_delete] with the answer of its confirmation dialog. *)
Definition action_delete (confirmed : bool) : M t unit :=
  selected <- selected_path ;;
  match selected with
  | None => ret tt
  | Some sel =>
      if confirmed then
        d <- lift (fun s => is_dir (disk s) sel) ;;
        (if d
         then host_call (CallRmtree sel) (fun f => rmtree f sel)
         else host_call (CallUnlink sel) (fun f => unlink f sel)) ;;
        _refresh_view
      else ret tt
  end.
End App.

(** The key bindings that reach the navigation state, each mutation
    carrying the answer its dialog returns. *)
Inductive action :=
| CursorDown
| CursorUp
| EnterDir
| ParentDir
| GoTop
| GoBottom
| GoHome
| ToggleHidden
| Create (answer : option str)
| Rename (answer : option str)
| Delete (confirmed : bool).

Section Run.
Context `{Host}.

Definition run (a : action) : M t unit :=
  match a with
  | CursorDown => action_cursor_down
  | CursorUp => action_cursor_up
  | EnterDir => action_enter_dir
  | ParentDir => action_parent_dir
  | GoTop => action_go_top
  | GoBottom => action_go_bottom
  | GoHome => action_go_home
  | ToggleHidden => action_toggle_hidden
  | Create answer => action_create answer
  | Rename answer => action_rename answer
  | Delete confirmed => action_delete confirmed
  end.

(** The object before [on_mount]: the class-level defaults of the
    reactive attributes. *)
Definition initial (f : fs) (cwd : Path) : t :=
  mk f [] cwd true
     (ParentPane.mk home true)
     (FileList.mk home 0 true)
     (PreviewPane.mk None true)
     (StatusBar.mk None).

(** The states a session passes through: mounted, then one handled
    key after the other.  A handler that raises ends the session, and
    nothing but the program changes the file system meanwhile. *)
Inductive reachable : t -> Prop :=
| reach_mount f cwd s :
    on_mount (initial f cwd) = (s, Ok tt) -> reachable s
| reach_step a s s' :
    reachable s -> run a s = (s', Ok tt) -> reachable s'.
End Run.

End Explorer.

(* ===================================================================== *)
(** ** An executable POSIX tree *)
(* ===================================================================== *)

(** A host on which the program runs by computation.  It covers what the
    program can observe of a Linux file system owned by one user: regular
    files with a modification time, directories and symbolic links with
    absolute targets; read, write and search permission on directories,
    read and execute permission on files.  Hard links and the times of
    directories and links are not modelled, the clock stands at 0 and
    shows Coordinated Universal Time, and [lower] is the ASCII part of
    [str.lower]. *)
Module Disk.

Inductive inode :=
| Reg (readable executable : bool) (mtime : Z) (data : bytes)
| Dir (readable writable searchable : bool)
| Lnk (target : Path).

(** Every object under the location it physically lives at, in the order
    the system enumerates; the root [[]] is listed like any directory. *)
Definition tree := list (Path * inode).

Fixpoint lookup (t : tree) (p : Path) : option inode :=
  match t with
  | [] => None
  | (q, i) :: t' => if path_eq_dec q p then Some i else lookup t' p
  end.

(** The number of symbolic links one resolution may follow. *)
Definition MAXSYMLINKS : nat := 40.

(** Resolution of the components [rest] from the directory [cur], which
    must grant search permission.  The result is where the object lives,
    or would live if only its final component is missing.  A link in
    final position is returned as such unless [follow] is set. *)
Fixpoint walk (t : tree) (follow : bool) (links : nat) : Path -> list str -> result Path :=
  fix go (cur : Path) (rest : list str) {struct rest} : result Path :=
    match rest with
    | [] => Ok cur
    | c :: rest' =>
        match lookup t cur with
        | Some (Dir _ _ false) => Raise PermissionError
        | Some (Dir _ _ true) =>
            if str_eqb c (lit "..") then go (parent cur) rest'
            else
              match lookup t (cur ++ [c]) with
              | Some (Lnk target) =>
                  if negb follow && (length rest' =? 0)%nat
                  then Ok (cur ++ [c])
                  else
                    match links with
                    | O => Raise OSError
                    | S k => walk t follow k [] (target ++ rest')
                    end
              | _ => go (cur ++ [c]) rest'
              end
        | Some _ => Raise NotADirectoryError
        | None => Raise FileNotFoundError
        end
    end.

Definition locate (t : tree) (follow : bool) (p : Path) : result Path :=
  walk t follow MAXSYMLINKS [] p.

(** The object a path names, with its location. *)
Definition inode_at (t : tree) (follow : bool) (p : Path) : result (Path * inode) :=
  match locate t follow p with
  | Ok q =>
      match lookup t q with
      | Some i => Ok (q, i)
      | None => Raise FileNotFoundError
      end
  | Raise e => Raise e
  end.

Definition children (t : tree) (q : Path) : list str :=
  flat_map (fun e : Path * inode =>
              match fst e with
              | [] => []
              | _ :: _ => if path_eq_dec (parent (fst e)) q then [name (fst e)] else []
              end) t.

Definition listdir (t : tree) (p : Path) : result (list str) :=
  match inode_at t true p with
  | Ok (q, Dir true _ _) => Ok (children t q)
  | Ok (_, Dir false _ _) => Raise PermissionError
  | Ok _ => Raise NotADirectoryError
  | Raise e => Raise e
  end.

(** The errors the tests of [pathlib] answer [False] to: [ENOENT],
    [ENOTDIR], and [ELOOP], the one [OSError] a resolution raises here. *)
Definition ignored (e : exn) : bool :=
  match e with
  | FileNotFoundError | NotADirectoryError | OSError => true
  | _ => false
  end.

Definition test (r : result (Path * inode)) (p : inode -> bool) : result bool :=
  match r with
  | Ok (_, i) => Ok (p i)
  | Raise e => if ignored e then Ok false else Raise e
  end.

Definition path_exists (t : tree) (p : Path) : result bool :=
  test (inode_at t true p) (fun _ => true).

Definition is_dir (t : tree) (p : Path) : result bool :=
  test (inode_at t true p)
       (fun i => match i with Dir _ _ _ => true | _ => false end).

Definition is_symlink (t : tree) (p : Path) : result bool :=
  test (inode_at t false p)
       (fun i => match i with Lnk _ => true | _ => false end).

Definition bits (b : bool) (mask : Z) : Z := if b then mask else 0.

(** [st_mode] with the file type above the permission bits, the one
    user and group, [st_size] in bytes and [st_mtime] in seconds. *)
Definition stat_of (i : inode) : stat_result :=
  match i with
  | Reg r x mtime data =>
      {| st_mode := 32768 + bits r 292 + 128 + bits x 73;
         st_uid := 1000; st_gid := 1000;
         st_size := len data; st_mtime := mtime |}
  | Dir r w x =>
      {| st_mode := 16384 + bits r 292 + bits w 128 + bits x 73;
         st_uid := 1000; st_gid := 1000;
         st_size := 4096; st_mtime := 0 |}
  | Lnk target =>
      {| st_mode := 40960 + 511;
         st_uid := 1000; st_gid := 1000;
         st_size := len (List.concat target) + len target; st_mtime := 0 |}
  end.

Definition stat_with (follow : bool) (t : tree) (p : Path) : result stat_result :=
  match inode_at t follow p with
  | Ok (_, i) => Ok (stat_of i)
  | Raise e => Raise e
  end.

Definition access_x (t : tree) (p : Path) : bool :=
  match inode_at t true p with
  | Ok (_, Reg _ x _ _) => x
  | Ok (_, Dir _ _ x) => x
  | _ => false
  end.

Definition read_bytes (t : tree) (p : Path) : result bytes :=
  match inode_at t true p with
  | Ok (_, Reg true _ _ data) => Ok data
  | Ok (_, Reg false _ _ _) => Raise PermissionError
  | Ok (_, Dir _ _ _) => Raise IsADirectoryError
  | Ok (_, Lnk _) => Raise OSError
  | Raise e => Raise e
  end.

(** The user and group database: the one user, and root. *)
Definition getpwuid (uid : Z) : option str :=
  if (uid =? 1000)%Z then Some (lit "user")
  else if (uid =? 0)%Z then Some (lit "root")
  else None.

Definition getgrgid (gid : Z) : option str :=
  if (gid =? 1000)%Z then Some (lit "user")
  else if (gid =? 0)%Z then Some (lit "root")
  else None.

(** [datetime.fromtimestamp] where local time is Coordinated Universal
    Time and [time_t] has 64 bits: the time stamp itself within the years
    the type represents, and outside them the exception of the first
    conversion that fails. *)
Definition fromtimestamp (t : Z) : result Z :=
  if (t <? - 2 ^ 63)%Z || (2 ^ 63 <=? t)%Z then Raise OverflowError
  else if (t <? -67768040609740800)%Z || (67768036191676799 <? t)%Z
       then Raise OSError
  else if (t <? -62135510400)%Z || (253402300799 <? t)%Z then Raise ValueError
  else Ok t.

(** The civil date of a count of days since 1 January 1970, in the
    proleptic Gregorian calendar: year, month, day. *)
Definition civil (days : Z) : Z * Z * Z :=
  let z := (days + 719468)%Z in
  let era := (z / 146097)%Z in
  let doe := (z - era * 146097)%Z in
  let yoe := ((doe - doe / 1460 + doe / 36524 - doe / 146096) / 365)%Z in
  let doy := (doe - (365 * yoe + yoe / 4 - yoe / 100))%Z in
  let mp := ((5 * doy + 2) / 153)%Z in
  let d := (doy - (153 * mp + 2) / 5 + 1)%Z in
  let m := if (mp <? 10)%Z then (mp + 3)%Z else (mp - 9)%Z in
  let y := (yoe + era * 400)%Z in
  (if (m <=? 2)%Z then (y + 1)%Z else y, m, d).

(** A number in two columns, as [%m], [%d], [%H], [%M] and [%S] print. *)
Definition two (n : Z) : str :=
  if (n <? 10)%Z then 48%N :: str_of_int n else str_of_int n.

(** The text of one directive of [strftime]; the year is printed
    without padding, as the C library does. *)
Definition directive (t : Z) (c : N) : str :=
  let '(y, m, d) := civil (t / 86400) in
  let secs := (t mod 86400)%Z in
  if (c =? 89)%N then str_of_int y
  else if (c =? 109)%N then two m
  else if (c =? 100)%N then two d
  else if (c =? 72)%N then two (secs / 3600)
  else if (c =? 77)%N then two (secs mod 3600 / 60)
  else if (c =? 83)%N then two (secs mod 60)
  else if (c =? 37)%N then [37%N]
  else [37%N; c].

Fixpoint strftime (t : Z) (format : str) : str :=
  match format with
  | [] => []
  | c :: rest =>
      if (c =? 37)%N then
        match rest with
        | [] => [c]
        | d :: rest' => directive t d ++ strftime t rest'
        end
      else c :: strftime t rest
  end.

(** Whether entries can be added to or removed from the directory that
    holds location [q]. *)
Definition parent_writable (t : tree) (q : Path) : bool :=
  match lookup t (parent q) with
  | Some (Dir _ w _) => w
  | _ => false
  end.

Fixpoint is_prefix (a b : Path) : bool :=
  match a, b with
  | [], _ => true
  | _ :: _, [] => false
  | x :: a', y :: b' => str_eqb x y && is_prefix a' b'
  end.

Definition remove_at (t : tree) (q : Path) : tree :=
  filter (fun e : Path * inode => if path_eq_dec (fst e) q then false else true) t.

Definition remove_below (t : tree) (q : Path) : tree :=
  filter (fun e : Path * inode => negb (is_prefix q (fst e))) t.

(** [os.mkdir] *)
Definition os_mkdir (t : tree) (p : Path) : tree * result unit :=
  match locate t false p with
  | Ok q =>
      match lookup t q with
      | Some _ => (t, Raise FileExistsError)
      | None =>
          if parent_writable t q then (t ++ [(q, Dir true true true)], Ok tt)
          else (t, Raise PermissionError)
      end
  | Raise e => (t, Raise e)
  end.

(** [Path.mkdir(exist_ok=True)]: an error of [os.mkdir] other than
    [FileNotFoundError] is dropped when [is_dir()] holds of the path
    after all, and gives way to an error [is_dir()] raises itself. *)
Definition mkdir_exist_ok (t : tree) (p : Path) : tree * result unit :=
  match os_mkdir t p with
  | (t', Ok u) => (t', Ok u)
  | (t', Raise FileNotFoundError) => (t', Raise FileNotFoundError)
  | (t', Raise e) =>
      match is_dir t' p with
      | Ok true => (t', Ok tt)
      | Ok false => (t', Raise e)
      | Raise e' => (t', Raise e')
      end
  end.

(** [Path.touch()]: nothing to do for a path that resolves, else the
    file is created where the path, links followed, leads. *)
Definition touch (t : tree) (p : Path) : tree * result unit :=
  match inode_at t true p with
  | Ok _ => (t, Ok tt)
  | Raise _ =>
      match locate t true p with
      | Ok q =>
          if parent_writable t q then (t ++ [(q, Reg true false 0 [])], Ok tt)
          else (t, Raise PermissionError)
      | Raise e => (t, Raise e)
      end
  end.

(** [os.unlink] *)
Definition unlink (t : tree) (p : Path) : tree * result unit :=
  match inode_at t false p with
  | Ok (_, Dir _ _ _) => (t, Raise IsADirectoryError)
  | Ok (q, _) =>
      if parent_writable t q then (remove_at t q, Ok tt)
      else (t, Raise PermissionError)
  | Raise e => (t, Raise e)
  end.

(** Whether every directory at or below [q] can be read, searched and
    emptied. *)
Definition removable (t : tree) (q : Path) : bool :=
  forallb (fun e : Path * inode =>
             if is_prefix q (fst e)
             then match snd e with Dir r w x => r && w && x | _ => true end
             else true) t.

(** [shutil.rmtree]: refuses symbolic links and the root, removes a
    directory with all below it.  A subtree holding a protected
    directory is refused as a whole: the entries a real traversal would
    remove before it stops are not tracked. *)
Definition rmtree (t : tree) (p : Path) : tree * result unit :=
  match inode_at t false p with
  | Ok (_, Lnk _) => (t, Raise OSError)
  | Ok (_, Reg _ _ _ _) => (t, Raise NotADirectoryError)
  | Ok ([], Dir _ _ _) => (t, Raise OSError)
  | Ok (q, Dir _ _ _) =>
      if removable t q && parent_writable t q then (remove_below t q, Ok tt)
      else (t, Raise PermissionError)
  | Raise e => (t, Raise e)
  end.

Definition move (t : tree) (qs qd : Path) : tree :=
  map (fun e : Path * inode =>
         if is_prefix qs (fst e)
         then (qd ++ skipn (length qs) (fst e), snd e) else e)
      (remove_at t qd).

(** [os.rename]: a directory replaces only an empty directory, anything
    else replaces only what is not a directory. *)
Definition rename (t : tree) (src dst : Path) : tree * result unit :=
  match inode_at t false src with
  | Ok (qs, i) =>
      match locate t false dst with
      | Ok qd =>
          if path_eq_dec qs qd then (t, Ok tt)
          else if is_prefix qs qd then (t, Raise OSError)
          else
            let go :=
              if parent_writable t qs && parent_writable t qd
              then (move t qs qd, Ok tt) else (t, Raise PermissionError) in
            match lookup t qd, i with
            | Some (Dir _ _ _), Dir _ _ _ =>
                match children t qd with
                | [] => go
                | _ :: _ => (t, Raise OSError)
                end
            | Some (Dir _ _ _), _ => (t, Raise IsADirectoryError)
            | Some _, Dir _ _ _ => (t, Raise NotADirectoryError)
            | _, _ => go
            end
      | Raise e => (t, Raise e)
      end
  | Raise e => (t, Raise e)
  end.

(** [str.lower] on ASCII text. *)
Definition ascii_lower (s : str) : str :=
  map (fun c => if (65 <=? c)%N && (c <=? 90)%N then (c + 32)%N else c) s.

End Disk.

Definition disk_host : Host := {|
  fs := Disk.tree;
  lower := Disk.ascii_lower;
  home := [lit "home"; lit "user"];
  listdir := Disk.listdir;
  path_exists := Disk.path_exists;
  is_dir := Disk.is_dir;
  is_symlink := Disk.is_symlink;
  lstat := Disk.stat_with false;
  stat := Disk.stat_with true;
  access_x := Disk.access_x;
  read_bytes := Disk.read_bytes;
  getpwuid := Disk.getpwuid;
  getgrgid := Disk.getgrgid;
  datetime := Z;
  fromtimestamp := Disk.fromtimestamp;
  strftime := Disk.strftime;
  mkdir_exist_ok := Disk.mkdir_exist_ok;
  touch := Disk.touch;
  rename := Disk.rename;
  rmtree := Disk.rmtree;
  unlink := Disk.unlink
|}.

(* ===================================================================== *)
(** ** Sample directories *)
(* ===================================================================== *)

(** The scenario directory [/tmp/x], enumerated in the order [b.txt], [A],
    [.hidden], where [A] is a directory and the other two are files. *)
Definition tmp_x : Path := [lit "tmp"; lit "x"].

Definition scenario : Disk.tree :=
  [ ([], Disk.Dir true true true);
    ([lit "tmp"], Disk.Dir true true true);
    (tmp_x, Disk.Dir true true true);
    (tmp_x ++ [lit "b.txt"], Disk.Reg true false 1700000000 [x68; x69; x0a]);
    (tmp_x ++ [lit "A"], Disk.Dir true true true);
    (tmp_x ++ [lit ".hidden"], Disk.Reg true false 1700000000 []) ].

(** A session on the scenario directory: mounted in [/tmp/x], the cursor
    sent to the last of the three entries, that entry deleted. *)
Definition mounted : Explorer.t (H := disk_host) :=
  fst (Explorer.on_mount (Explorer.initial (H := disk_host) scenario tmp_x)).

Definition at_bottom : Explorer.t (H := disk_host) :=
  fst (Explorer.run Explorer.GoBottom mounted).

Definition after_delete : Explorer.t (H := disk_host) :=
  fst (Explorer.run (Explorer.Delete true) at_bottom).

(** The same session entering [A] from the mounted state. *)
Definition inside_A : Explorer.t (H := disk_host) :=
  fst (Explorer.run Explorer.EnterDir mounted).

(** A home directory with a directory, a link to it, a directory that
    cannot be read, an empty text file, an image whose bytes are not UTF-8
    and a two-line text file. *)
Definition user_home : Path := [lit "home"; lit "user"].

Definition home_tree : Disk.tree :=
  [ ([], Disk.Dir true true true);
    ([lit "home"], Disk.Dir true true true);
    (user_home, Disk.Dir true true true);
    (user_home ++ [lit "docs"], Disk.Dir true true true);
    (user_home ++ [lit "docs"; lit "a.txt"], Disk.Reg true false 1700000000 [x61]);
    (user_home ++ [lit "link"], Disk.Lnk (user_home ++ [lit "docs"]));
    (user_home ++ [lit "locked"], Disk.Dir false true true);
    (user_home ++ [lit "locked"; lit "inner"], Disk.Dir true true true);
    (user_home ++ [lit "notes.txt"], Disk.Reg true false 1700000000 []);
    (user_home ++ [lit "photo.PNG"], Disk.Reg true false 1700000000 [xff; xfe; x00; xc3]);
    (user_home ++ [lit "readme.md"],
     Disk.Reg true false 1700000000 [x68; x69; x0a; x79; x6f; x0a]) ].

(** The session mounted in the home directory, and with the cursor moved
    one line down, onto [link]. *)
Definition at_home : Explorer.t (H := disk_host) :=
  fst (Explorer.on_mount (Explorer.initial (H := disk_host) home_tree user_home)).

Definition on_link : Explorer.t (H := disk_host) :=
  fst (Explorer.run Explorer.CursorDown at_home).

(** The scenario directory with one more entry, the hidden link [.l]
    to a file in [/tmp/vault], a directory that may be read but not
    searched. *)
Definition vault_tree : Disk.tree :=
  [ ([], Disk.Dir true true true);
    ([lit "tmp"], Disk.Dir true true true);
    (tmp_x, Disk.Dir true true true);
    (tmp_x ++ [lit "b.txt"], Disk.Reg true false 1700000000 [x68; x69; x0a]);
    (tmp_x ++ [lit "A"], Disk.Dir true true true);
    (tmp_x ++ [lit ".l"], Disk.Lnk [lit "tmp"; lit "vault"; lit "f"]);
    ([lit "tmp"; lit "vault"], Disk.Dir true true false);
    ([lit "tmp"; lit "vault"; lit "f"], Disk.Reg true false 1700000000 []) ].

(** A home directory whose image [old.png] carries a modification time
    in the year 36812, as a restored archive or a clock set wrong can
    leave it. *)
Definition future_tree : Disk.tree :=
  [ ([], Disk.Dir true true true);
    ([lit "home"], Disk.Dir true true true);
    (user_home, Disk.Dir true true true);
    (user_home ++ [lit "old.png"],
     Disk.Reg true false 1099511627776 [xff; xfe; x00; xc3]);
    (user_home ++ [lit "plan.txt"],
     Disk.Reg true false 1099511627776 [x68; x69; x0a]) ].

(** The scenario session after the create dialog is answered with
    [" new/ "]. *)
Definition after_create : Explorer.t (H := disk_host) :=
  fst (Explorer.action_create
         (InputDialog.dismissed [32; 110; 101; 119; 47; 32]%N InputDialog.Submitted)
         mounted).

(** A directory [/tmp/x] whose only entry is a file named ["a "], with a
    trailing space; the session mounted there, and the same session after
    the rename dialog is accepted as it opens. *)
Definition spaced : Disk.tree :=
  [ ([], Disk.Dir true true true);
    ([lit "tmp"], Disk.Dir true true true);
    (tmp_x, Disk.Dir true true true);
    (tmp_x ++ [[97; 32]%N], Disk.Reg true false 1700000000 []) ].

Definition spaced_mounted : Explorer.t (H := disk_host) :=
  fst (Explorer.on_mount (Explorer.initial (H := disk_host) spaced tmp_x)).

Definition spaced_renamed : Explorer.t (H := disk_host) :=
  fst (Explorer.action_rename
         (InputDialog.dismissed [97; 32]%N InputDialog.Submitted) spaced_mounted).

(* ===================================================================== *)
(** ** Vocabulary of the properties *)
(* ===================================================================== *)

Definition result_map {A B} (g : A -> B) (r : result A) : result B :=
  match r with
  | Ok a => Ok (g a)
  | Raise e => Raise e
  end.

Section Vocabulary.
Context `{Host}.

(** [a]'s lowercased name is not above [b]'s. *)
Definition name_ascending (a b : Path) : Prop :=
  str_lt (lower (name b)) (lower (name a)) = false.

(** [p.is_dir()] returns [True]; [p.is_dir()] returns [False]. *)
Definition directory (f : fs) (p : Path) : bool :=
  match is_dir f p with Ok true => true | _ => false end.

Definition is_file (f : fs) (p : Path) : bool :=
  match is_dir f p with Ok false => true | _ => false end.

(** [p.is_dir()] returns. *)
Definition tested (f : fs) (p : Path) : Prop := exists d, is_dir f p = Ok d.

(** The sort key of a path on which [is_dir()] returns. *)
Definition key_of (f : fs) (p : Path) : key :=
  (negb (directory f p), lower (name p)).

(** [try: ... except PermissionError: return []] *)
Definition or_empty (r : result (list Path)) : result (list Path) :=
  match r with
  | Ok entries => Ok entries
  | Raise PermissionError => Ok []
  | Raise e => Raise e
  end.

(** The listing as the specification words it: the hidden names are
    dropped first, what is left is sorted. *)
Definition listing_filter_first (f : fs) (raw : list Path) (show_hidden : bool)
  : result (list Path) :=
  sorted_entries f (if show_hidden then raw else visible raw).

(** The size and time columns of the row of [p] can be drawn. *)
Definition has_columns (f : fs) (p : Path) : Prop :=
  exists cols, FileList.columns f p = Ok cols.

(** The markup of the name of [p] can be chosen: [is_symlink()], asked
    of an entry that is no directory, returns. *)
Definition has_marker (f : fs) (p : Path) : Prop :=
  is_dir f p = Ok false -> exists l, is_symlink f p = Ok l.
End Vocabulary.

Section NavigationVocabulary.
Context `{Host}.

(** The cursor is a valid index of every non-empty listing of the
    widget's directory. *)
Definition in_range (f : fs) (fl : FileList.t) : Prop :=
  (0 <= FileList.cursor fl)%Z /\
  forall entries,
    FileList.get_entries f fl = Ok entries ->
    entries <> [] -> (FileList.cursor fl < len entries)%Z.

(** The main pane shows the application's directory with the
    application's hidden flag. *)
Definition in_sync (s : Explorer.t) : Prop :=
  FileList.current_dir (Explorer.file_list s) = Explorer.current_dir s /\
  FileList.show_hidden (Explorer.file_list s) = Explorer.show_hidden s.

(** [s'] differs from [s] at most in what the panes and the bar hold:
    same file system, same calls issued, same directory and flag. *)
Definition same_place (s s' : Explorer.t) : Prop :=
  Explorer.disk s' = Explorer.disk s /\
  Explorer.calls s' = Explorer.calls s /\
  Explorer.current_dir s' = Explorer.current_dir s /\
  Explorer.show_hidden s' = Explorer.show_hidden s.

(** The directory of the main pane can be listed. *)
Definition listable (s : Explorer.t) : Prop :=
  exists entries,
    FileList.get_entries (Explorer.disk s) (Explorer.file_list s) = Ok entries.

(** The invariant of a session. *)
Definition valid (s : Explorer.t) : Prop :=
  in_range (Explorer.disk s) (Explorer.file_list s) /\ in_sync s.

(** The main pane after the two assignments [_sync_all] makes to it. *)
Definition synced_file_list (s : Explorer.t) : FileList.t :=
  FileList.set_show_hidden (Explorer.show_hidden s)
    (FileList.set_current_dir (Explorer.current_dir s) (Explorer.file_list s)).
End NavigationVocabulary.

(** [i] plus the first position of [x] in [l], if it occurs. *)
Fixpoint index_from (x : Path) (i : Z) (l : list Path) : option Z :=
  match l with
  | [] => None
  | e :: rest => if path_eq_dec e x then Some i else index_from x (i + 1) rest
  end.


(* ===================================================================== *)
(** ** Vocabulary of the session properties *)
(* ===================================================================== *)

Section SessionVocabulary.
Context `{Host}.

(** The text [_sync_all] gives the status bar for a listing. *)
Definition status_of (f : fs) (d : Path) (entries : list Path) : StatusBar.t :=
  StatusBar.mk
    (Some {| StatusBar.shown_dir := d;
             StatusBar.count_dirs := len (filter (directory f) entries);
             StatusBar.count_files :=
               (len entries - len (filter (directory f) entries))%Z |}).

(** The three side panes show what the current directory, the hidden flag
    and the cursor say they should. *)
Definition consistent (s : Explorer.t) : Prop :=
  exists entries sel,
    FileList.get_entries (Explorer.disk s) (Explorer.file_list s) = Ok entries /\
    FileList.selected_path (Explorer.disk s) (Explorer.file_list s) = Ok sel /\
    Explorer.parent_pane s
      = ParentPane.mk (Explorer.current_dir s) (Explorer.show_hidden s) /\
    Explorer.preview_pane s = PreviewPane.mk sel (Explorer.show_hidden s) /\
    Explorer.status_bar s
      = status_of (Explorer.disk s) (Explorer.current_dir s) entries.

(** The state [_sync_all] returns when the listing is [entries] and the
    entry under the cursor is [sel]. *)
Definition synced_state (s : Explorer.t) (entries : list Path) (sel : option Path)
  : Explorer.t :=
  Explorer.mk (Explorer.disk s) (Explorer.calls s)
    (Explorer.current_dir s) (Explorer.show_hidden s)
    (ParentPane.mk (Explorer.current_dir s) (Explorer.show_hidden s))
    (synced_file_list s)
    (PreviewPane.mk sel (Explorer.show_hidden s))
    (status_of (Explorer.disk s) (Explorer.current_dir s) entries).
(** The state with the cursor on line [c] and the preview on [sel]. *)
Definition moved (c : Z) (sel : option Path) (s : Explorer.t) : Explorer.t :=
  Explorer.with_preview_pane (PreviewPane.mk sel (Explorer.show_hidden s))
    (Explorer.with_file_list (FileList.with_cursor c (Explorer.file_list s)) s).

(** The cursor of the main pane is on line 0 when the pane lists
    nothing. *)
Definition rests_at_top (s : Explorer.t) : Prop :=
  FileList.get_entries (Explorer.disk s) (Explorer.file_list s) = Ok [] ->
  FileList.cursor (Explorer.file_list s) = 0%Z.

(** [entries[c] if 0 <= c < len(entries) else None], the value of
    [selected_path]. *)
Definition entry_at (entries : list Path) (c : Z) : option Path :=
  if (0 <=? c)%Z && (c <? len entries)%Z
  then nth_error entries (Z.to_nat c) else None.

(** The state [self.current_dir = d] leaves when [d] is another directory
    than the current one and lists as [entries]. *)
Definition arrived (d : Path) (entries : list Path) (s : Explorer.t) : Explorer.t :=
  Explorer.mk (Explorer.disk s) (Explorer.calls s) d (Explorer.show_hidden s)
    (ParentPane.mk d (Explorer.show_hidden s))
    (FileList.mk d 0 (Explorer.show_hidden s))
    (PreviewPane.mk (entry_at entries 0) (Explorer.show_hidden s))
    (status_of (Explorer.disk s) d entries).

(** The keys of [keys] handled one after the other. *)
Fixpoint run_keys (keys : list Explorer.action) : M Explorer.t unit :=
  match keys with
  | [] => ret tt
  | a :: rest => bind (Explorer.run a) (fun _ => run_keys rest)
  end.
End SessionVocabulary.

(** The keys that only navigate. *)
Definition is_navigation (a : Explorer.action) : bool :=
  match a with
  | Explorer.Create _ | Explorer.Rename _ | Explorer.Delete _ => false
  | _ => true
  end.

(* ===================================================================== *)
(** ** The order on names and sort keys *)
(* ===================================================================== *)

Unset Implicit Arguments.

Lemma str_compare_refl (a : str) : str_compare a a = Eq.
Proof.
  induction a as [|x a IH]; simpl; [reflexivity|].
  now rewrite N.compare_refl.
Qed.

Lemma str_compare_eq (a b : str) : str_compare a b = Eq -> a = b.
Proof.
  revert b; induction a as [|x a IH]; intros [|y b]; simpl; try discriminate; auto.
  destruct (N.compare_spec x y); try discriminate.
  intros E; subst; f_equal; auto.
Qed.

Lemma str_compare_antisym (a b : str) :
  str_compare b a = CompOpp (str_compare a b).
Proof.
  revert b; induction a as [|x a IH]; intros [|y b]; simpl; auto.
  rewrite (N.compare_antisym x y).
  destruct (N.compare x y); simpl; auto.
Qed.

Lemma str_compare_lt_trans (a b c : str) :
  str_compare a b = Lt -> str_compare b c = Lt -> str_compare a c = Lt.
Proof.
  revert b c; induction a as [|x a IH]; intros [|y b] [|z c]; simpl;
    try discriminate; auto.
  destruct (N.compare_spec x y), (N.compare_spec y z); try discriminate; subst.
  - rewrite N.compare_refl. apply IH.
  - intros _ _. now rewrite (proj2 (N.compare_lt_iff _ _) H0).
  - intros _ _. now rewrite (proj2 (N.compare_lt_iff _ _) H).
  - intros _ _. rewrite (proj2 (N.compare_lt_iff x z)); [reflexivity | lia].
Qed.

Lemma str_lt_asym (a b : str) : str_lt a b = true -> str_lt b a = false.
Proof.
  unfold str_lt. rewrite (str_compare_antisym a b).
  destruct (str_compare a b); simpl; auto; discriminate.
Qed.

(** [a <= b] and [b <= c] give [a <= c], with [x <= y] read as [not y < x]. *)
Lemma str_le_trans (a b c : str) :
  str_lt b a = false -> str_lt c b = false -> str_lt c a = false.
Proof.
  unfold str_lt. intros Hab Hbc.
  destruct (str_compare c a) eqn:Eca; auto.
  exfalso.
  destruct (str_compare b a) eqn:Eba; try discriminate.
  - apply str_compare_eq in Eba; subst. rewrite Eca in Hbc. discriminate.
  - assert (Hlt : str_compare a b = Lt)
      by (rewrite str_compare_antisym, Eba; reflexivity).
    rewrite (str_compare_lt_trans _ _ _ Eca Hlt) in Hbc. discriminate.
Qed.

Lemma key_lt_asym (k1 k2 : key) : key_lt k1 k2 = true -> key_lt k2 k1 = false.
Proof.
  destruct k1 as [[] s1], k2 as [[] s2]; unfold key_lt; simpl;
    auto using str_lt_asym; discriminate.
Qed.

Lemma key_le_trans (k1 k2 k3 : key) :
  key_lt k2 k1 = false -> key_lt k3 k2 = false -> key_lt k3 k1 = false.
Proof.
  destruct k1 as [[] s1], k2 as [[] s2], k3 as [[] s3]; unfold key_lt; simpl;
    eauto using str_le_trans; discriminate.
Qed.

(* ===================================================================== *)
(** ** [sorted] is a stable sort *)
(* ===================================================================== *)

Section SortedFacts.
Variables (A K : Type) (lt : K -> K -> bool) (keyf : A -> K).
Hypothesis lt_asym : forall a b, lt a b = true -> lt b a = false.
Hypothesis le_trans :
  forall a b c, lt b a = false -> lt c b = false -> lt c a = false.

Lemma insert_perm (x : A) (l : list A) :
  Permutation (x :: l) (insert lt keyf x l).
Proof.
  induction l as [|y l IH]; simpl; [reflexivity|].
  destruct (lt (keyf y) (keyf x)); [|reflexivity].
  rewrite perm_swap. now constructor.
Qed.

Lemma sorted_perm (l : list A) : Permutation l (sorted lt keyf l).
Proof.
  induction l as [|x l IH]; simpl; [constructor|].
  rewrite <- insert_perm. now constructor.
Qed.

Lemma insert_smallest (x : A) (l : list A) :
  Forall (precedes lt keyf x) l -> insert lt keyf x l = x :: l.
Proof.
  destruct l as [|y l]; simpl; [reflexivity|].
  intros HF. inversion_clear HF as [|? ? Hxy _].
  unfold precedes in Hxy. now rewrite Hxy.
Qed.

Lemma insert_sorted (x : A) (l : list A) :
  StronglySorted (precedes lt keyf) l -> StronglySorted (precedes lt keyf) (insert lt keyf x l).
Proof.
  induction l as [|y l IH]; simpl; intros HS.
  - repeat constructor.
  - inversion_clear HS as [|? ? HS' HF].
    destruct (lt (keyf y) (keyf x)) eqn:E.
    + constructor; [auto|].
      rewrite <- insert_perm. constructor; [|assumption].
      unfold precedes. now apply lt_asym.
    + constructor; [now constructor|].
      constructor; [exact E|].
      eapply Forall_impl; [|exact HF].
      intros z Hz. unfold precedes in *. eapply le_trans; eauto.
Qed.

Lemma sorted_sorted (l : list A) : StronglySorted (precedes lt keyf) (sorted lt keyf l).
Proof.
  induction l as [|x l IH]; simpl; [constructor | now apply insert_sorted].
Qed.

Lemma filter_insert (p : A -> bool) (x : A) (l : list A) :
  StronglySorted (precedes lt keyf) l ->
  filter p (insert lt keyf x l) =
  if p x then insert lt keyf x (filter p l) else filter p l.
Proof.
  induction l as [|y l IH]; simpl; intros HS.
  - now destruct (p x).
  - inversion_clear HS as [|? ? HS' HF].
    destruct (lt (keyf y) (keyf x)) eqn:E; simpl.
    + rewrite (IH HS'). destruct (p y), (p x); simpl; try reflexivity.
      now rewrite E.
    + destruct (p x); [|reflexivity].
      symmetry. apply insert_smallest.
      assert (HF' : Forall (precedes lt keyf x) (y :: l)).
      { constructor; [exact E|].
        eapply Forall_impl; [|exact HF].
        intros z Hz. unfold precedes in *. eapply le_trans; eauto. }
      apply Forall_forall. intros z Hz.
      apply (proj1 (Forall_forall _ _) HF').
      change (In z (filter p (y :: l))) in Hz.
      now apply filter_In in Hz.
Qed.

(** Filtering commutes with sorting: since the sort is stable, dropping
    elements before or after it leaves the others in the same order. *)
Lemma filter_sorted (p : A -> bool) (l : list A) :
  filter p (sorted lt keyf l) = sorted lt keyf (filter p l).
Proof.
  induction l as [|x l IH]; simpl; [reflexivity|].
  rewrite filter_insert by apply sorted_sorted.
  rewrite IH. now destruct (p x).
Qed.

(** A list already in order is returned as it is. *)
Lemma sorted_fixed (l : list A) :
  StronglySorted (precedes lt keyf) l -> sorted lt keyf l = l.
Proof.
  induction 1 as [|x l HS IH HF]; simpl; [reflexivity|].
  rewrite IH. now apply insert_smallest.
Qed.

(** Stability: elements no one of which is strictly below another come
    out in the order they went in. *)
Lemma sorted_stable (p : A -> bool) (l : list A) :
  (forall x y, p x = true -> p y = true -> lt (keyf y) (keyf x) = false) ->
  filter p (sorted lt keyf l) = filter p l.
Proof.
  intros Hp. rewrite filter_sorted. apply sorted_fixed.
  induction l as [|x l IH]; simpl; [constructor|].
  destruct (p x) eqn:Ex; [|exact IH].
  constructor; [exact IH|].
  apply Forall_forall. intros y Hy. apply filter_In in Hy.
  unfold precedes. now apply Hp.
Qed.
End SortedFacts.

Section MoreSortedFacts.
Variables (A : Type) (R : A -> A -> Prop).

Lemma StronglySorted_filter (p : A -> bool) (l : list A) :
  StronglySorted R l -> StronglySorted R (filter p l).
Proof.
  induction 1 as [|x l HS IH HF]; simpl; [constructor|].
  destruct (p x); [|assumption].
  constructor; [assumption|].
  apply Forall_forall. intros y Hy. apply filter_In in Hy.
  exact (proj1 (Forall_forall _ _) HF y (proj1 Hy)).
Qed.

Lemma StronglySorted_weaken (R' : A -> A -> Prop) (P : A -> Prop) (l : list A) :
  (forall x y, P x -> P y -> R x y -> R' x y) ->
  Forall P l -> StronglySorted R l -> StronglySorted R' l.
Proof.
  intros HR HP HS. induction HS as [|x l HS IH HF]; [constructor|].
  inversion_clear HP as [|? ? Hx Hl].
  constructor; [auto|].
  apply Forall_forall. intros y Hy.
  apply HR; auto.
  - exact (proj1 (Forall_forall _ _) Hl y Hy).
  - exact (proj1 (Forall_forall _ _) HF y Hy).
Qed.

(** In a sorted list an earlier element is related to every later one. *)
Lemma StronglySorted_nth (l : list A) (i j : nat) (x y : A) :
  StronglySorted R l -> (i < j)%nat ->
  nth_error l i = Some x -> nth_error l j = Some y -> R x y.
Proof.
  intros HS. revert i j. induction HS as [|z l HS IH HF]; intros i j Hij Hi Hj.
  - destruct i; discriminate.
  - destruct j as [|j]; [lia|]. simpl in Hj.
    destruct i as [|i]; simpl in Hi.
    + injection Hi as ->.
      exact (proj1 (Forall_forall _ _) HF y (nth_error_In _ _ Hj)).
    + apply (IH i j); [lia | assumption | assumption].
Qed.

(** A list has at most one sorted arrangement when the order is
    antisymmetric on its elements. *)
Lemma StronglySorted_unique (l l' : list A) :
  (forall x y, In x l -> In y l -> R x y -> R y x -> x = y) ->
  StronglySorted R l -> StronglySorted R l' -> Permutation l l' -> l = l'.
Proof.
  revert l'. induction l as [|x l IH]; intros l' Hanti HS HS' HP.
  - now apply Permutation_nil in HP.
  - destruct l' as [|y l'].
    + apply Permutation_sym, Permutation_nil in HP. discriminate.
    + inversion_clear HS as [|? ? HSl HFx].
      inversion_clear HS' as [|? ? HSl' HFy].
      assert (Exy : x = y).
      { assert (Hx : In x (y :: l')) by (eapply Permutation_in; [exact HP | now left]).
        assert (Hy : In y (x :: l))
          by (eapply Permutation_in; [exact (Permutation_sym HP) | now left]).
        destruct Hx as [->|Hx]; [reflexivity|].
        destruct Hy as [->|Hy]; [reflexivity|].
        apply Hanti; [now left | now right | |].
        - exact (proj1 (Forall_forall _ _) HFx y Hy).
        - exact (proj1 (Forall_forall _ _) HFy x Hx). }
      subst y. f_equal.
      apply IH; auto.
      * intros a b Ha Hb. apply Hanti; now right.
      * eapply Permutation_cons_inv; exact HP.
Qed.
End MoreSortedFacts.

(* ===================================================================== *)
(** ** Sorting by keys that may raise *)
(* ===================================================================== *)

Section KeyedFacts.
Context `{Host}.

Lemma entry_key_tested (f : fs) (p : Path) :
  tested f p -> entry_key f p = Ok (key_of f p).
Proof.
  intros [d E]. unfold entry_key, key_of, directory. rewrite E. simpl.
  now destruct d.
Qed.

Lemma entry_key_ok (f : fs) (p : Path) (k : key) :
  entry_key f p = Ok k -> tested f p.
Proof.
  unfold entry_key, tested. destruct (is_dir f p) as [d|e]; [eauto | discriminate].
Qed.

Lemma entry_key_raise (f : fs) (p : Path) (e : exn) :
  is_dir f p = Raise e -> entry_key f p = Raise e.
Proof. unfold entry_key. now intros ->. Qed.

Lemma keyed_tested (f : fs) (raw : list Path) :
  Forall (tested f) raw ->
  keyed f raw = Ok (map (fun p => (key_of f p, p)) raw).
Proof.
  induction 1 as [|p raw Hp _ IH]; simpl; [reflexivity|].
  now rewrite (entry_key_tested f p Hp), IH.
Qed.

Lemma keyed_ok (f : fs) (raw : list Path) (ks : list (key * Path)) :
  keyed f raw = Ok ks -> Forall (tested f) raw.
Proof.
  revert ks. induction raw as [|p raw IH]; simpl; intros ks; [constructor|].
  destruct (entry_key f p) as [k|e] eqn:Ek; [|discriminate]. simpl.
  destruct (keyed f raw) as [ks'|e]; [|discriminate]. intros _.
  constructor; [exact (entry_key_ok _ _ _ Ek) | exact (IH _ eq_refl)].
Qed.

(** The first key that raises ends the call. *)
Lemma keyed_raise (f : fs) (pre post : list Path) (p : Path) (e : exn) :
  Forall (tested f) pre -> is_dir f p = Raise e ->
  keyed f (pre ++ p :: post) = Raise e.
Proof.
  induction 1 as [|q pre Hq _ IH]; simpl; intros E.
  - now rewrite (entry_key_raise _ _ _ E).
  - now rewrite (entry_key_tested f q Hq), (IH E).
Qed.

(** Either every key is computed, or there is a first one that raises. *)
Lemma keyed_cases (f : fs) (raw : list Path) :
  Forall (tested f) raw \/
  exists pre p post e,
    raw = pre ++ p :: post /\ Forall (tested f) pre /\ is_dir f p = Raise e.
Proof.
  induction raw as [|q raw [IH|(pre & p & post & e & -> & Hpre & E)]].
  - left. constructor.
  - destruct (is_dir f q) as [d|e] eqn:Eq.
    + left. constructor; [now exists d | exact IH].
    + right. exists [], q, raw, e. now repeat split.
  - destruct (is_dir f q) as [d|e'] eqn:Eq.
    + right. exists (q :: pre), p, post, e.
      split; [reflexivity|]. split; [|exact E].
      constructor; [now exists d | exact Hpre].
    + right. exists [], q, (pre ++ p :: post), e'. now repeat split.
Qed.

(** Sorting the pairs of key and element by the key is sorting the
    elements by the key function. *)
Lemma insert_decorated (A K : Type) (lt : K -> K -> bool) (k : A -> K)
      (x : A) (l : list A) :
  insert lt fst (k x, x) (map (fun a => (k a, a)) l)
  = map (fun a => (k a, a)) (insert lt k x l).
Proof.
  induction l as [|y l IH]; simpl; [reflexivity|].
  destruct (lt (k y) (k x)); simpl; [now rewrite IH | reflexivity].
Qed.

Lemma sorted_decorated (A K : Type) (lt : K -> K -> bool) (k : A -> K)
      (l : list A) :
  sorted lt fst (map (fun a => (k a, a)) l)
  = map (fun a => (k a, a)) (sorted lt k l).
Proof.
  induction l as [|x l IH]; simpl; [reflexivity|].
  now rewrite IH, insert_decorated.
Qed.

Lemma sorted_entries_tested (f : fs) (raw : list Path) :
  Forall (tested f) raw ->
  sorted_entries f raw = Ok (sorted key_lt (key_of f) raw).
Proof.
  intros HF. unfold sorted_entries. rewrite (keyed_tested f raw HF). simpl.
  rewrite sorted_decorated, map_map. simpl. now rewrite map_id.
Qed.

Lemma sorted_entries_ok (f : fs) (raw entries : list Path) :
  sorted_entries f raw = Ok entries ->
  Forall (tested f) raw /\ entries = sorted key_lt (key_of f) raw.
Proof.
  intros E.
  assert (HF : Forall (tested f) raw).
  { unfold sorted_entries in E.
    destruct (keyed f raw) as [ks|e] eqn:Ek; [|discriminate].
    exact (keyed_ok _ _ _ Ek). }
  split; [exact HF|].
  rewrite (sorted_entries_tested f raw HF) in E. now injection E as <-.
Qed.

Lemma sorted_entries_raise (f : fs) (pre post : list Path) (p : Path) (e : exn) :
  Forall (tested f) pre -> is_dir f p = Raise e ->
  sorted_entries f (pre ++ p :: post) = Raise e.
Proof.
  intros HF E. unfold sorted_entries. now rewrite (keyed_raise f pre post p e HF E).
Qed.
End KeyedFacts.

(* ===================================================================== *)
(** ** The listing of the main pane *)
(* ===================================================================== *)

Section ListingFacts.
Context `{Host}.

Lemma listing_sorted (f : fs) (raw : list Path) :
  StronglySorted (precedes key_lt (key_of f)) (sorted key_lt (key_of f) raw).
Proof. apply sorted_sorted; [exact key_lt_asym | exact key_le_trans]. Qed.

(** What [sorted(p.iterdir(), key=...)] returns. *)
Lemma listing_ok (f : fs) (p : Path) (entries : list Path) :
  listing f p = Ok entries ->
  exists raw,
    iterdir f p = Ok raw /\ Forall (tested f) raw /\
    entries = sorted key_lt (key_of f) raw.
Proof.
  unfold listing. destruct (iterdir f p) as [raw|e]; [|discriminate]. simpl.
  intros E. apply sorted_entries_ok in E. exists raw. tauto.
Qed.

Lemma listing_tested (f : fs) (p : Path) (raw : list Path) :
  iterdir f p = Ok raw -> Forall (tested f) raw ->
  listing f p = Ok (sorted key_lt (key_of f) raw).
Proof.
  intros E HF. unfold listing. rewrite E. simpl. now apply sorted_entries_tested.
Qed.

(** [get_entries] is its [try] block followed by the filter. *)
Lemma get_entries_unfold (f : fs) (self : FileList.t) :
  FileList.get_entries f self
  = result_map (fun entries =>
                  if FileList.show_hidden self then entries else visible entries)
               (or_empty (listing f (FileList.current_dir self))).
Proof.
  unfold FileList.get_entries.
  destruct (listing f (FileList.current_dir self)) as [entries|[]]; simpl;
    try reflexivity.
  now destruct (FileList.show_hidden self).
Qed.

(** The listing is empty, or the sorted enumeration with or without its
    hidden names, [is_dir()] having returned on every name enumerated. *)
Lemma get_entries_ok (f : fs) (self : FileList.t) (entries : list Path) :
  FileList.get_entries f self = Ok entries ->
  entries = [] \/
  exists raw,
    iterdir f (FileList.current_dir self) = Ok raw /\ Forall (tested f) raw /\
    entries = (if FileList.show_hidden self
               then sorted key_lt (key_of f) raw
               else visible (sorted key_lt (key_of f) raw)).
Proof.
  unfold FileList.get_entries.
  destruct (listing f (FileList.current_dir self)) as [l|e] eqn:L.
  - intros E; injection E as <-. right.
    destruct (listing_ok _ _ _ L) as (raw & Er & HF & ->). exists raw. auto.
  - destruct e; try discriminate. intros E; injection E as <-. now left.
Qed.

Lemma get_entries_precedes (f : fs) (self : FileList.t) (entries : list Path) :
  FileList.get_entries f self = Ok entries ->
  StronglySorted (precedes key_lt (key_of f)) entries.
Proof.
  intros E. destruct (get_entries_ok _ _ _ E) as [->|(raw & _ & _ & ->)];
    [constructor|].
  destruct (FileList.show_hidden self).
  - apply listing_sorted.
  - apply StronglySorted_filter, listing_sorted.
Qed.

(** [is_dir()] returns on every entry of a listing. *)
Lemma get_entries_tested (f : fs) (self : FileList.t) (entries : list Path) :
  FileList.get_entries f self = Ok entries -> Forall (tested f) entries.
Proof.
  intros E. destruct (get_entries_ok _ _ _ E) as [->|(raw & _ & HF & ->)];
    [constructor|].
  assert (HS : Forall (tested f) (sorted key_lt (key_of f) raw)).
  { apply Forall_forall. intros e He.
    apply (Permutation_in _ (Permutation_sym (sorted_perm _ _ _ _ _))) in He.
    exact (proj1 (Forall_forall _ _) HF e He). }
  destruct (FileList.show_hidden self); [exact HS|].
  apply Forall_forall. intros e He. unfold visible in He.
  apply filter_In in He. exact (proj1 (Forall_forall _ _) HS e (proj1 He)).
Qed.

Lemma tested_kind (f : fs) (p : Path) :
  tested f p -> is_dir f p = Ok (directory f p) /\ is_file f p = negb (directory f p).
Proof.
  intros [d E]. unfold directory, is_file. rewrite E. now destruct d.
Qed.

(** In a list sorted by the key, no file stands before a directory. *)
Lemma dirs_first (f : fs) (l : list Path) :
  Forall (tested f) l ->
  StronglySorted (precedes key_lt (key_of f)) l ->
  l = filter (directory f) l ++ filter (is_file f) l.
Proof.
  intros HT. induction 1 as [|x l HS IH HF]; simpl; [reflexivity|].
  inversion_clear HT as [|? ? Hx Hl].
  destruct (tested_kind f x Hx) as [_ Ef]. rewrite Ef.
  destruct (directory f x) eqn:Ex; simpl.
  - now rewrite <- (IH Hl).
  - assert (Hfiles : forall y, In y l -> directory f y = false).
    { intros y Hy. pose proof (proj1 (Forall_forall _ _) HF y Hy) as Hxy.
      unfold precedes, key_of, key_lt in Hxy; simpl in Hxy.
      rewrite Ex in Hxy; simpl in Hxy.
      destruct (directory f y); [discriminate | reflexivity]. }
    assert (Hd : filter (directory f) l = []).
    { clear -Hfiles. induction l as [|y l IHl]; simpl; [reflexivity|].
      rewrite (Hfiles y (or_introl eq_refl)). apply IHl.
      intros z Hz. apply Hfiles. now right. }
    assert (Hn : filter (is_file f) l = l).
    { clear -Hfiles Hl. induction l as [|y l IHl]; simpl; [reflexivity|].
      inversion_clear Hl as [|? ? Hy Hl'].
      rewrite (proj2 (tested_kind f y Hy)), (Hfiles y (or_introl eq_refl)). simpl.
      f_equal. apply IHl; [exact Hl'|]. intros z Hz. apply Hfiles. now right. }
    now rewrite Hd, Hn.
Qed.

(** Among entries of one kind the key order is the order of the
    lowercased names. *)
Lemma same_kind_ascending (f : fs) (b : bool) (l : list Path) :
  Forall (fun e => directory f e = b) l ->
  StronglySorted (precedes key_lt (key_of f)) l ->
  StronglySorted name_ascending l.
Proof.
  apply StronglySorted_weaken.
  intros x y Hx Hy. unfold precedes, key_of, key_lt, name_ascending; simpl.
  rewrite Hx, Hy. now destruct b.
Qed.

Lemma filter_all (p : Path -> bool) (l : list Path) :
  Forall (fun e => p e = true) (filter p l).
Proof. apply Forall_forall. intros e He. now apply filter_In in He. Qed.

(** C2. For every directory and hidden flag, the listing [get_entries]
    returns has every directory entry before every non-directory entry
    (a directory entry being one for which [is_dir()] holds, the test of
    the sort key), and inside each of the two groups the entries are in
    ascending order of their lowercased names. *)
Theorem get_entries_sorted (f : fs) (self : FileList.t) (entries : list Path) :
  FileList.get_entries f self = Ok entries ->
  (forall i j d e,
     nth_error entries i = Some d -> is_dir f d = Ok true ->
     nth_error entries j = Some e -> is_dir f e = Ok false ->
     (i < j)%nat) /\
  entries = filter (directory f) entries ++ filter (is_file f) entries /\
  StronglySorted name_ascending (filter (directory f) entries) /\
  StronglySorted name_ascending (filter (is_file f) entries).
Proof.
  intros E. pose proof (get_entries_tested _ _ _ E) as HT.
  apply get_entries_precedes in E.
  split.
  { intros i j d e Hi Hd Hj He.
    destruct (Nat.lt_trichotomy i j) as [Hlt|[Heq|Hgt]]; [exact Hlt| |].
    - subst j. rewrite Hi in Hj. injection Hj as ->. congruence.
    - pose proof (StronglySorted_nth _ _ _ _ _ _ _ E Hgt Hj Hi) as Hp.
      unfold precedes, key_of, directory, key_lt in Hp; simpl in Hp.
      rewrite Hd, He in Hp. discriminate. }
  split; [now apply dirs_first|].
  split.
  - apply (same_kind_ascending f true); [apply filter_all|].
    now apply StronglySorted_filter.
  - apply (same_kind_ascending f false).
    + eapply Forall_impl; [|apply (filter_all (is_file f))].
      unfold is_file, directory. intros e He.
      now destruct (is_dir f e) as [[]|].
    + now apply StronglySorted_filter.
Qed.

Lemma visible_app (l1 l2 : list Path) :
  visible (l1 ++ l2) = visible l1 ++ visible l2.
Proof. unfold visible. apply filter_app. Qed.

Lemma Forall_visible (P : Path -> Prop) (l : list Path) :
  Forall (fun p => is_hidden p = false -> P p) l -> Forall P (visible l).
Proof.
  intros HF. apply Forall_forall. intros p Hp. unfold visible in Hp.
  apply filter_In in Hp. destruct Hp as [Hp Hv].
  apply (proj1 (Forall_forall _ _) HF p Hp). now destruct (is_hidden p).
Qed.

(** C3, as the code has it.  The listing without hidden entries is the
    listing with them, minus the names that begin with a dot and
    otherwise in the same order (a failure is the same failure in both).
    Filtering before sorting, as the specification has it, gives what the
    code computes by sorting before filtering when hidden entries are
    listed, and when [is_dir()] returns on every hidden entry that is
    enumerated. *)
Theorem hidden_filter_commutes (f : fs) (d : Path) (c : Z) :
  FileList.get_entries f (FileList.mk d c false) =
    result_map visible (FileList.get_entries f (FileList.mk d c true)) /\
  forall raw h,
    iterdir f d = Ok raw ->
    h = true \/ Forall (fun p => is_hidden p = true -> tested f p) raw ->
    FileList.get_entries f (FileList.mk d c h)
    = or_empty (listing_filter_first f raw h).
Proof.
  split.
  - unfold FileList.get_entries; simpl.
    now destruct (listing f d) as [entries|[]].
  - intros raw h Er Hh. rewrite get_entries_unfold. simpl.
    unfold listing, listing_filter_first. rewrite Er. simpl.
    destruct h.
    { now destruct (sorted_entries f raw) as [entries|[]]. }
    destruct Hh as [Hh|Hh]; [discriminate|].
    destruct (keyed_cases f raw) as [HF|(pre & p & post & e & -> & Hpre & E)].
    + rewrite (sorted_entries_tested f raw HF).
      rewrite (sorted_entries_tested f (visible raw));
        [|apply Forall_visible; eapply Forall_impl; [|exact HF]; auto].
      simpl. unfold visible. f_equal.
      apply filter_sorted; [exact key_lt_asym | exact key_le_trans].
    + rewrite (sorted_entries_raise f pre post p e Hpre E).
      assert (Hp : is_hidden p = false).
      { destruct (is_hidden p) eqn:Hp; [|reflexivity].
        apply Forall_app in Hh. destruct Hh as [_ Hh].
        inversion_clear Hh as [|? ? Hpt _].
        destruct (Hpt Hp) as [b Eb]. congruence. }
      rewrite visible_app. unfold visible at 2. simpl. rewrite Hp. simpl.
      rewrite (sorted_entries_raise f (visible pre) _ p e);
        [|apply Forall_visible; eapply Forall_impl; [|exact Hpre]; auto | exact E].
      now destruct e.
Qed.
End ListingFacts.

(** The listing of [/tmp/x] computed on the scenario directory. *)
Lemma hidden_filter_commutes_witness :
  iterdir (H := disk_host) scenario tmp_x
    = Ok [tmp_x ++ [lit "b.txt"]; tmp_x ++ [lit "A"]; tmp_x ++ [lit ".hidden"]] /\
  FileList.get_entries (H := disk_host) scenario (FileList.mk tmp_x 0 false)
    = Ok [tmp_x ++ [lit "A"]; tmp_x ++ [lit "b.txt"]].
Proof.
  split; [vm_compute; reflexivity|].
  rewrite (proj2 (hidden_filter_commutes (H := disk_host) scenario tmp_x 0)
             [tmp_x ++ [lit "b.txt"]; tmp_x ++ [lit "A"]; tmp_x ++ [lit ".hidden"]]
             false).
  - vm_compute. reflexivity.
  - vm_compute. reflexivity.
  - right. repeat constructor; intros _; eexists; vm_compute; reflexivity.
Defined.

(** C3, as the specification words it.  In [/tmp/x] the hidden link [.l]
    leads into a directory that may not be searched, so that [is_dir()]
    raises [PermissionError] on it.  The code computes that key with the
    others and lists nothing; with the hidden names dropped before the
    sort the key is never computed, and [A] and [b.txt] are listed. *)
Lemma hidden_filter_counterexample :
  iterdir (H := disk_host) vault_tree tmp_x
    = Ok [tmp_x ++ [lit "b.txt"]; tmp_x ++ [lit "A"]; tmp_x ++ [lit ".l"]] /\
  is_dir (Host := disk_host) vault_tree (tmp_x ++ [lit ".l"]) = Raise PermissionError /\
  FileList.get_entries (H := disk_host) vault_tree (FileList.mk tmp_x 0 false)
    = Ok [] /\
  or_empty (listing_filter_first (H := disk_host) vault_tree
              [tmp_x ++ [lit "b.txt"]; tmp_x ++ [lit "A"]; tmp_x ++ [lit ".l"]]
              false)
    = Ok [tmp_x ++ [lit "A"]; tmp_x ++ [lit "b.txt"]].
Proof.
  repeat split; vm_compute; reflexivity.
Qed.

Lemma get_entries_sorted_witness :
  let f := scenario in
  let l := [tmp_x ++ [lit "A"]; tmp_x ++ [lit ".hidden"]; tmp_x ++ [lit "b.txt"]] in
  FileList.get_entries (H := disk_host) f (FileList.mk tmp_x 0 true) = Ok l /\
  l = filter (directory (H := disk_host) f) l ++ filter (is_file (H := disk_host) f) l.
Proof.
  split; [vm_compute; reflexivity|].
  refine (proj1 (proj2 (get_entries_sorted (H := disk_host) scenario
                         (FileList.mk tmp_x 0 true) _ _))).
  vm_compute. reflexivity.
Defined.

Section Scenario.
Context `{Host}.

Lemma name_child (d : Path) (n : str) : name (d ++ [n]) = n.
Proof. unfold name. apply last_last. Qed.

Lemma key_of_child (f : fs) (d : Path) (n : str) :
  key_of f (d ++ [n]) = (negb (directory f (d ++ [n])), lower n).
Proof. unfold key_of. now rewrite name_child. Qed.

(** C9, as the code has it.  A directory that holds exactly [b.txt], [A]
    and [.hidden], in whatever order the system enumerates them, with [A]
    a directory and the other two files, is listed as [A], [.hidden],
    [b.txt] when hidden entries are shown (the dot sorts below every
    letter), and as [A], [b.txt] when they are not. *)
Theorem scenario_listing (f : fs) (d : Path) (c : Z) (names : list str) :
  listdir f d = Ok names ->
  Permutation names [lit "b.txt"; lit "A"; lit ".hidden"] ->
  is_dir f (d ++ [lit "A"]) = Ok true ->
  is_dir f (d ++ [lit "b.txt"]) = Ok false ->
  is_dir f (d ++ [lit ".hidden"]) = Ok false ->
  lower (lit "A") = lit "a" ->
  lower (lit "b.txt") = lit "b.txt" ->
  lower (lit ".hidden") = lit ".hidden" ->
  FileList.get_entries f (FileList.mk d c true)
    = Ok [d ++ [lit "A"]; d ++ [lit ".hidden"]; d ++ [lit "b.txt"]] /\
  FileList.get_entries f (FileList.mk d c false)
    = Ok [d ++ [lit "A"]; d ++ [lit "b.txt"]].
Proof.
  intros Hls Hperm HA Hb Hh LA Lb Lh.
  assert (DA : directory f (d ++ [lit "A"]) = true)
    by (unfold directory; now rewrite HA).
  assert (Db : directory f (d ++ [lit "b.txt"]) = false)
    by (unfold directory; now rewrite Hb).
  assert (Dh : directory f (d ++ [lit ".hidden"]) = false)
    by (unfold directory; now rewrite Hh).
  assert (Hsorted :
    sorted key_lt (key_of f) (map (fun n => d ++ [n]) names)
    = [d ++ [lit "A"]; d ++ [lit ".hidden"]; d ++ [lit "b.txt"]]).
  { symmetry.
    apply (StronglySorted_unique _ (precedes key_lt (key_of f))).
    - intros x y Hx Hy. unfold precedes.
      simpl in Hx, Hy.
      destruct Hx as [<-|[<-|[<-|[]]]]; destruct Hy as [<-|[<-|[<-|[]]]];
        rewrite ?key_of_child, ?DA, ?Db, ?Dh, ?LA, ?Lb, ?Lh;
        try reflexivity; vm_compute; discriminate.
    - repeat constructor; unfold precedes;
        rewrite ?key_of_child, ?DA, ?Db, ?Dh, ?LA, ?Lb, ?Lh; reflexivity.
    - apply listing_sorted.
    - rewrite <- sorted_perm.
      rewrite Hperm. simpl.
      rewrite (perm_swap (d ++ [lit "A"]) (d ++ [lit "b.txt"])).
      apply perm_skip, perm_swap. }
  assert (HT : Forall (tested f) (map (fun n => d ++ [n]) names)).
  { apply Forall_forall. intros p Hp. apply in_map_iff in Hp.
    destruct Hp as (n & <- & Hn). apply (Permutation_in _ Hperm) in Hn.
    destruct Hn as [<-|[<-|[<-|[]]]]; eexists; eassumption. }
  assert (L : listing f d
              = Ok [d ++ [lit "A"]; d ++ [lit ".hidden"]; d ++ [lit "b.txt"]]).
  { rewrite <- Hsorted. apply listing_tested; [|exact HT].
    unfold iterdir. now rewrite Hls. }
  unfold FileList.get_entries; simpl.
  rewrite L. split; [reflexivity|].
  unfold visible, is_hidden; simpl. now rewrite !name_child.
Qed.
End Scenario.

Lemma scenario_listing_witness :
  FileList.get_entries (H := disk_host) scenario (FileList.mk tmp_x 0 true)
    = Ok [tmp_x ++ [lit "A"]; tmp_x ++ [lit ".hidden"]; tmp_x ++ [lit "b.txt"]] /\
  FileList.get_entries (H := disk_host) scenario (FileList.mk tmp_x 0 false)
    = Ok [tmp_x ++ [lit "A"]; tmp_x ++ [lit "b.txt"]].
Proof.
  apply (scenario_listing (H := disk_host) scenario tmp_x 0
           [lit "b.txt"; lit "A"; lit ".hidden"]);
    solve [vm_compute; reflexivity | apply Permutation_refl].
Defined.

(** C9, as the specification words it: on the scenario directory the
    listing with hidden entries shown is not [A], [b.txt], [.hidden]. *)
Lemma scenario_listing_counterexample :
  listdir (Host := disk_host) scenario tmp_x
    = Ok [lit "b.txt"; lit "A"; lit ".hidden"] /\
  is_dir (Host := disk_host) scenario (tmp_x ++ [lit "A"]) = Ok true /\
  is_dir (Host := disk_host) scenario (tmp_x ++ [lit ".hidden"]) = Ok false /\
  FileList.get_entries (H := disk_host) scenario (FileList.mk tmp_x 0 true)
    <> Ok [tmp_x ++ [lit "A"]; tmp_x ++ [lit "b.txt"]; tmp_x ++ [lit ".hidden"]].
Proof.
  repeat split; vm_compute; discriminate.
Qed.

Section CountFacts.
Context `{Host}.

Lemma traverse_tested (f : fs) (entries : list Path) :
  Forall (tested f) entries ->
  traverse (is_dir f) entries = Ok (map (directory f) entries).
Proof.
  induction 1 as [|p entries Hp _ IH]; simpl; [reflexivity|].
  rewrite (proj1 (tested_kind f p Hp)), IH. reflexivity.
Qed.

Lemma filter_id_map (A : Type) (p : A -> bool) (l : list A) :
  length (filter id (map p l)) = length (filter p l).
Proof.
  induction l as [|x l IH]; simpl; [reflexivity|].
  unfold id at 1. destruct (p x); simpl; now rewrite IH.
Qed.

Lemma dirs_among_tested (f : fs) (entries : list Path) :
  Forall (tested f) entries ->
  Explorer.dirs_among f entries = Ok (len (filter (directory f) entries)).
Proof.
  intros HF. unfold Explorer.dirs_among. rewrite (traverse_tested f entries HF).
  simpl. unfold len. now rewrite filter_id_map.
Qed.

(** The directories of a listing can be counted. *)
Lemma dirs_among_entries (f : fs) (fl : FileList.t) (entries : list Path) :
  FileList.get_entries f fl = Ok entries ->
  Explorer.dirs_among f entries = Ok (len (filter (directory f) entries)).
Proof. intros E. apply dirs_among_tested. exact (get_entries_tested _ _ _ E). Qed.

(** [is_dir()] returns on the entry under the cursor. *)
Lemma selected_tested (f : fs) (fl : FileList.t) (sel : Path) :
  FileList.selected_path f fl = Ok (Some sel) -> tested f sel.
Proof.
  unfold FileList.selected_path.
  destruct (FileList.get_entries f fl) as [entries|e] eqn:G; [|discriminate].
  destruct (_ && _); [|discriminate]. intros E; injection E as E.
  apply nth_error_In in E.
  exact (proj1 (Forall_forall _ _) (get_entries_tested _ _ _ G) sel E).
Qed.
End CountFacts.
(* ===================================================================== *)
(** ** Running the monad *)
(* ===================================================================== *)

Section MonadFacts.
Variables (S A B : Type).

Lemma bind_ok (c : M S A) (k : A -> M S B) (s s' : S) (b : B) :
  bind c k s = (s', Ok b) ->
  exists s1 a, c s = (s1, Ok a) /\ k a s1 = (s', Ok b).
Proof.
  unfold bind. destruct (c s) as [s1 [a|e]]; [eauto | discriminate].
Qed.

Lemma bind_run (c : M S A) (k : A -> M S B) (s s1 : S) (a : A) :
  c s = (s1, Ok a) -> bind c k s = k a s1.
Proof. unfold bind. now intros ->. Qed.

Lemma bind_raise (c : M S A) (k : A -> M S B) (s s1 : S) (e : exn) :
  c s = (s1, Raise e) -> bind c k s = (s1, Raise e).
Proof. unfold bind. now intros ->. Qed.

Lemma bind_inv (c : M S A) (k : A -> M S B) (s s' : S) (r : result B) :
  bind c k s = (s', r) ->
  (exists s1 a, c s = (s1, Ok a) /\ k a s1 = (s', r)) \/
  (exists e, c s = (s', Raise e) /\ r = Raise e).
Proof.
  unfold bind. destruct (c s) as [s1 [a|e]]; [eauto|].
  intros E; injection E as <- <-. eauto.
Qed.

(** A run is known once its outcome is. *)
Lemma run_outcome (c : M S A) (s : S) (r : result A) :
  snd (c s) = r -> c s = (fst (c s), r).
Proof. destruct (c s); simpl. now intros ->. Qed.

Lemma bind_modify (g : S -> S) (k : unit -> M S B) (s : S) :
  bind (modify g) k s = k tt (g s).
Proof. reflexivity. Qed.

Lemma bind_get (k : S -> M S B) (s : S) : bind get k s = k s s.
Proof. reflexivity. Qed.

Lemma bind_lift (g : S -> result A) (k : A -> M S B) (s : S) :
  bind (lift g) k s =
  match g s with Ok a => k a s | Raise e => (s, Raise e) end.
Proof. unfold bind, lift. now destruct (g s). Qed.
End MonadFacts.

(* ===================================================================== *)
(** ** What the helpers of [Explorer] leave untouched *)
(* ===================================================================== *)

Section Frames.
Context `{Host}.
Import Explorer.

Lemma same_place_refl (s : t) : same_place s s.
Proof. now repeat split. Qed.

Lemma same_place_trans (s1 s2 s3 : t) :
  same_place s1 s2 -> same_place s2 s3 -> same_place s1 s3.
Proof. unfold same_place. intuition congruence. Qed.

Lemma get_entries_with_cursor (f : fs) (c : Z) (fl : FileList.t) :
  FileList.get_entries f (FileList.with_cursor c fl) = FileList.get_entries f fl.
Proof. reflexivity. Qed.

(** [selected_path] returns exactly when [get_entries] does. *)
Lemma selected_path_ok (f : fs) (fl : FileList.t) (entries : list Path) :
  FileList.get_entries f fl = Ok entries ->
  exists sel, FileList.selected_path f fl = Ok sel.
Proof.
  unfold FileList.selected_path. intros ->.
  destruct (_ && _); eauto.
Qed.

Lemma update_preview_frame (s s' : t) (r : result unit) :
  _update_preview s = (s', r) ->
  same_place s s' /\ file_list s' = file_list s.
Proof.
  unfold _update_preview, selected_path.
  rewrite bind_modify, bind_lift; simpl.
  destruct (FileList.selected_path (disk s) (file_list s));
    intros E; injection E as <- <-; now repeat split.
Qed.

Lemma update_preview_ok (s : t) (entries : list Path) :
  FileList.get_entries (disk s) (file_list s) = Ok entries ->
  exists s', _update_preview s = (s', Ok tt).
Proof.
  intros E. destruct (selected_path_ok _ _ _ E) as [sel Hsel].
  unfold _update_preview, selected_path.
  rewrite bind_modify, bind_lift; simpl.
  rewrite Hsel. unfold modify. eauto.
Qed.

(** The state [_sync_all] hands to [_update_preview]. *)
Lemma sync_all_unfold (s : t) :
  exists s1,
    same_place s s1 /\ file_list s1 = synced_file_list s /\
    _sync_all s =
      bind _update_preview
        (fun _ =>
           bind get_entries
             (fun entries =>
                bind get
                  (fun s2 =>
                     bind (lift (fun s => dirs_among (disk s) entries))
                       (fun count_dirs =>
                          modify
                            (with_status_bar
                               (StatusBar.mk
                                  (Some
                                     {| StatusBar.shown_dir := current_dir s2;
                                        StatusBar.count_dirs := count_dirs;
                                        StatusBar.count_files :=
                                          (len entries - count_dirs)%Z
                                     |}))))))) s1.
Proof.
  unfold _sync_all. rewrite !bind_modify.
  eexists. split; [|split; [|reflexivity]]; [now repeat split | reflexivity].
Qed.

Lemma sync_all_frame (s s' : t) (r : result unit) :
  _sync_all s = (s', r) ->
  same_place s s' /\ file_list s' = synced_file_list s.
Proof.
  destruct (sync_all_unfold s) as (s1 & P1 & F1 & ->).
  intros E. apply bind_inv in E.
  destruct E as [(s2 & [] & E1 & E2) | (e & E1 & ->)];
    apply update_preview_frame in E1; destruct E1 as [P2 F2].
  - unfold get_entries in E2. rewrite bind_lift in E2.
    destruct (FileList.get_entries (disk s2) (file_list s2)) as [entries|e].
    + rewrite bind_get, bind_lift in E2.
      destruct (dirs_among (disk s2) entries); injection E2 as <- <-; simpl;
        unfold same_place in *; simpl; intuition congruence.
    + injection E2 as <- <-. unfold same_place in *; intuition congruence.
  - unfold same_place in *; intuition congruence.
Qed.

Lemma sync_all_ok (s : t) (entries : list Path) :
  FileList.get_entries (disk s) (synced_file_list s) = Ok entries ->
  exists s', _sync_all s = (s', Ok tt).
Proof.
  intros E.
  destruct (sync_all_unfold s) as (s1 & P1 & F1 & ->).
  destruct P1 as (D1 & _).
  destruct (update_preview_ok s1 entries) as [s2 E2]; [now rewrite D1, F1|].
  rewrite (bind_run _ _ _ _ _ _ _ _ E2).
  apply update_preview_frame in E2. destruct E2 as [(D2 & _) F2].
  unfold get_entries. rewrite bind_lift, D2, F2, D1, F1, E, bind_get.
  rewrite bind_lift, D2, D1, (dirs_among_entries _ _ _ E).
  unfold modify. eauto.
Qed.
End Frames.

(* ===================================================================== *)
(** ** The cursor stays inside the listing *)
(* ===================================================================== *)

Section CursorFacts.
Context `{Host}.
Import Explorer.

Lemma len_pos (A : Type) (l : list A) : l <> [] -> (0 < len l)%Z.
Proof. destruct l; [congruence|]. unfold len; simpl; lia. Qed.

Lemma in_range_reset (f : fs) (fl : FileList.t) :
  in_range f (FileList.with_cursor 0 fl).
Proof.
  split; simpl; [lia|]. intros entries _ Hne. now apply len_pos.
Qed.

Lemma in_range_set_current_dir (f : fs) (d : Path) (fl : FileList.t) :
  in_range f fl -> in_range f (FileList.set_current_dir d fl).
Proof.
  unfold FileList.set_current_dir. destruct (path_eq_dec _ _); [auto|].
  intros _. apply in_range_reset.
Qed.

Lemma in_range_set_show_hidden (f : fs) (h : bool) (fl : FileList.t) :
  in_range f fl -> in_range f (FileList.set_show_hidden h fl).
Proof.
  unfold FileList.set_show_hidden. destruct (Bool.eqb _ _); [auto|].
  intros _. apply in_range_reset.
Qed.

Lemma in_range_synced (s : t) :
  in_range (disk s) (file_list s) -> in_range (disk s) (synced_file_list s).
Proof.
  intros HI. now apply in_range_set_show_hidden, in_range_set_current_dir.
Qed.

Lemma synced_cursor_nonneg (s : t) :
  (0 <= FileList.cursor (file_list s))%Z ->
  (0 <= FileList.cursor (synced_file_list s))%Z.
Proof.
  unfold synced_file_list, FileList.set_show_hidden, FileList.set_current_dir.
  destruct (path_eq_dec _ _), (Bool.eqb _ _); simpl; lia.
Qed.

Lemma synced_fields (s : t) :
  FileList.current_dir (synced_file_list s) = current_dir s /\
  FileList.show_hidden (synced_file_list s) = show_hidden s.
Proof.
  unfold synced_file_list, FileList.set_show_hidden, FileList.set_current_dir.
  destruct (path_eq_dec _ _) as [E|E]; simpl;
    destruct (Bool.eqb _ _) eqn:B; simpl; auto using eqb_prop.
Qed.

Lemma sync_all_in_sync (s s' : t) (r : result unit) :
  _sync_all s = (s', r) -> in_sync s'.
Proof.
  intros E. apply sync_all_frame in E. destruct E as [(_ & _ & Ed & Eh) F].
  unfold in_sync. rewrite F, Ed, Eh. apply synced_fields.
Qed.

Lemma sync_all_in_range (s s' : t) (r : result unit) :
  in_range (disk s) (file_list s) ->
  _sync_all s = (s', r) -> in_range (disk s') (file_list s').
Proof.
  intros HI E. apply sync_all_frame in E. destruct E as [(Ed & _) F].
  rewrite F, Ed. now apply in_range_synced.
Qed.

(** [fl.cursor = c] followed by [self._update_preview()]. *)
Lemma set_cursor_then_update (c : Z) (s s' : t) (r : result unit) :
  bind (set_cursor c) (fun _ => _update_preview) s = (s', r) ->
  same_place s s' /\ file_list s' = FileList.with_cursor c (file_list s).
Proof.
  unfold set_cursor. rewrite bind_modify. intros E.
  apply update_preview_frame in E. destruct E as [P F].
  split; [|exact F].
  unfold same_place in *; simpl in *; intuition.
Qed.

Lemma set_current_dir_frame (d : Path) (s s' : t) (r : result unit) :
  set_current_dir d s = (s', r) ->
  disk s' = disk s /\ calls s' = calls s /\ show_hidden s' = show_hidden s /\
  ((current_dir s = d /\ s' = s) \/
   (current_dir s <> d /\ current_dir s' = d /\
    file_list s' = synced_file_list (with_current_dir d s))).
Proof.
  unfold set_current_dir. rewrite bind_get.
  destruct (path_eq_dec (current_dir s) d) as [E|N].
  - intros R; injection R as <- <-. intuition auto.
  - rewrite bind_modify. unfold watch_current_dir. intros R.
    apply sync_all_frame in R. destruct R as [(Ed & Ec & Ecd & Eh) F].
    simpl in *. repeat split; auto.
Qed.

Lemma set_current_dir_in_range (d : Path) (s s' : t) (r : result unit) :
  in_range (disk s) (file_list s) ->
  set_current_dir d s = (s', r) -> in_range (disk s') (file_list s').
Proof.
  intros HI E. apply set_current_dir_frame in E.
  destruct E as (Ed & _ & _ & [[_ ->] | (_ & _ & F)]); [exact HI|].
  rewrite F, Ed.
  change (disk s) with (disk (with_current_dir d s)).
  now apply in_range_synced.
Qed.

Lemma set_current_dir_in_sync (d : Path) (s s' : t) (r : result unit) :
  in_sync s -> set_current_dir d s = (s', r) -> in_sync s'.
Proof.
  intros HS E. apply set_current_dir_frame in E.
  destruct E as (_ & _ & Eh & [[_ ->] | (_ & Ecd & F)]); [exact HS|].
  unfold in_sync. rewrite F, Ecd, Eh.
  apply (synced_fields (with_current_dir d s)).
Qed.
End CursorFacts.

Section StepFacts.
Context `{Host}.
Import Explorer.

Lemma index_from_some (x : Path) (l : list Path) (i j : Z) :
  index_from x i l = Some j ->
  (i <= j < i + len l)%Z /\ nth_error l (Z.to_nat (j - i)) = Some x.
Proof.
  revert i. induction l as [|e l IH]; simpl; intros i; [discriminate|].
  destruct (path_eq_dec e x) as [->|N].
  - intros E; injection E as <-. rewrite Z.sub_diag. simpl.
    split; [|reflexivity]. unfold len; simpl length; lia.
  - intros E. apply IH in E. destruct E as [B E].
    replace (Z.to_nat (j - i)) with (S (Z.to_nat (j - (i + 1)))) by lia.
    split; [|exact E]. unfold len in *; simpl length; lia.
Qed.

Lemma index_from_none (x : Path) (l : list Path) (i : Z) :
  index_from x i l = None -> ~ In x l.
Proof.
  revert i. induction l as [|e l IH]; simpl; intros i; [tauto|].
  destruct (path_eq_dec e x) as [->|N]; [discriminate|].
  intros E [E'|HIn]; [congruence | exact (IH _ E HIn)].
Qed.

Lemma place_cursor_run (old : Path) (entries : list Path) (i : Z)
      (s s' : t) (r : result unit) :
  place_cursor old i entries s = (s', r) ->
  same_place s s' /\
  file_list s' =
    match index_from old i entries with
    | Some j => FileList.with_cursor j (file_list s)
    | None => file_list s
    end.
Proof.
  revert i. induction entries as [|e rest IH]; simpl; intros i.
  - intros E; injection E as <- <-. split; [apply same_place_refl | reflexivity].
  - destruct (path_eq_dec e old); [apply set_cursor_then_update | apply IH].
Qed.

Lemma refresh_view_frame (s s' : t) (r : result unit) :
  _refresh_view s = (s', r) -> same_place s s'.
Proof.
  unfold _refresh_view. intros E. apply bind_inv in E.
  destruct E as [(s1 & [] & E1 & E2) | (e & E1 & ->)];
    apply sync_all_frame in E1; destruct E1 as [P1 _]; [|exact P1].
  unfold get_entries in E2. rewrite bind_lift in E2.
  destruct (FileList.get_entries (disk s1) (file_list s1)) as [entries|e].
  - rewrite bind_get in E2. apply bind_inv in E2.
    destruct E2 as [(s2 & [] & E2 & E3) | (e & E2 & ->)].
    + apply update_preview_frame in E3. destruct E3 as [P3 _].
      apply (same_place_trans _ _ _ P1). refine (same_place_trans _ _ _ _ P3).
      destruct (_ >=? _)%Z; injection E2 as <-; now repeat split.
    + destruct (_ >=? _)%Z; discriminate.
  - injection E2 as <- <-. exact P1.
Qed.

(** What the clamp of [_refresh_view] achieves. *)
Lemma refresh_view_valid (s s' : t) :
  (0 <= FileList.cursor (file_list s))%Z ->
  _refresh_view s = (s', Ok tt) -> valid s'.
Proof.
  unfold _refresh_view. intros Hc E.
  apply bind_ok in E. destruct E as (s1 & [] & E1 & E2).
  pose proof (sync_all_in_sync _ _ _ E1) as HS1.
  apply sync_all_frame in E1. destruct E1 as [_ F1].
  assert (Hc1 : (0 <= FileList.cursor (file_list s1))%Z)
    by (rewrite F1; now apply synced_cursor_nonneg).
  unfold get_entries in E2. rewrite bind_lift in E2.
  destruct (FileList.get_entries (disk s1) (file_list s1)) as [entries|e] eqn:G;
    [|discriminate].
  rewrite bind_get in E2. apply bind_ok in E2. destruct E2 as (s2 & [] & E2 & E3).
  apply update_preview_frame in E3. destruct E3 as [(Ed & _ & Ecd & Eh) F3].
  destruct (FileList.cursor (file_list s1) >=? len entries)%Z eqn:C;
    injection E2 as <-; simpl in *.
  - split.
    + rewrite F3, Ed. split; simpl; [lia|].
      intros entries'. rewrite get_entries_with_cursor, G.
      intros E'; injection E' as <-. intros Hne. apply len_pos in Hne. lia.
    + unfold in_sync. rewrite F3, Ecd, Eh. exact HS1.
  - split.
    + rewrite F3, Ed. split; [exact Hc1|].
      intros entries'. rewrite G. intros E'; injection E' as <-. lia.
    + unfold in_sync. rewrite F3, Ecd, Eh. exact HS1.
Qed.

Lemma host_then_refresh_valid (c : call) (op : fs -> fs * result unit) (s s' : t) :
  (0 <= FileList.cursor (file_list s))%Z ->
  bind (host_call c op) (fun _ => _refresh_view) s = (s', Ok tt) -> valid s'.
Proof.
  intros Hc E. apply bind_ok in E. destruct E as (s1 & [] & E1 & E2).
  apply (refresh_view_valid s1); [|exact E2].
  unfold host_call in E1. destruct (op (disk s)) as [f' r'].
  injection E1 as <- _. exact Hc.
Qed.
End StepFacts.

Section Invariant.
Context `{Host}.
Import Explorer.

Lemma valid_with_cursor (c : Z) (s s' : t) (entries : list Path) :
  valid s ->
  FileList.get_entries (disk s) (file_list s) = Ok entries ->
  (0 <= c)%Z -> (entries <> [] -> c < len entries)%Z ->
  same_place s s' ->
  file_list s' = FileList.with_cursor c (file_list s) ->
  valid s'.
Proof.
  intros [_ HS] G Hc Hlt (Ed & _ & Ecd & Eh) F. split.
  - rewrite F, Ed. split; [exact Hc|].
    intros entries'. rewrite get_entries_with_cursor, G.
    intros E'; injection E' as <-. exact Hlt.
  - unfold in_sync. rewrite F, Ecd, Eh. exact HS.
Qed.

Lemma action_cursor_down_valid (s s' : t) :
  valid s -> action_cursor_down s = (s', Ok tt) -> valid s'.
Proof.
  intros HV. unfold action_cursor_down, get_entries. rewrite bind_lift.
  destruct (FileList.get_entries (disk s) (file_list s)) as [entries|e] eqn:G;
    [|discriminate].
  rewrite bind_get.
  destruct (FileList.cursor (file_list s) <? len entries - 1)%Z eqn:C.
  - intros E. apply set_cursor_then_update in E. destruct E as [P F].
    destruct HV as [[Hc Hr] HS].
    apply (valid_with_cursor (FileList.cursor (file_list s) + 1) s s' entries);
      auto; [now split | lia | lia].
  - intros E; injection E as <-. exact HV.
Qed.

Lemma action_cursor_up_valid (s s' : t) :
  valid s -> action_cursor_up s = (s', Ok tt) -> valid s'.
Proof.
  intros HV. unfold action_cursor_up. rewrite bind_get.
  destruct (FileList.cursor (file_list s) >? 0)%Z eqn:C.
  - intros E. apply set_cursor_then_update in E. destruct E as [(Ed & _ & Ecd & Eh) F].
    destruct HV as [[Hc Hr] HS]. split.
    + rewrite F, Ed. split; simpl; [lia|].
      intros entries. rewrite get_entries_with_cursor. intros G Hne.
      specialize (Hr entries G Hne). lia.
    + unfold in_sync. rewrite F, Ecd, Eh. exact HS.
  - intros E; injection E as <-. exact HV.
Qed.

Lemma action_enter_dir_valid (s s' : t) :
  valid s -> action_enter_dir s = (s', Ok tt) -> valid s'.
Proof.
  intros [HR HS]. unfold action_enter_dir, selected_path. rewrite bind_lift.
  destruct (FileList.selected_path (disk s) (file_list s)) as [[sel|]|e];
    try discriminate.
  - rewrite bind_lift. destruct (is_dir (disk s) sel) as [[]|]; try discriminate.
    + intros E. split;
        [eapply set_current_dir_in_range | eapply set_current_dir_in_sync]; eauto.
    + intros E; injection E as <-. now split.
  - intros E; injection E as <-. now split.
Qed.

Lemma action_parent_dir_valid (s s' : t) :
  valid s -> action_parent_dir s = (s', Ok tt) -> valid s'.
Proof.
  intros [HR HS]. unfold action_parent_dir. rewrite bind_get.
  destruct (path_eq_dec _ _) as [_|N].
  - intros E; injection E as <-. now split.
  - intros E. apply bind_ok in E. destruct E as (s1 & [] & E1 & E2).
    assert (HV1 : valid s1).
    { split; [eapply set_current_dir_in_range | eapply set_current_dir_in_sync];
        eauto. }
    unfold get_entries in E2. rewrite bind_lift in E2.
    destruct (FileList.get_entries (disk s1) (file_list s1)) as [entries|e] eqn:G;
      [|discriminate].
    apply place_cursor_run in E2. destruct E2 as [P F].
    destruct (index_from (current_dir s) 0 entries) as [j|] eqn:I.
    + apply index_from_some in I. destruct I as [B Hn].
      apply (valid_with_cursor j s1 s' entries); auto; lia.
    + destruct HV1 as [HR1 HS1]. destruct P as (Ed & _ & Ecd & Eh).
      split; [now rewrite F, Ed|].
      unfold in_sync. now rewrite F, Ecd, Eh.
Qed.

Lemma action_go_top_valid (s s' : t) :
  valid s -> action_go_top s = (s', Ok tt) -> valid s'.
Proof.
  intros [_ HS] E. apply set_cursor_then_update in E.
  destruct E as [(Ed & _ & Ecd & Eh) F]. split.
  - rewrite F, Ed. apply in_range_reset.
  - unfold in_sync. rewrite F, Ecd, Eh. exact HS.
Qed.

Lemma action_go_bottom_valid (s s' : t) :
  valid s -> action_go_bottom s = (s', Ok tt) -> valid s'.
Proof.
  intros HV. unfold action_go_bottom, get_entries. rewrite bind_lift.
  destruct (FileList.get_entries (disk s) (file_list s)) as [[|e entries]|e] eqn:G;
    try discriminate.
  - intros E; injection E as <-. exact HV.
  - intros E. apply set_cursor_then_update in E. destruct E as [P F].
    apply (valid_with_cursor (len (e :: entries) - 1) s s' (e :: entries)); auto;
      unfold len; simpl length; lia.
Qed.

Lemma action_toggle_hidden_valid (s s' : t) :
  valid s -> action_toggle_hidden s = (s', Ok tt) -> valid s'.
Proof.
  intros [HR _]. unfold action_toggle_hidden. rewrite bind_modify. intros E.
  split; [|eapply sync_all_in_sync; eauto].
  eapply sync_all_in_range; [|exact E]. exact HR.
Qed.

Lemma mutation_valid (s s' : t) :
  valid s ->
  forall a,
    match a with Create _ | Rename _ | Delete _ => True | _ => False end ->
    run a s = (s', Ok tt) -> valid s'.
Proof.
  intros [[Hc HR] HS] a Ha.
  destruct a as [| | | | | | | |answer|answer|confirmed]; try contradiction; simpl.
  - unfold action_create. destruct answer as [name|].
    + destruct (truthy name).
      * rewrite bind_get. destruct (endswith _ _);
          apply host_then_refresh_valid; assumption.
      * intros E; injection E as <-. exact (conj (conj Hc HR) HS).
    + intros E; injection E as <-. exact (conj (conj Hc HR) HS).
  - unfold action_rename, selected_path. rewrite bind_lift.
    destruct (FileList.selected_path (disk s) (file_list s)) as [[sel|]|e];
      try discriminate.
    + destruct answer as [new_name|].
      * destruct (_ && _).
        -- rewrite bind_get. apply host_then_refresh_valid; assumption.
        -- intros E; injection E as <-. exact (conj (conj Hc HR) HS).
      * intros E; injection E as <-. exact (conj (conj Hc HR) HS).
    + intros E; injection E as <-. exact (conj (conj Hc HR) HS).
  - unfold action_delete, selected_path. rewrite bind_lift.
    destruct (FileList.selected_path (disk s) (file_list s)) as [[sel|]|e];
      try discriminate.
    + destruct confirmed.
      * rewrite bind_lift. destruct (is_dir _ _) as [[]|]; try discriminate;
          apply host_then_refresh_valid; assumption.
      * intros E; injection E as <-. exact (conj (conj Hc HR) HS).
    + intros E; injection E as <-. exact (conj (conj Hc HR) HS).
Qed.

Lemma update_preview_listable (s s' : t) :
  _update_preview s = (s', Ok tt) -> listable s'.
Proof.
  unfold _update_preview, selected_path.
  rewrite bind_modify, bind_lift; simpl.
  destruct (FileList.selected_path (disk s) (file_list s)) as [sel|e] eqn:Sel;
    [|discriminate].
  intros E; injection E as <-. unfold listable; simpl.
  unfold FileList.selected_path in Sel.
  destruct (FileList.get_entries (disk s) (file_list s)); [eauto | discriminate].
Qed.

Lemma sync_all_listable (s s' : t) : _sync_all s = (s', Ok tt) -> listable s'.
Proof.
  destruct (sync_all_unfold s) as (s1 & _ & _ & ->).
  intros E. apply bind_ok in E. destruct E as (s2 & [] & _ & E2).
  unfold get_entries in E2. rewrite bind_lift in E2.
  destruct (FileList.get_entries (disk s2) (file_list s2)) as [entries|e] eqn:G;
    [|discriminate].
  rewrite bind_get, bind_lift, (dirs_among_entries _ _ _ G) in E2.
  injection E2 as <-. exists entries. exact G.
Qed.

Lemma set_cursor_then_update_listable (c : Z) (s s' : t) :
  bind (set_cursor c) (fun _ => _update_preview) s = (s', Ok tt) -> listable s'.
Proof.
  unfold set_cursor. rewrite bind_modify. apply update_preview_listable.
Qed.

Lemma set_current_dir_listable (d : Path) (s s' : t) :
  listable s -> set_current_dir d s = (s', Ok tt) -> listable s'.
Proof.
  intros HL. unfold set_current_dir. rewrite bind_get.
  destruct (path_eq_dec _ _).
  - intros E; injection E as <-. exact HL.
  - rewrite bind_modify. apply sync_all_listable.
Qed.

Lemma place_cursor_listable (old : Path) (entries : list Path) (i : Z) (s s' : t) :
  listable s -> place_cursor old i entries s = (s', Ok tt) -> listable s'.
Proof.
  intros HL. revert i. induction entries as [|e rest IH]; simpl; intros i.
  - intros E; injection E as <-. exact HL.
  - destruct (path_eq_dec e old); [apply set_cursor_then_update_listable | apply IH].
Qed.

Lemma refresh_view_listable (s s' : t) :
  _refresh_view s = (s', Ok tt) -> listable s'.
Proof.
  unfold _refresh_view. intros E.
  apply bind_ok in E. destruct E as (s1 & [] & _ & E).
  apply bind_ok in E. destruct E as (s2 & entries & _ & E).
  rewrite bind_get in E.
  apply bind_ok in E. destruct E as (s3 & [] & _ & E).
  now apply update_preview_listable in E.
Qed.

Lemma host_then_refresh_listable (c : call) (op : fs -> fs * result unit) (s s' : t) :
  bind (host_call c op) (fun _ => _refresh_view) s = (s', Ok tt) -> listable s'.
Proof.
  intros E. apply bind_ok in E. destruct E as (s1 & [] & _ & E).
  now apply refresh_view_listable in E.
Qed.

(** Every handled key leaves a directory that can be listed. *)
Lemma run_listable (a : action) (s s' : t) :
  listable s -> run a s = (s', Ok tt) -> listable s'.
Proof.
  intros HL. destruct a as [| | | | | | | |answer|answer|confirmed]; simpl.
  - unfold action_cursor_down, get_entries. rewrite bind_lift.
    destruct (FileList.get_entries (disk s) (file_list s)); [|discriminate].
    rewrite bind_get. destruct (_ <? _)%Z.
    + apply set_cursor_then_update_listable.
    + intros E; injection E as <-. exact HL.
  - unfold action_cursor_up. rewrite bind_get. destruct (_ >? _)%Z.
    + apply set_cursor_then_update_listable.
    + intros E; injection E as <-. exact HL.
  - unfold action_enter_dir, selected_path. rewrite bind_lift.
    destruct (FileList.selected_path (disk s) (file_list s)) as [[sel|]|e];
      try discriminate.
    + rewrite bind_lift. destruct (is_dir (disk s) sel) as [[]|]; try discriminate;
        [now apply set_current_dir_listable|].
      intros E; injection E as <-. exact HL.
    + intros E; injection E as <-. exact HL.
  - unfold action_parent_dir. rewrite bind_get. destruct (path_eq_dec _ _).
    + intros E; injection E as <-. exact HL.
    + intros E. apply bind_ok in E. destruct E as (s1 & [] & E1 & E2).
      apply set_current_dir_listable in E1; [|exact HL].
      apply bind_ok in E2. destruct E2 as (s2 & entries & E2 & E3).
      unfold get_entries, lift in E2. injection E2 as <- _.
      now apply place_cursor_listable in E3.
  - apply set_cursor_then_update_listable.
  - unfold action_go_bottom, get_entries. rewrite bind_lift.
    destruct (FileList.get_entries (disk s) (file_list s)) as [[|e l]|e];
      try discriminate.
    + intros E; injection E as <-. exact HL.
    + apply set_cursor_then_update_listable.
  - now apply set_current_dir_listable.
  - unfold action_toggle_hidden. rewrite bind_modify. apply sync_all_listable.
  - unfold action_create. destruct answer as [name|].
    + destruct (truthy name).
      * rewrite bind_get. destruct (endswith _ _);
          apply host_then_refresh_listable.
      * intros E; injection E as <-. exact HL.
    + intros E; injection E as <-. exact HL.
  - unfold action_rename, selected_path. rewrite bind_lift.
    destruct (FileList.selected_path (disk s) (file_list s)) as [[sel|]|e];
      try discriminate.
    + destruct answer as [new_name|].
      * destruct (_ && _).
        -- rewrite bind_get. apply host_then_refresh_listable.
        -- intros E; injection E as <-. exact HL.
      * intros E; injection E as <-. exact HL.
    + intros E; injection E as <-. exact HL.
  - unfold action_delete, selected_path. rewrite bind_lift.
    destruct (FileList.selected_path (disk s) (file_list s)) as [[sel|]|e];
      try discriminate.
    + destruct confirmed.
      * rewrite bind_lift. destruct (is_dir _ _) as [[]|]; try discriminate;
          apply host_then_refresh_listable.
      * intros E; injection E as <-. exact HL.
    + intros E; injection E as <-. exact HL.
Qed.

(** Every handled key keeps the invariant. *)
Lemma run_valid (a : action) (s s' : t) :
  valid s -> run a s = (s', Ok tt) -> valid s'.
Proof.
  intros HV.
  destruct a; try (apply (mutation_valid s s' HV); exact I); simpl.
  - now apply action_cursor_down_valid.
  - now apply action_cursor_up_valid.
  - now apply action_enter_dir_valid.
  - now apply action_parent_dir_valid.
  - now apply action_go_top_valid.
  - now apply action_go_bottom_valid.
  - destruct HV as [HR HS]. intros E.
    split; [eapply set_current_dir_in_range | eapply set_current_dir_in_sync];
      eauto.
  - now apply action_toggle_hidden_valid.
Qed.

Lemma reachable_valid (s : t) : reachable s -> valid s.
Proof.
  induction 1 as [f cwd s E | a s s' _ IH E].
  - unfold on_mount in E. split.
    + eapply sync_all_in_range; [|exact E]. apply (in_range_reset f (FileList.mk home 0 true)).
    + eapply sync_all_in_sync; exact E.
  - eapply run_valid; eauto.
Qed.

Lemma reachable_listable (s : t) : reachable s -> listable s.
Proof.
  induction 1 as [f cwd s E | a s s' _ IH E].
  - unfold on_mount in E. now apply sync_all_listable in E.
  - eapply run_listable; eauto.
Qed.

(** C1. In every state of a session, that is after the resynchronization
    that mounting, a navigation key or a completed mutation triggers, the
    current directory has a listing, the cursor is a valid index of it
    whenever it is non-empty, and [selected_path] returns [None] exactly
    when it is empty. *)
Theorem cursor_in_range_after_resync (s : t) :
  reachable s ->
  exists entries,
    FileList.get_entries (disk s) (file_list s) = Ok entries /\
    (entries <> [] -> (0 <= FileList.cursor (file_list s) < len entries)%Z) /\
    (FileList.selected_path (disk s) (file_list s) = Ok None <-> entries = []).
Proof.
  intros HR. destruct (reachable_listable s HR) as [entries G].
  exists entries. split; [exact G|].
  apply reachable_valid in HR. destruct HR as [[Hc Hlt] _].
  specialize (Hlt entries G).
  split; [intros Hne; split; auto|].
  unfold FileList.selected_path. rewrite G.
  destruct entries as [|e entries].
  - split; [reflexivity|]. intros _.
    destruct (_ && _); [destruct (Z.to_nat _)|]; reflexivity.
  - assert (Hne : e :: entries <> []) by discriminate.
    specialize (Hlt Hne).
    rewrite (proj2 (Z.leb_le _ _) Hc), (proj2 (Z.ltb_lt _ _) Hlt); simpl.
    split; [|discriminate]. intros E; injection E as E.
    apply nth_error_None in E. unfold len in Hlt. lia.
Qed.
End Invariant.

Lemma mounted_reachable : Explorer.reachable (H := disk_host) mounted.
Proof.
  apply (Explorer.reach_mount (H := disk_host) scenario tmp_x).
  apply run_outcome. vm_compute. reflexivity.
Qed.

Lemma after_delete_reachable : Explorer.reachable (H := disk_host) after_delete.
Proof.
  apply (Explorer.reach_step (H := disk_host)
           (Explorer.Delete true) (s := at_bottom));
    [|apply run_outcome; vm_compute; reflexivity].
  apply (Explorer.reach_step (H := disk_host)
           Explorer.GoBottom (s := mounted));
    [|apply run_outcome; vm_compute; reflexivity].
  exact mounted_reachable.
Qed.

(** The cursor stood on the third of three entries; the entry is deleted
    and the cursor is clamped to the second of the two that remain. *)
Lemma cursor_in_range_after_resync_witness :
  FileList.cursor (Explorer.file_list at_bottom) = 2%Z /\
  FileList.cursor (Explorer.file_list after_delete) = 1%Z /\
  exists entries,
    FileList.get_entries (Explorer.disk after_delete)
      (Explorer.file_list after_delete) = Ok entries /\
    (entries <> [] ->
     (0 <= FileList.cursor (Explorer.file_list after_delete) < len entries)%Z) /\
    (FileList.selected_path (Explorer.disk after_delete)
       (Explorer.file_list after_delete) = Ok None
     <-> entries = []).
Proof.
  split; [vm_compute; reflexivity|]. split; [vm_compute; reflexivity|].
  exact (cursor_in_range_after_resync (H := disk_host) after_delete
           after_delete_reachable).
Defined.

(* ===================================================================== *)
(** ** Ascending to the parent directory *)
(* ===================================================================== *)

Section Ascend.
Context `{Host}.
Import Explorer.

(** The main pane after the application has moved to another
    directory: that directory, cursor on the first line. *)
Lemma synced_after_move (d : Path) (s : t) :
  in_sync s -> current_dir s <> d ->
  synced_file_list (with_current_dir d s) = FileList.mk d 0 (show_hidden s).
Proof.
  intros [Ed Eh] N.
  unfold synced_file_list, FileList.set_show_hidden, FileList.set_current_dir; simpl.
  destruct (path_eq_dec _ _) as [E|_]; [congruence|]. simpl.
  now rewrite Eh, eqb_reflx.
Qed.

Lemma place_cursor_ok (old : Path) (entries listing : list Path) (i : Z) (s : t) :
  FileList.get_entries (disk s) (file_list s) = Ok listing ->
  exists s', place_cursor old i entries s = (s', Ok tt).
Proof.
  intros G. revert i. induction entries as [|e rest IH]; simpl; intros i.
  - unfold ret. eauto.
  - destruct (path_eq_dec e old); [|apply IH].
    unfold set_cursor. rewrite bind_modify.
    apply (update_preview_ok _ listing). exact G.
Qed.

(** C4. Ascending does nothing when the parent of the current directory
    is the current directory itself.  Otherwise, provided the parent can
    be listed, it returns with the parent as the current directory of the
    application and of the main pane, and with the cursor on the line of
    the directory just left if the new listing has it, on line 0 if it
    has not. *)
Theorem ascend_places_cursor (s : t) :
  reachable s ->
  (parent (current_dir s) = current_dir s -> action_parent_dir s = (s, Ok tt)) /\
  (parent (current_dir s) <> current_dir s ->
   forall entries,
     FileList.get_entries (disk s)
       (FileList.mk (parent (current_dir s)) 0 (show_hidden s)) = Ok entries ->
     exists s',
       action_parent_dir s = (s', Ok tt) /\
       current_dir s' = parent (current_dir s) /\
       FileList.current_dir (file_list s') = parent (current_dir s) /\
       FileList.get_entries (disk s') (file_list s') = Ok entries /\
       (In (current_dir s) entries ->
        (0 <= FileList.cursor (file_list s'))%Z /\
        nth_error entries (Z.to_nat (FileList.cursor (file_list s')))
          = Some (current_dir s)) /\
       (~ In (current_dir s) entries -> FileList.cursor (file_list s') = 0%Z)).
Proof.
  intros HR. apply reachable_valid in HR. destruct HR as [_ HS].
  unfold action_parent_dir. rewrite bind_get.
  destruct (path_eq_dec (parent (current_dir s)) (current_dir s)) as [E|N].
  { split; [reflexivity | congruence]. }
  split; [congruence|]. intros _ entries G.
  set (here := current_dir s) in *. set (up := parent here) in *.
  assert (N2 : current_dir s <> up) by (fold here; congruence).
  (* [self.current_dir = parent] runs the watcher *)
  assert (Hset : exists s1,
            set_current_dir up s = (s1, Ok tt) /\
            disk s1 = disk s /\ current_dir s1 = up /\
            file_list s1 = FileList.mk up 0 (show_hidden s)).
  { unfold set_current_dir. rewrite bind_get.
    destruct (path_eq_dec (current_dir s) up) as [E|_]; [congruence|].
    rewrite bind_modify. unfold watch_current_dir.
    destruct (sync_all_ok (with_current_dir up s) entries) as [s1 E1].
    { rewrite (synced_after_move up s HS N2). exact G. }
    exists s1. split; [exact E1|].
    apply sync_all_frame in E1. destruct E1 as [(Ed & _ & Ecd & _) F].
    rewrite (synced_after_move up s HS N2) in F. auto. }
  destruct Hset as (s1 & E1 & Ed1 & Ecd1 & F1).
  rewrite (bind_run _ _ _ _ _ _ _ _ E1).
  assert (G1 : FileList.get_entries (disk s1) (file_list s1) = Ok entries)
    by (rewrite Ed1, F1; exact G).
  unfold get_entries. rewrite bind_lift, G1.
  destruct (place_cursor_ok here entries entries 0 s1 G1) as [s' E2].
  exists s'. split; [exact E2|].
  apply place_cursor_run in E2. destruct E2 as [(Ed2 & _ & Ecd2 & _) F2].
  split; [congruence|].
  destruct (index_from here 0 entries) as [j|] eqn:I; rewrite F2, F1; simpl.
  - split; [reflexivity|]. split; [now rewrite Ed2, Ed1|].
    apply index_from_some in I. destruct I as [B Hn].
    rewrite Z.sub_0_r in Hn. split; [intros _; split; [lia | exact Hn]|].
    intros Hnot. exfalso. apply Hnot. now apply nth_error_In in Hn.
  - split; [reflexivity|]. split; [now rewrite Ed2, Ed1|].
    apply index_from_none in I. split; [tauto | reflexivity].
Qed.
End Ascend.

Lemma inside_A_reachable : Explorer.reachable (H := disk_host) inside_A.
Proof.
  apply (Explorer.reach_step (H := disk_host) Explorer.EnterDir (s := mounted));
    [|apply run_outcome; vm_compute; reflexivity].
  exact mounted_reachable.
Qed.

(** Entering [A] and ascending again: back in [/tmp/x], cursor on [A]. *)
Lemma ascend_places_cursor_witness :
  Explorer.current_dir inside_A = tmp_x ++ [lit "A"] /\
  exists s',
    Explorer.action_parent_dir inside_A = (s', Ok tt) /\
    Explorer.current_dir s' = tmp_x /\
    nth_error [tmp_x ++ [lit "A"]; tmp_x ++ [lit ".hidden"]; tmp_x ++ [lit "b.txt"]]
              (Z.to_nat (FileList.cursor (Explorer.file_list s')))
      = Some (tmp_x ++ [lit "A"]).
Proof.
  split; [vm_compute; reflexivity|].
  destruct (proj2 (ascend_places_cursor (H := disk_host) inside_A inside_A_reachable))
    with (entries := [tmp_x ++ [lit "A"]; tmp_x ++ [lit ".hidden"]; tmp_x ++ [lit "b.txt"]])
    as (s' & E & Ecd & _ & _ & Hin & _).
  - vm_compute. discriminate.
  - vm_compute. reflexivity.
  - exists s'. split; [exact E|]. split; [exact Ecd|].
    apply Hin. left. vm_compute. reflexivity.
Defined.

(* ===================================================================== *)
(** ** A directory that cannot be read *)
(* ===================================================================== *)

Section Unreadable.
Context `{Host}.

(** The pane of the parent directory reports the failure. *)
Lemma parent_pane_permission_denied (f : fs) (self : ParentPane.t) :
  parent (ParentPane.current_dir self) <> ParentPane.current_dir self ->
  listdir f (parent (ParentPane.current_dir self)) = Raise PermissionError ->
  ParentPane.render_entries f self = Ok ParentPane.PermissionDenied.
Proof.
  intros N E. unfold ParentPane.render_entries, listing, iterdir.
  destruct (path_eq_dec _ _); [contradiction|]. now rewrite E.
Qed.

(** So does the preview of a selected directory, below its header. *)
Lemma preview_permission_denied (f : fs) (self : PreviewPane.t) (path : Path)
      (h : option PreviewPane.head) :
  PreviewPane.preview_path self = Some path ->
  path_exists f path = Ok true ->
  PreviewPane.head_of f path = Ok h ->
  is_dir f path = Ok true ->
  listdir f path = Raise PermissionError ->
  PreviewPane.content_of (PreviewPane.render_preview f self)
    = Ok PreviewPane.PermissionDenied.
Proof.
  intros Ep Ee Eh Ed El. unfold PreviewPane.render_preview, listing, iterdir.
  now rewrite Ep, Ee, Eh, Ed, El.
Qed.

(** C5, as the code has it.  When enumerating the current directory raises
    [PermissionError], the main pane gets the empty list and renders the
    [Empty directory] message, exactly what it renders for a directory
    that holds nothing. *)
Theorem unreadable_directory_renders_empty (f : fs) (self : FileList.t) :
  listdir f (FileList.current_dir self) = Raise PermissionError ->
  FileList.get_entries f self = Ok [] /\
  FileList.render_list f self = Ok FileList.EmptyDirectory /\
  forall g other,
    listdir g (FileList.current_dir other) = Ok [] ->
    FileList.render_list g other = FileList.render_list f self.
Proof.
  intros E.
  assert (G : FileList.get_entries f self = Ok []).
  { unfold FileList.get_entries, listing, iterdir. now rewrite E. }
  split; [exact G|].
  unfold FileList.render_list. rewrite G. split; [reflexivity|].
  intros g other Eg. unfold FileList.get_entries, listing, iterdir.
  rewrite Eg. simpl.
  now destruct (FileList.show_hidden other).
Qed.
End Unreadable.

(** In the home directory, [locked] cannot be read: as the current
    directory it renders as an empty one. *)
Lemma unreadable_directory_renders_empty_witness :
  listdir (Host := disk_host) home_tree (user_home ++ [lit "locked"])
    = Raise PermissionError /\
  FileList.render_list (H := disk_host) home_tree
    (FileList.mk (user_home ++ [lit "locked"]) 0 true) = Ok FileList.EmptyDirectory /\
  ParentPane.render_entries (H := disk_host) home_tree
    (ParentPane.mk (user_home ++ [lit "locked"; lit "inner"]) true)
    = Ok ParentPane.PermissionDenied.
Proof.
  split; [vm_compute; reflexivity|]. split.
  - refine (proj1 (proj2 (unreadable_directory_renders_empty (H := disk_host)
                             home_tree _ _))).
    vm_compute. reflexivity.
  - vm_compute. reflexivity.
Defined.

(* ===================================================================== *)
(** ** Mutations the file system rejects *)
(* ===================================================================== *)

Section MutationFailure.
Context `{Host}.
Import Explorer.

Lemma host_raises (c : call) (op : fs -> fs * result unit) (s : t) (f' : fs) (e : exn) :
  op (disk s) = (f', Raise e) ->
  bind (host_call c op) (fun _ => _refresh_view) s = (with_disk f' c s, Raise e).
Proof.
  intros E. apply bind_raise. unfold host_call. now rewrite E.
Qed.

(** C6, as the code has it.  When the file system rejects the call a
    create, rename or delete makes, the exception leaves the dialog
    callback uncaught.  The state it leaves is the state before the call
    with the snapshot the call left and the call logged: directory, cursor,
    hidden flag, panes and status bar are untouched, and [_refresh_view]
    has not run. *)
Theorem mutation_failure_propagates (s : t) (f' : fs) (e : exn) :
  (forall name,
     truthy name = true -> endswith name (lit "/") = true ->
     mkdir_exist_ok (disk s) (joinpath (current_dir s) (rstrip1 47 name))
       = (f', Raise e) ->
     action_create (Some name) s
       = (with_disk f' (CallMkdir (joinpath (current_dir s) (rstrip1 47 name))) s,
          Raise e)) /\
  (forall name,
     truthy name = true -> endswith name (lit "/") = false ->
     touch (disk s) (joinpath (current_dir s) name) = (f', Raise e) ->
     action_create (Some name) s
       = (with_disk f' (CallTouch (joinpath (current_dir s) name)) s, Raise e)) /\
  (forall sel new_name,
     FileList.selected_path (disk s) (file_list s) = Ok (Some sel) ->
     truthy new_name = true -> new_name <> name sel ->
     rename (disk s) sel (joinpath (current_dir s) new_name) = (f', Raise e) ->
     action_rename (Some new_name) s
       = (with_disk f' (CallRename sel (joinpath (current_dir s) new_name)) s,
          Raise e)) /\
  (forall sel,
     FileList.selected_path (disk s) (file_list s) = Ok (Some sel) ->
     (if directory (disk s) sel then rmtree (disk s) sel else unlink (disk s) sel)
       = (f', Raise e) ->
     action_delete true s
       = (with_disk f' (if directory (disk s) sel then CallRmtree sel
                        else CallUnlink sel) s,
          Raise e)).
Proof.
  repeat split.
  - intros name Ht Es E. unfold action_create. rewrite Ht, bind_get, Es.
    now apply host_raises.
  - intros name Ht Es E. unfold action_create. rewrite Ht, bind_get, Es.
    now apply host_raises.
  - intros sel new_name Sel Ht Hne E.
    unfold action_rename, selected_path. rewrite bind_lift, Sel, Ht.
    unfold str_eqb. destruct (str_eq_dec new_name (name sel)); [contradiction|].
    simpl. rewrite bind_get. now apply host_raises.
  - intros sel Sel E.
    unfold action_delete, selected_path. rewrite bind_lift, Sel, bind_lift.
    rewrite (proj1 (tested_kind _ _ (selected_tested _ _ _ Sel))).
    destruct (directory (disk s) sel); now apply host_raises.
Qed.

(** C10. When the entry under the cursor is a symbolic link whose target
    is a directory, a confirmed delete calls [shutil.rmtree] on it and
    makes no other call: [unlink] is never tried. *)
Theorem delete_follows_symlink (s : t) (sel : Path) :
  FileList.selected_path (disk s) (file_list s) = Ok (Some sel) ->
  is_symlink (disk s) sel = Ok true ->
  is_dir (disk s) sel = Ok true ->
  calls (fst (action_delete true s)) = CallRmtree sel :: calls s.
Proof.
  intros Sel _ Hd.
  unfold action_delete, selected_path. rewrite bind_lift, Sel, bind_lift, Hd.
  destruct (bind _ _ s) as [s' r] eqn:E. simpl.
  apply bind_inv in E.
  destruct E as [(s1 & [] & E1 & E2) | (e & E1 & _)].
  - apply refresh_view_frame in E2. destruct E2 as (_ & Ec & _).
    rewrite Ec. unfold host_call in E1.
    destruct (rmtree (disk s) sel) as [f r1]. now injection E1 as <- _.
  - unfold host_call in E1.
    destruct (rmtree (disk s) sel) as [f r1]. now injection E1 as <- _.
Qed.
End MutationFailure.

(** With the cursor on [b.txt], renaming it to the name of the directory
    [A] is rejected, and the rejection comes out of the handler. *)
Lemma mutation_failure_propagates_witness :
  Explorer.action_rename (Some (lit "A")) at_bottom
  = (Explorer.with_disk (H := disk_host) scenario
       (CallRename (tmp_x ++ [lit "b.txt"])
          (joinpath (Explorer.current_dir at_bottom) (lit "A")))
       at_bottom,
     Raise IsADirectoryError).
Proof.
  apply (proj1 (proj2 (proj2
           (mutation_failure_propagates (H := disk_host) at_bottom
              scenario IsADirectoryError)))).
  - vm_compute. reflexivity.
  - reflexivity.
  - vm_compute. discriminate.
  - vm_compute. reflexivity.
Defined.

(** C6, as the specification words it: the rejected rename is not turned
    into a notification, the handler does not return. *)
Lemma mutation_failure_counterexample :
  FileList.selected_path (Explorer.disk at_bottom) (Explorer.file_list at_bottom)
    = Ok (Some (tmp_x ++ [lit "b.txt"])) /\
  snd (rename (Host := disk_host) scenario
         (tmp_x ++ [lit "b.txt"]) (tmp_x ++ [lit "A"]))
    = Raise IsADirectoryError /\
  snd (Explorer.run (Explorer.Rename (Some (lit "A"))) at_bottom)
    = Raise IsADirectoryError /\
  snd (Explorer.run (Explorer.Rename (Some (lit "A"))) at_bottom) <> Ok tt.
Proof.
  repeat split; vm_compute; solve [reflexivity | discriminate].
Qed.

(** In the home directory [link] points to the directory [docs]: deleting
    it goes to [rmtree], which refuses a link. *)
Lemma delete_follows_symlink_witness :
  let r := Explorer.action_delete true on_link in
  is_symlink (Host := disk_host) home_tree (user_home ++ [lit "link"]) = Ok true /\
  Explorer.calls (fst r) = [CallRmtree (user_home ++ [lit "link"])] /\
  snd r = Raise OSError.
Proof.
  cbv zeta. split; [vm_compute; reflexivity|]. split; [|vm_compute; reflexivity].
  apply (delete_follows_symlink (H := disk_host) on_link (user_home ++ [lit "link"]));
    vm_compute; reflexivity.
Defined.

(* ===================================================================== *)

(* ===================================================================== *)
(** ** The preview of a file *)
(* ===================================================================== *)

Section Preview.
Context `{Host}.
Import PreviewPane.

Lemma is_binary_extension_In (x : str) :
  is_binary_extension x = true <-> In x BINARY_EXTENSIONS.
Proof.
  unfold is_binary_extension. rewrite existsb_exists. split.
  - intros (y & Hy & E). unfold str_eqb in E.
    destruct (str_eq_dec x y); [now subst | discriminate].
  - intros Hx. exists x. split; [exact Hx|].
    unfold str_eqb. now destruct (str_eq_dec x x).
Qed.

Lemma upto_length (A : Type) (l : list A) (n : Z) :
  (0 <= n)%Z -> (len (upto n l) <= n)%Z.
Proof.
  revert n. induction l as [|x l IH]; intros n Hn; simpl.
  - exact Hn.
  - destruct (Z.ltb_spec 0 n) as [Hp|Hp]; [|exact Hn].
    specialize (IH (n - 1)%Z). unfold len in *. simpl length. lia.
Qed.

Lemma upto_upto (A : Type) (l : list A) (n m : Z) :
  (n <= m)%Z -> upto n (upto m l) = upto n l.
Proof.
  revert n m. induction l as [|x l IH]; intros n m Hnm; simpl; [reflexivity|].
  destruct (Z.ltb_spec 0 n) as [Hn|Hn].
  - destruct (Z.ltb_spec 0 m) as [Hm|Hm]; [|lia]. simpl.
    destruct (Z.ltb_spec 0 n) as [_|Hn']; [|lia].
    f_equal. apply IH. lia.
  - destruct (0 <? m)%Z; simpl; [|reflexivity].
    destruct (Z.ltb_spec 0 n) as [Hn'|_]; [lia | reflexivity].
Qed.

Lemma len_map (A B : Type) (g : A -> B) (l : list A) : len (map g l) = len l.
Proof. unfold len. now rewrite length_map. Qed.


(** C8, as the code has it.  For an existing path that is not a directory
    and whose lowercased suffix is one of [BINARY_EXTENSIONS], no content
    read is issued, and the preview is the header followed by the
    binary-file message, unless building the header raises an exception
    that is no [OSError]: the preview then raises it, and this is what
    [datetime.fromtimestamp] does with a [ValueError] for a modification
    time past the year 9999.  The file's bytes play no part: on any file
    system where the path still exists, is no directory and has the same
    [lstat] result, whatever [read_bytes] returns there, the outcome is
    the same. *)
Theorem binary_extension_short_circuits (f : fs) (self : t) (path : Path) :
  preview_path self = Some path ->
  path_exists f path = Ok true ->
  is_dir f path = Ok false ->
  In (lower (suffix path)) BINARY_EXTENSIONS ->
  render_preview f self =
    ([], result_map (fun h => {| header := h;
                                 content := BinaryExtension (suffix path) |})
                    (head_of f path)) /\
  (forall st,
      lstat f path = Ok st ->
      fromtimestamp (st_mtime st) = Raise ValueError ->
      render_preview f self = ([], Raise ValueError)) /\
  forall g,
    path_exists g path = Ok true -> is_dir g path = Ok false ->
    lstat g path = lstat f path ->
    render_preview g self = render_preview f self.
Proof.
  intros Ep Ee Ed Hb. apply is_binary_extension_In in Hb.
  assert (E : render_preview f self =
              ([], result_map (fun h => {| header := h;
                                           content := BinaryExtension (suffix path) |})
                              (head_of f path))).
  { unfold render_preview. rewrite Ep, Ee.
    destruct (head_of f path) as [h|e]; [|reflexivity].
    now rewrite Ed, Hb. }
  split; [exact E|]. split.
  - intros st Es Et. rewrite E. unfold head_of. rewrite Es. cbn [and_then].
    now rewrite Et.
  - intros g Ge Gd Gl. rewrite E. unfold render_preview. rewrite Ep, Ge.
    assert (Eh : head_of g path = head_of f path)
      by (unfold head_of; now rewrite Gl).
    rewrite Eh. destruct (head_of f path) as [h|e]; [|reflexivity].
    now rewrite Gd, Hb.
Qed.

(** C7, as the code has it.  For an existing file that is not a directory,
    whose header can be built, whose suffix is not a binary one, whose
    size is at most 64 KiB, whose bytes can be read and hold no NUL among
    the first 1024, the preview reads the file once and its body is the
    bytes (at most 64 KiB of them) decoded as UTF-8 with replacement,
    split into lines, cut to the first 80 lines and each line to its first
    200 characters, joined by line feeds.  Nothing makes that body
    non-empty. *)
Theorem text_preview_body (f : fs) (self : t) (path : Path)
        (h : option head) (st : stat_result) (data : bytes) :
  preview_path self = Some path ->
  path_exists f path = Ok true ->
  head_of f path = Ok h ->
  is_dir f path = Ok false ->
  ~ In (lower (suffix path)) BINARY_EXTENSIONS ->
  stat f path = Ok st ->
  (st_size st <= MAX_PREVIEW_BYTES)%Z ->
  read_bytes f path = Ok data ->
  contains_nul (upto 1024 data) = false ->
  let lines :=
    map (upto MAX_LINE_LEN)
        (upto MAX_PREVIEW_LINES
              (splitlines (decode_replace (upto MAX_PREVIEW_BYTES data)))) in
  render_preview f self =
    ([CallReadBytes path],
     Ok {| header := h; content := Text (join [10%N] lines) |}) /\
  (len lines <= 80)%Z /\
  Forall (fun ln => (len ln <= 200)%Z) lines.
Proof.
  intros Ep Ee Eh Ed Hb Es Hsize Er Hnul lines.
  assert (Eb : is_binary_extension (lower (suffix path)) = false).
  { destruct (is_binary_extension _) eqn:E; [|reflexivity].
    apply is_binary_extension_In in E. contradiction. }
  assert (Eg : (st_size st >? MAX_PREVIEW_BYTES)%Z = false)
    by (rewrite Z.gtb_ltb; apply Z.ltb_ge; exact Hsize).
  assert (En : upto 1024 (upto MAX_PREVIEW_BYTES data) = upto 1024 data)
    by (apply upto_upto; unfold MAX_PREVIEW_BYTES; lia).
  assert (H80 : (0 <= MAX_PREVIEW_LINES)%Z) by (unfold MAX_PREVIEW_LINES; lia).
  assert (H200 : (0 <= MAX_LINE_LEN)%Z) by (unfold MAX_LINE_LEN; lia).
  split; [|split].
  - unfold render_preview.
    rewrite Ep, Ee, Eh, Ed, Eb. unfold file_size_of. rewrite Es.
    cbn [and_then except_OSError]. rewrite Eg, Er, En, Hnul.
    unfold text_digest, lines. reflexivity.
  - unfold lines. rewrite len_map.
    exact (upto_length _ _ MAX_PREVIEW_LINES H80).
  - unfold lines. apply Forall_map, Forall_forall. intros ln _.
    exact (upto_length _ ln MAX_LINE_LEN H200).
Qed.
End Preview.

(** The image [old.png] holds bytes that are neither text nor valid
    UTF-8 and was last modified in the year 36812: its preview reads
    nothing and ends in the [ValueError] of the header's date. *)
Lemma binary_extension_short_circuits_witness :
  read_bytes (Host := disk_host) future_tree (user_home ++ [lit "old.png"])
    = Ok [xff; xfe; x00; xc3] /\
  PreviewPane.render_preview (H := disk_host) future_tree
    (PreviewPane.mk (Some (user_home ++ [lit "old.png"])) true)
  = ([], Raise ValueError).
Proof.
  split; [vm_compute; reflexivity|].
  apply (proj1 (proj2 (binary_extension_short_circuits (H := disk_host) future_tree
             (PreviewPane.mk (Some (user_home ++ [lit "old.png"])) true)
             (user_home ++ [lit "old.png"]) eq_refl
             ltac:(vm_compute; reflexivity) ltac:(vm_compute; reflexivity)
             ltac:(vm_compute; tauto)))
           {| st_mode := 33188; st_uid := 1000; st_gid := 1000;
              st_size := 4; st_mtime := 1099511627776 |});
    vm_compute; reflexivity.
Defined.

(** [readme.md] holds two short lines. *)
Lemma text_preview_body_witness :
  PreviewPane.render_preview (H := disk_host) home_tree
    (PreviewPane.mk (Some (user_home ++ [lit "readme.md"])) true)
  = ([CallReadBytes (user_home ++ [lit "readme.md"])],
     Ok {| PreviewPane.header :=
             Some {| PreviewPane.perms := lit "-rw-r--r--";
                     PreviewPane.owner := lit "user";
                     PreviewPane.group := lit "user";
                     PreviewPane.size := lit "    6B";
                     PreviewPane.mtime := lit "2023-11-14 22:13:20" |};
           PreviewPane.content :=
             PreviewPane.Text (lit "hi" ++ [10%N] ++ lit "yo") |}).
Proof.
  rewrite (proj1 (text_preview_body (H := disk_host) home_tree
             (PreviewPane.mk (Some (user_home ++ [lit "readme.md"])) true)
             (user_home ++ [lit "readme.md"])
             (Some {| PreviewPane.perms := lit "-rw-r--r--";
                      PreviewPane.owner := lit "user";
                      PreviewPane.group := lit "user";
                      PreviewPane.size := lit "    6B";
                      PreviewPane.mtime := lit "2023-11-14 22:13:20" |})
             {| st_mode := 33188; st_uid := 1000; st_gid := 1000;
                st_size := 6; st_mtime := 1700000000 |}
             [x68; x69; x0a; x79; x6f; x0a]
             eq_refl ltac:(vm_compute; reflexivity) ltac:(vm_compute; reflexivity)
             ltac:(vm_compute; reflexivity)
             ltac:(vm_compute; intuition discriminate)
             ltac:(vm_compute; reflexivity) ltac:(vm_compute; discriminate)
             ltac:(vm_compute; reflexivity) ltac:(vm_compute; reflexivity))).
  vm_compute. reflexivity.
Defined.

(** C7, as the specification words it: [notes.txt] exists, is a regular
    file of size 0, has no NUL byte and a suffix that is not binary, and
    the body of its preview is the empty string. *)
Lemma text_preview_counterexample :
  let p := user_home ++ [lit "notes.txt"] in
  path_exists (Host := disk_host) home_tree p = Ok true /\
  is_dir (Host := disk_host) home_tree p = Ok false /\
  result_map st_size (stat (Host := disk_host) home_tree p) = Ok 0%Z /\
  read_bytes (Host := disk_host) home_tree p = Ok [] /\
  PreviewPane.is_binary_extension (lower (Host := disk_host) (suffix p)) = false /\
  PreviewPane.content_of
    (PreviewPane.render_preview (H := disk_host) home_tree
       (PreviewPane.mk (Some p) true))
  = Ok (PreviewPane.Text []).
Proof.
  repeat split; vm_compute; reflexivity.
Qed.

(* ===================================================================== *)
(** ** The permission string *)
(* ===================================================================== *)

Lemma land_pow2_testbit (m k : Z) :
  (0 <= k)%Z -> (Z.land m (2 ^ k) =? 0)%Z = negb (Z.testbit m k).
Proof.
  intros Hk. destruct (Z.testbit m k) eqn:T; simpl.
  - apply Z.eqb_neq. intros E.
    assert (B : Z.testbit (Z.land m (2 ^ k)) k = false)
      by (rewrite E; apply Z.bits_0).
    rewrite Z.land_spec, T, Z.pow2_bits_true in B by assumption. discriminate.
  - apply Z.eqb_eq. apply Z.bits_inj'. intros n Hn.
    rewrite Z.land_spec, Z.bits_0.
    destruct (Z.eq_dec k n) as [<-|N].
    + now rewrite T.
    + rewrite Z.pow2_bits_false by assumption. apply andb_false_r.
Qed.

Lemma mask_test (mode k mask : Z) (A : Type) (x y : A) :
  (0 <= k)%Z -> mask = (2 ^ k)%Z ->
  (if (Z.land mode mask =? 0)%Z then x else y)
  = if Z.testbit mode k then y else x.
Proof.
  intros Hk ->. rewrite land_pow2_testbit by assumption.
  now destruct (Z.testbit mode k).
Qed.

(** The nine characters the loop of [format_permissions] builds. *)
Lemma permission_letters (mode : Z) :
  fold_left (add_permission mode) PERMISSION_MASKS [] =
  [ if Z.testbit mode 8 then 114%N else 45%N;
    if Z.testbit mode 7 then 119%N else 45%N;
    if Z.testbit mode 6 then 120%N else 45%N;
    if Z.testbit mode 5 then 114%N else 45%N;
    if Z.testbit mode 4 then 119%N else 45%N;
    if Z.testbit mode 3 then 120%N else 45%N;
    if Z.testbit mode 2 then 114%N else 45%N;
    if Z.testbit mode 1 then 119%N else 45%N;
    if Z.testbit mode 0 then 120%N else 45%N ].
Proof.
  unfold PERMISSION_MASKS. cbn [fold_left]. unfold add_permission.
  cbn [app length].
  rewrite (mask_test mode 8 256), (mask_test mode 7 128), (mask_test mode 6 64),
    (mask_test mode 5 32), (mask_test mode 4 16), (mask_test mode 3 8),
    (mask_test mode 2 4), (mask_test mode 1 2), (mask_test mode 0 1)
    by (lia || reflexivity).
  reflexivity.
Qed.

(** X1. The permission string always has ten characters.  The first is
    [d] exactly for a directory mode, [l] exactly for a link mode and [-]
    otherwise; the character after it at position [i] is the letter of
    [rwxrwxrwx] at [i] when bit [8 - i] of the mode is set, and [-] when
    it is not. *)
Theorem format_permissions_bits (mode : Z) :
  length (format_permissions mode) = 10%nat /\
  (hd 0%N (format_permissions mode) = 100%N <-> S_IFMT mode = 16384%Z) /\
  (hd 0%N (format_permissions mode) = 108%N <-> S_IFMT mode = 40960%Z) /\
  (hd 0%N (format_permissions mode) = 45%N <->
   S_IFMT mode <> 16384%Z /\ S_IFMT mode <> 40960%Z) /\
  forall i, (i < 9)%nat ->
    nth (S i) (format_permissions mode) 0%N =
      if Z.testbit mode (Z.of_nat (8 - i))
      then nth i (lit "rwxrwxrwx") 0%N else 45%N.
Proof.
  unfold format_permissions. cbv zeta. rewrite permission_letters.
  unfold S_ISDIR, S_ISLNK.
  destruct (S_IFMT mode =? 16384)%Z eqn:D;
    [apply Z.eqb_eq in D | apply Z.eqb_neq in D];
    [|destruct (S_IFMT mode =? 40960)%Z eqn:L;
      [apply Z.eqb_eq in L | apply Z.eqb_neq in L]];
    cbn [lit app hd length].
  all: split; [reflexivity|].
  all: split; [split; (discriminate || congruence || tauto)|].
  all: split; [split; (discriminate || congruence || tauto)|].
  all: split; [split; (discriminate || congruence || tauto)|].
  all: intros i Hi;
    destruct i as [|[|[|[|[|[|[|[|[|i]]]]]]]]]; [..|lia]; reflexivity.
Qed.

(* ===================================================================== *)
(** ** The dialogs *)
(* ===================================================================== *)

Lemma lstrip_split (s : str) :
  exists pre, s = pre ++ lstrip s /\ forallb isspace pre = true.
Proof.
  induction s as [|c s (pre & E & Hpre)]; simpl.
  - now exists [].
  - destruct (isspace c) eqn:C.
    + exists (c :: pre). simpl. now rewrite C, Hpre, <- E.
    + now exists [].
Qed.

Lemma lstrip_head (s : str) (c : N) (rest : str) :
  lstrip s = c :: rest -> isspace c = false.
Proof.
  induction s as [|d s IH]; simpl; [discriminate|].
  destruct (isspace d) eqn:D; [exact IH|].
  intros E; injection E as <- _. exact D.
Qed.

Lemma lstrip_blank (s : str) : forallb isspace s = true -> lstrip s = [].
Proof.
  induction s as [|c s IH]; simpl; [reflexivity|].
  destruct (isspace c); [exact IH | discriminate].
Qed.

Lemma lstrip_fixed (s : str) :
  (forall c rest, s = c :: rest -> isspace c = false) -> lstrip s = s.
Proof.
  destruct s as [|c s]; simpl; [reflexivity|].
  intros Hs. now rewrite (Hs c s eq_refl).
Qed.

Lemma forallb_rev (A : Type) (p : A -> bool) (l : list A) :
  forallb p l = true -> forallb p (rev l) = true.
Proof.
  rewrite !forallb_forall. intros Hl x Hx. apply Hl. now apply in_rev.
Qed.

(** What [str.strip] returns: the text between two runs of white space,
    itself neither starting nor ending with white space. *)
Lemma strip_split (s : str) :
  (exists pre post,
      s = pre ++ strip s ++ post /\
      forallb isspace pre = true /\ forallb isspace post = true) /\
  (forall c rest, strip s = c :: rest -> isspace c = false) /\
  (forall c front, strip s = front ++ [c] -> isspace c = false).
Proof.
  unfold strip.
  destruct (lstrip_split s) as (pre & E & Hpre).
  destruct (lstrip_split (rev (lstrip s))) as (post & E' & Hpost).
  assert (Et : lstrip s = rev (lstrip (rev (lstrip s))) ++ rev post).
  { rewrite <- rev_app_distr, <- E'. now rewrite rev_involutive. }
  split; [|split].
  - exists pre, (rev post). split; [|split; [exact Hpre | now apply forallb_rev]].
    now rewrite <- Et.
  - intros c rest Ec. rewrite Ec in Et. simpl in Et.
    exact (lstrip_head _ _ _ Et).
  - intros c front Ec.
    apply (f_equal (@rev N)) in Ec. rewrite rev_involutive, rev_app_distr in Ec.
    simpl in Ec. exact (lstrip_head _ _ _ Ec).
Qed.

Lemma strip_blank (s : str) : forallb isspace s = true -> strip s = [].
Proof. intros Hs. unfold strip. now rewrite (lstrip_blank s Hs). Qed.

(** [strip] leaves a text alone exactly when white space neither starts
    nor ends it. *)
Lemma strip_fixed (s : str) :
  strip s = s <->
  (forall c rest, s = c :: rest -> isspace c = false) /\
  (forall c front, s = front ++ [c] -> isspace c = false).
Proof.
  split.
  - intros E. destruct (strip_split s) as (_ & Hh & Hl).
    rewrite E in Hh, Hl. now split.
  - intros [Hh Hl]. unfold strip. rewrite (lstrip_fixed s Hh).
    rewrite lstrip_fixed; [apply rev_involutive|].
    intros c rest Ec. apply (Hl c (rev rest)).
    rewrite <- (rev_involutive s), Ec. reflexivity.
Qed.

(** X2. Whatever way the input dialog is left, its result is [None] or
    the text of the field with the white space at both ends taken off:
    what was removed is white space only, and the result neither starts
    nor ends with a white space character. *)
Theorem input_dialog_result_stripped (value : str) (ev : InputDialog.event) (r : str) :
  InputDialog.dismissed value ev = Some r ->
  (exists pre post,
      value = pre ++ r ++ post /\
      forallb isspace pre = true /\ forallb isspace post = true) /\
  (forall c rest, r = c :: rest -> isspace c = false) /\
  (forall c front, r = front ++ [c] -> isspace c = false).
Proof.
  assert (Hs : Some (strip value) = Some r ->
               (exists pre post,
                   value = pre ++ r ++ post /\
                   forallb isspace pre = true /\ forallb isspace post = true) /\
               (forall c rest, r = c :: rest -> isspace c = false) /\
               (forall c front, r = front ++ [c] -> isspace c = false)).
  { intros E; injection E as <-. apply strip_split. }
  destruct ev as [button_id| |]; simpl.
  - unfold InputDialog.on_button_pressed.
    destruct (str_eqb button_id (lit "ok")); [exact Hs | discriminate].
  - exact Hs.
  - discriminate.
Qed.

(** The field holds [" a b" ] followed by a tab and the user presses
    Enter: the result is ["a b"]. *)
Lemma input_dialog_result_stripped_witness :
  (exists pre post,
      [32; 97; 32; 98; 9]%N = pre ++ [97; 32; 98]%N ++ post /\
      forallb isspace pre = true /\ forallb isspace post = true) /\
  (forall c rest, [97; 32; 98]%N = c :: rest -> isspace c = false) /\
  (forall c front, [97; 32; 98]%N = front ++ [c] -> isspace c = false).
Proof.
  apply (input_dialog_result_stripped [32; 97; 32; 98; 9]%N InputDialog.Submitted).
  vm_compute. reflexivity.
Defined.

(** The confirmation dialog answers yes in two ways only: the button
    whose id is [yes], and the key [y]. *)
Lemma confirm_dialog_yes (ev : ConfirmDialog.event) :
  ConfirmDialog.dismissed ev = true <->
  ev = ConfirmDialog.Pressed (lit "yes") \/ ev = ConfirmDialog.KeyY.
Proof.
  destruct ev as [button_id| | |]; simpl;
    unfold ConfirmDialog.key_y, ConfirmDialog.key_n, ConfirmDialog.key_escape.
  - unfold ConfirmDialog.on_button_pressed, str_eqb.
    destruct (str_eq_dec button_id (lit "yes")) as [->|N].
    + split; auto.
    + split; [discriminate|]. intros [E|E]; [injection E as E; contradiction | discriminate].
  - split; auto.
  - split; [discriminate|]. intros [E|E]; discriminate.
  - split; [discriminate|]. intros [E|E]; discriminate.
Qed.

(* ===================================================================== *)
(** ** The exact state after the helpers of [Explorer] *)
(* ===================================================================== *)

Section ExactRuns.
Context `{Host}.
Import Explorer.

Lemma update_preview_exact (s : t) (sel : option Path) :
  FileList.selected_path (disk s) (file_list s) = Ok sel ->
  _update_preview s
  = (with_preview_pane (PreviewPane.mk sel (show_hidden s)) s, Ok tt).
Proof.
  intros E. unfold _update_preview, selected_path.
  rewrite bind_modify, bind_lift. cbn [with_preview_pane disk file_list].
  rewrite E. reflexivity.
Qed.

Lemma update_preview_inv (s s' : t) :
  _update_preview s = (s', Ok tt) ->
  exists sel,
    FileList.selected_path (disk s) (file_list s) = Ok sel /\
    s' = with_preview_pane (PreviewPane.mk sel (show_hidden s)) s.
Proof.
  destruct (FileList.selected_path (disk s) (file_list s)) as [sel|e] eqn:E.
  - rewrite (update_preview_exact s sel E). intros R; injection R as <-. eauto.
  - unfold _update_preview, selected_path.
    rewrite bind_modify, bind_lift. cbn [with_preview_pane disk file_list].
    rewrite E. discriminate.
Qed.

Lemma set_cursor_then_update_exact (c : Z) (s : t) (sel : option Path) :
  FileList.selected_path (disk s) (FileList.with_cursor c (file_list s)) = Ok sel ->
  bind (set_cursor c) (fun _ => _update_preview) s = (moved c sel s, Ok tt).
Proof.
  intros E. unfold set_cursor. rewrite bind_modify.
  rewrite (update_preview_exact _ sel); [reflexivity | exact E].
Qed.

Lemma set_cursor_then_update_inv (c : Z) (s s' : t) :
  bind (set_cursor c) (fun _ => _update_preview) s = (s', Ok tt) ->
  exists sel,
    FileList.selected_path (disk s) (FileList.with_cursor c (file_list s)) = Ok sel /\
    s' = moved c sel s.
Proof.
  unfold set_cursor. rewrite bind_modify. intros E.
  apply update_preview_inv in E. destruct E as (sel & E & ->). eauto.
Qed.

Lemma sync_all_exact (s : t) (entries : list Path) (sel : option Path) :
  FileList.get_entries (disk s) (synced_file_list s) = Ok entries ->
  FileList.selected_path (disk s) (synced_file_list s) = Ok sel ->
  _sync_all s = (synced_state s entries sel, Ok tt).
Proof.
  intros G Sel. unfold _sync_all. rewrite !bind_modify.
  erewrite bind_run; [|apply (update_preview_exact _ sel); exact Sel].
  unfold get_entries. rewrite bind_lift.
  cbn [with_preview_pane with_file_list with_parent_pane disk file_list
       current_dir show_hidden parent_pane ParentPane.current_dir
       ParentPane.show_hidden].
  fold (synced_file_list s). rewrite G, bind_get, bind_lift.
  cbn [with_preview_pane with_file_list with_parent_pane disk].
  rewrite (dirs_among_entries _ _ _ G). reflexivity.
Qed.

Lemma sync_all_inv (s s' : t) :
  _sync_all s = (s', Ok tt) ->
  exists entries sel,
    FileList.get_entries (disk s) (synced_file_list s) = Ok entries /\
    FileList.selected_path (disk s) (synced_file_list s) = Ok sel /\
    s' = synced_state s entries sel.
Proof.
  intros E.
  destruct (sync_all_listable _ _ E) as [entries G].
  destruct (sync_all_frame _ _ _ E) as [(Ed & _) F].
  rewrite Ed, F in G.
  destruct (selected_path_ok _ _ _ G) as [sel Sel].
  rewrite (sync_all_exact s entries sel G Sel) in E. injection E as <-. eauto.
Qed.

Lemma synced_state_consistent (s : t) (entries : list Path) (sel : option Path) :
  FileList.get_entries (disk s) (synced_file_list s) = Ok entries ->
  FileList.selected_path (disk s) (synced_file_list s) = Ok sel ->
  consistent (synced_state s entries sel).
Proof. intros G Sel. exists entries, sel. now repeat split. Qed.

Lemma sync_all_consistent (s s' : t) :
  _sync_all s = (s', Ok tt) -> consistent s'.
Proof.
  intros E. apply sync_all_inv in E. destruct E as (entries & sel & G & Sel & ->).
  now apply synced_state_consistent.
Qed.

(** Moving the cursor and refreshing the preview keeps the panes right. *)
Lemma moved_consistent (c : Z) (s : t) (sel : option Path) :
  consistent s ->
  FileList.selected_path (disk s) (FileList.with_cursor c (file_list s)) = Ok sel ->
  consistent (moved c sel s).
Proof.
  intros (entries & sel0 & G & _ & Hp & _ & Hb) Sel.
  exists entries, sel. now repeat split.
Qed.

Lemma set_cursor_then_update_consistent (c : Z) (s s' : t) :
  consistent s ->
  bind (set_cursor c) (fun _ => _update_preview) s = (s', Ok tt) ->
  consistent s'.
Proof.
  intros HC E. apply set_cursor_then_update_inv in E.
  destruct E as (sel & Sel & ->). now apply moved_consistent.
Qed.

Lemma set_current_dir_consistent (d : Path) (s s' : t) :
  consistent s -> set_current_dir d s = (s', Ok tt) -> consistent s'.
Proof.
  intros HC. unfold set_current_dir. rewrite bind_get.
  destruct (path_eq_dec _ _).
  - intros E; injection E as <-. exact HC.
  - rewrite bind_modify. apply sync_all_consistent.
Qed.

Lemma place_cursor_consistent (old : Path) (entries : list Path) (i : Z) (s s' : t) :
  consistent s -> place_cursor old i entries s = (s', Ok tt) -> consistent s'.
Proof.
  intros HC. revert i. induction entries as [|e rest IH]; simpl; intros i.
  - intros E; injection E as <-. exact HC.
  - destruct (path_eq_dec e old);
      [now apply set_cursor_then_update_consistent | apply IH].
Qed.

Lemma refresh_view_consistent (s s' : t) :
  _refresh_view s = (s', Ok tt) -> consistent s'.
Proof.
  unfold _refresh_view. intros E.
  apply bind_ok in E. destruct E as (s1 & [] & E1 & E).
  apply sync_all_consistent in E1.
  apply bind_ok in E. destruct E as (s2 & entries & E2 & E).
  unfold get_entries, lift in E2. injection E2 as <- _.
  rewrite bind_get in E.
  destruct (_ >=? _)%Z.
  - now apply set_cursor_then_update_consistent in E.
  - rewrite (bind_run _ _ _ _ _ _ _ _ (eq_refl : ret tt s1 = (s1, Ok tt))) in E.
    apply update_preview_inv in E. destruct E as (sel & Sel & ->).
    destruct E1 as (entries1 & sel0 & G & _ & Hp & _ & Hb).
    exists entries1, sel. now repeat split.
Qed.

Lemma host_then_refresh_consistent (c : call) (op : fs -> fs * result unit) (s s' : t) :
  bind (host_call c op) (fun _ => _refresh_view) s = (s', Ok tt) -> consistent s'.
Proof.
  intros E. apply bind_ok in E. destruct E as (s1 & [] & _ & E).
  now apply refresh_view_consistent in E.
Qed.

(** Every handled key leaves the panes right. *)
Lemma run_consistent (a : action) (s s' : t) :
  consistent s -> run a s = (s', Ok tt) -> consistent s'.
Proof.
  intros HC. destruct a as [| | | | | | | |answer|answer|confirmed]; simpl.
  - unfold action_cursor_down, get_entries. rewrite bind_lift.
    destruct (FileList.get_entries (disk s) (file_list s)); [|discriminate].
    rewrite bind_get. destruct (_ <? _)%Z.
    + now apply set_cursor_then_update_consistent.
    + intros E; injection E as <-. exact HC.
  - unfold action_cursor_up. rewrite bind_get. destruct (_ >? _)%Z.
    + now apply set_cursor_then_update_consistent.
    + intros E; injection E as <-. exact HC.
  - unfold action_enter_dir, selected_path. rewrite bind_lift.
    destruct (FileList.selected_path (disk s) (file_list s)) as [[sel|]|e];
      try discriminate.
    + rewrite bind_lift. destruct (is_dir (disk s) sel) as [[]|]; try discriminate;
        [now apply set_current_dir_consistent|].
      intros E; injection E as <-. exact HC.
    + intros E; injection E as <-. exact HC.
  - unfold action_parent_dir. rewrite bind_get. destruct (path_eq_dec _ _).
    + intros E; injection E as <-. exact HC.
    + intros E. apply bind_ok in E. destruct E as (s1 & [] & E1 & E2).
      apply set_current_dir_consistent in E1; [|exact HC].
      apply bind_ok in E2. destruct E2 as (s2 & entries & E2 & E3).
      unfold get_entries, lift in E2. injection E2 as <- _.
      now apply place_cursor_consistent in E3.
  - now apply set_cursor_then_update_consistent.
  - unfold action_go_bottom, get_entries. rewrite bind_lift.
    destruct (FileList.get_entries (disk s) (file_list s)) as [[|e l]|e];
      try discriminate.
    + intros E; injection E as <-. exact HC.
    + now apply set_cursor_then_update_consistent.
  - now apply set_current_dir_consistent.
  - unfold action_toggle_hidden. rewrite bind_modify. apply sync_all_consistent.
  - unfold action_create. destruct answer as [name|].
    + destruct (truthy name).
      * rewrite bind_get. destruct (endswith _ _);
          apply host_then_refresh_consistent.
      * intros E; injection E as <-. exact HC.
    + intros E; injection E as <-. exact HC.
  - unfold action_rename, selected_path. rewrite bind_lift.
    destruct (FileList.selected_path (disk s) (file_list s)) as [[sel|]|e];
      try discriminate.
    + destruct answer as [new_name|].
      * destruct (_ && _).
        -- rewrite bind_get. apply host_then_refresh_consistent.
        -- intros E; injection E as <-. exact HC.
      * intros E; injection E as <-. exact HC.
    + intros E; injection E as <-. exact HC.
  - unfold action_delete, selected_path. rewrite bind_lift.
    destruct (FileList.selected_path (disk s) (file_list s)) as [[sel|]|e];
      try discriminate.
    + destruct confirmed.
      * rewrite bind_lift. destruct (is_dir _ _) as [[]|]; try discriminate;
          apply host_then_refresh_consistent.
      * intros E; injection E as <-. exact HC.
    + intros E; injection E as <-. exact HC.
Qed.

Lemma reachable_consistent (s : t) : reachable s -> consistent s.
Proof.
  induction 1 as [f cwd s E | a s s' _ IH E].
  - unfold on_mount in E. now apply sync_all_consistent in E.
  - eapply run_consistent; eauto.
Qed.
End ExactRuns.

(* ===================================================================== *)
(** ** The panes follow the state *)
(* ===================================================================== *)

Section Panes.
Context `{Host}.
Import Explorer.

Lemma filter_split_length (A : Type) (p : A -> bool) (l : list A) :
  (len l - len (filter p l))%Z = len (filter (fun x => negb (p x)) l).
Proof.
  unfold len. induction l as [|x l IH]; [reflexivity|].
  cbn [filter]. destruct (p x); cbn [negb length]; lia.
Qed.

(** X3. In every state of a session the side panes and the status bar
    show the state they were last synchronized with: the parent pane has
    the current directory and the hidden flag, the preview has the entry
    under the cursor and the hidden flag, and the status bar has the
    current directory together with the number of directories and the
    number of other entries of the listing of the main pane. *)
Theorem panes_follow_state (s : t) :
  reachable s ->
  parent_pane s = ParentPane.mk (current_dir s) (show_hidden s) /\
  FileList.current_dir (file_list s) = current_dir s /\
  FileList.show_hidden (file_list s) = show_hidden s /\
  exists entries sel,
    FileList.get_entries (disk s) (file_list s) = Ok entries /\
    FileList.selected_path (disk s) (file_list s) = Ok sel /\
    preview_pane s = PreviewPane.mk sel (show_hidden s) /\
    StatusBar.text (status_bar s)
    = Some {| StatusBar.shown_dir := current_dir s;
              StatusBar.count_dirs := len (filter (directory (disk s)) entries);
              StatusBar.count_files := len (filter (is_file (disk s)) entries) |}.
Proof.
  intros HR.
  destruct (reachable_valid s HR) as [_ [Ed Eh]].
  destruct (reachable_consistent s HR) as (entries & sel & G & Sel & Hp & Hv & Hb).
  split; [exact Hp|]. split; [exact Ed|]. split; [exact Eh|].
  exists entries, sel. split; [exact G|]. split; [exact Sel|]. split; [exact Hv|].
  rewrite Hb. unfold status_of. simpl.
  rewrite filter_split_length. do 3 f_equal.
  pose proof (get_entries_tested _ _ _ G) as HT.
  clear -HT. induction HT as [|e l He _ IH]; simpl; [reflexivity|].
  rewrite (proj2 (tested_kind _ e He)), IH. reflexivity.
Qed.
End Panes.

(** The session on the scenario directory after the deletion of [b.txt]:
    one directory and one file are left, and the preview is on the file
    [.hidden], where the cursor was clamped to. *)
Lemma panes_follow_state_witness :
  Explorer.parent_pane after_delete
  = ParentPane.mk (Explorer.current_dir after_delete)
                  (Explorer.show_hidden after_delete) /\
  FileList.current_dir (Explorer.file_list after_delete)
  = Explorer.current_dir after_delete /\
  FileList.show_hidden (Explorer.file_list after_delete)
  = Explorer.show_hidden after_delete /\
  exists entries sel,
    FileList.get_entries (Explorer.disk after_delete)
      (Explorer.file_list after_delete) = Ok entries /\
    FileList.selected_path (Explorer.disk after_delete)
      (Explorer.file_list after_delete) = Ok sel /\
    Explorer.preview_pane after_delete
    = PreviewPane.mk sel (Explorer.show_hidden after_delete) /\
    StatusBar.text (Explorer.status_bar after_delete)
    = Some {| StatusBar.shown_dir := Explorer.current_dir after_delete;
              StatusBar.count_dirs :=
                len (filter (directory (Explorer.disk after_delete)) entries);
              StatusBar.count_files :=
                len (filter (is_file (Explorer.disk after_delete)) entries) |}.
Proof.
  exact (panes_follow_state (H := disk_host) after_delete after_delete_reachable).
Defined.

(* ===================================================================== *)
(** ** The cursor on an empty listing *)
(* ===================================================================== *)

Section RestsAtTop.
Context `{Host}.
Import Explorer.

Lemma synced_cursor_zero (s : t) :
  FileList.cursor (file_list s) = 0%Z ->
  FileList.cursor (synced_file_list s) = 0%Z.
Proof.
  unfold synced_file_list, FileList.set_show_hidden, FileList.set_current_dir.
  destruct (path_eq_dec _ _), (Bool.eqb _ _); simpl; auto.
Qed.

Lemma synced_after_toggle (s : t) :
  in_sync s ->
  synced_file_list (with_show_hidden (negb (show_hidden s)) s)
  = FileList.mk (current_dir s) 0 (negb (show_hidden s)).
Proof.
  intros [Ed Eh].
  unfold synced_file_list, FileList.set_show_hidden, FileList.set_current_dir; simpl.
  destruct (path_eq_dec _ _) as [_|N]; [|congruence].
  rewrite Eh.
  destruct (show_hidden s); simpl;
    unfold FileList.watch_show_hidden, FileList.with_cursor; simpl;
    now rewrite Ed.
Qed.

Lemma synced_unchanged (s : t) : in_sync s -> synced_file_list s = file_list s.
Proof.
  intros [Ed Eh].
  unfold synced_file_list, FileList.set_show_hidden, FileList.set_current_dir.
  destruct (path_eq_dec _ _) as [_|N]; [|congruence].
  now rewrite Eh, eqb_reflx.
Qed.

Lemma set_current_dir_rests (d : Path) (s s' : t) :
  in_sync s -> rests_at_top s ->
  set_current_dir d s = (s', Ok tt) -> rests_at_top s'.
Proof.
  intros HS HT E. apply set_current_dir_frame in E.
  destruct E as (_ & _ & _ & [[_ ->] | (N & _ & F)]); [exact HT|].
  unfold rests_at_top. rewrite F, (synced_after_move d s HS N). reflexivity.
Qed.

Lemma refresh_view_rests (s s' : t) :
  (0 <= FileList.cursor (file_list s))%Z ->
  _refresh_view s = (s', Ok tt) -> rests_at_top s'.
Proof.
  unfold _refresh_view. intros Hc E.
  apply bind_ok in E. destruct E as (s1 & [] & E1 & E2).
  apply sync_all_frame in E1. destruct E1 as [_ F1].
  assert (Hc1 : (0 <= FileList.cursor (file_list s1))%Z)
    by (rewrite F1; now apply synced_cursor_nonneg).
  unfold get_entries in E2. rewrite bind_lift in E2.
  destruct (FileList.get_entries (disk s1) (file_list s1)) as [entries|e] eqn:G;
    [|discriminate].
  rewrite bind_get in E2. apply bind_ok in E2. destruct E2 as (s2 & [] & E2 & E3).
  apply update_preview_frame in E3. destruct E3 as [(Ed & _) F3].
  unfold rests_at_top. rewrite F3, Ed.
  destruct (FileList.cursor (file_list s1) >=? len entries)%Z eqn:C;
    injection E2 as <-; simpl.
  - rewrite get_entries_with_cursor, G. intros E'; injection E' as ->. reflexivity.
  - rewrite G. intros E'; injection E' as ->. unfold len in C. simpl in C. lia.
Qed.

Lemma host_then_refresh_rests (c : call) (op : fs -> fs * result unit) (s s' : t) :
  (0 <= FileList.cursor (file_list s))%Z ->
  bind (host_call c op) (fun _ => _refresh_view) s = (s', Ok tt) -> rests_at_top s'.
Proof.
  intros Hc E. apply bind_ok in E. destruct E as (s1 & [] & E1 & E2).
  apply (refresh_view_rests s1); [|exact E2].
  unfold host_call in E1. destruct (op (disk s)) as [f' r'].
  injection E1 as <- _. exact Hc.
Qed.

Lemma with_cursor_rests (c : Z) (s s' : t) :
  (FileList.get_entries (disk s) (file_list s) = Ok [] -> c = 0%Z) ->
  same_place s s' ->
  file_list s' = FileList.with_cursor c (file_list s) ->
  rests_at_top s'.
Proof.
  intros Hc (Ed & _) F. unfold rests_at_top.
  rewrite F, Ed, get_entries_with_cursor. exact Hc.
Qed.

Lemma run_rests (a : action) (s s' : t) :
  valid s -> rests_at_top s -> run a s = (s', Ok tt) -> rests_at_top s'.
Proof.
  intros [[Hc HR] HS] HT.
  destruct a as [| | | | | | | |answer|answer|confirmed]; simpl.
  - unfold action_cursor_down, get_entries. rewrite bind_lift.
    destruct (FileList.get_entries (disk s) (file_list s)) as [entries|e] eqn:G;
      [|discriminate].
    rewrite bind_get.
    destruct (FileList.cursor (file_list s) <? len entries - 1)%Z eqn:C.
    + intros E. apply set_cursor_then_update in E. destruct E as [P F].
      refine (with_cursor_rests _ s s' _ P F).
      rewrite G. intros E'; injection E' as ->. unfold len in C; simpl in C. lia.
    + intros E; injection E as <-. exact HT.
  - unfold action_cursor_up. rewrite bind_get.
    destruct (FileList.cursor (file_list s) >? 0)%Z eqn:C.
    + intros E. apply set_cursor_then_update in E. destruct E as [P F].
      refine (with_cursor_rests _ s s' _ P F).
      intros E'. specialize (HT E'). lia.
    + intros E; injection E as <-. exact HT.
  - unfold action_enter_dir, selected_path. rewrite bind_lift.
    destruct (FileList.selected_path (disk s) (file_list s)) as [[sel|]|e];
      try discriminate.
    + rewrite bind_lift. destruct (is_dir (disk s) sel) as [[]|]; try discriminate;
        [now apply set_current_dir_rests|].
      intros E; injection E as <-. exact HT.
    + intros E; injection E as <-. exact HT.
  - unfold action_parent_dir. rewrite bind_get. destruct (path_eq_dec _ _).
    + intros E; injection E as <-. exact HT.
    + intros E. apply bind_ok in E. destruct E as (s1 & [] & E1 & E2).
      apply set_current_dir_rests in E1; auto.
      unfold get_entries in E2. rewrite bind_lift in E2.
      destruct (FileList.get_entries (disk s1) (file_list s1)) as [entries|e] eqn:G;
        [|discriminate].
      apply place_cursor_run in E2. destruct E2 as [P F].
      destruct (index_from (current_dir s) 0 entries) as [j|] eqn:I.
      * refine (with_cursor_rests _ s1 s' _ P F).
        rewrite G. intros E'; injection E' as ->. discriminate.
      * destruct P as (Ed & _). unfold rests_at_top. now rewrite F, Ed.
  - intros E. apply set_cursor_then_update in E. destruct E as [P F].
    now refine (with_cursor_rests _ s s' _ P F).
  - unfold action_go_bottom, get_entries. rewrite bind_lift.
    destruct (FileList.get_entries (disk s) (file_list s)) as [[|e entries]|e] eqn:G;
      try discriminate.
    + intros E; injection E as <-. exact HT.
    + intros E. apply set_cursor_then_update in E. destruct E as [P F].
      refine (with_cursor_rests _ s s' _ P F). rewrite G. discriminate.
  - now apply set_current_dir_rests.
  - unfold action_toggle_hidden. rewrite bind_modify. intros E.
    apply sync_all_frame in E. destruct E as [_ F].
    unfold rests_at_top. rewrite F, (synced_after_toggle s HS). reflexivity.
  - unfold action_create. destruct answer as [name|].
    + destruct (truthy name).
      * rewrite bind_get. destruct (endswith _ _);
          apply host_then_refresh_rests; assumption.
      * intros E; injection E as <-. exact HT.
    + intros E; injection E as <-. exact HT.
  - unfold action_rename, selected_path. rewrite bind_lift.
    destruct (FileList.selected_path (disk s) (file_list s)) as [[sel|]|e];
      try discriminate.
    + destruct answer as [new_name|].
      * destruct (_ && _).
        -- rewrite bind_get. apply host_then_refresh_rests; assumption.
        -- intros E; injection E as <-. exact HT.
      * intros E; injection E as <-. exact HT.
    + intros E; injection E as <-. exact HT.
  - unfold action_delete, selected_path. rewrite bind_lift.
    destruct (FileList.selected_path (disk s) (file_list s)) as [[sel|]|e];
      try discriminate.
    + destruct confirmed.
      * rewrite bind_lift. destruct (is_dir _ _) as [[]|]; try discriminate;
          apply host_then_refresh_rests; assumption.
      * intros E; injection E as <-. exact HT.
    + intros E; injection E as <-. exact HT.
Qed.

Lemma reachable_rests (s : t) : reachable s -> rests_at_top s.
Proof.
  induction 1 as [f cwd s E | a s s' HR IH E].
  - unfold on_mount in E. apply sync_all_frame in E. destruct E as [_ F].
    unfold rests_at_top. rewrite F. intros _.
    now apply synced_cursor_zero.
  - eapply run_rests; eauto using reachable_valid.
Qed.

(** The cursor of a session state, whatever its listing. *)
Lemma reachable_cursor (s : t) (entries : list Path) :
  reachable s ->
  FileList.get_entries (disk s) (file_list s) = Ok entries ->
  (0 <= FileList.cursor (file_list s) <= Z.max 0 (len entries - 1))%Z.
Proof.
  intros HR G. destruct (reachable_valid s HR) as [[Hc Hlt] _].
  pose proof (reachable_rests s HR) as HT. unfold rests_at_top in HT.
  destruct entries as [|e entries].
  - rewrite (HT G). unfold len; simpl. lia.
  - specialize (Hlt _ G). assert (Hne : e :: entries <> []) by discriminate.
    specialize (Hlt Hne). lia.
Qed.
End RestsAtTop.

(* ===================================================================== *)
(** ** Moving the cursor *)
(* ===================================================================== *)

Section CursorMoves.
Context `{Host}.
Import Explorer.

Lemma selected_at (f : fs) (fl : FileList.t) (entries : list Path) :
  FileList.get_entries f fl = Ok entries ->
  FileList.selected_path f fl = Ok (entry_at entries (FileList.cursor fl)).
Proof.
  unfold FileList.selected_path, entry_at. intros ->.
  now destruct (_ && _).
Qed.

Lemma moved_self (s : t) (entries : list Path) :
  consistent s ->
  FileList.get_entries (disk s) (file_list s) = Ok entries ->
  moved (FileList.cursor (file_list s))
        (entry_at entries (FileList.cursor (file_list s))) s = s.
Proof.
  intros (entries' & sel & _ & Sel & _ & Hv & _) G.
  rewrite (selected_at _ _ _ G) in Sel. injection Sel as <-.
  destruct s as [d c cd sh pp [fd fc fh] pv sb]. simpl in *.
  unfold moved, with_preview_pane, with_file_list, FileList.with_cursor. simpl.
  now rewrite Hv.
Qed.

Lemma moved_moved (c c' : Z) (sel sel' : option Path) (s : t) :
  moved c' sel' (moved c sel s) = moved c' sel' s.
Proof. reflexivity. Qed.

(** [fl.cursor = c'; self._update_preview()] from a state with the cursor
    on line [c] of [entries]. *)
Lemma move_at (base : t) (entries : list Path) (c c' : Z) :
  FileList.get_entries (disk base) (file_list base) = Ok entries ->
  bind (set_cursor c') (fun _ => _update_preview)
       (moved c (entry_at entries c) base)
  = (moved c' (entry_at entries c') base, Ok tt).
Proof.
  intros G.
  rewrite (set_cursor_then_update_exact c' _ (entry_at entries c')).
  - reflexivity.
  - apply (selected_at (disk base)
             (FileList.with_cursor c' (FileList.with_cursor c (file_list base)))).
    exact G.
Qed.

Lemma down_at (base : t) (entries : list Path) (c : Z) :
  FileList.get_entries (disk base) (file_list base) = Ok entries ->
  action_cursor_down (moved c (entry_at entries c) base)
  = (let c' := if (c <? len entries - 1)%Z then (c + 1)%Z else c in
     moved c' (entry_at entries c') base, Ok tt).
Proof.
  intros G. unfold action_cursor_down, get_entries. rewrite bind_lift.
  change (FileList.get_entries (disk (moved c (entry_at entries c) base))
            (file_list (moved c (entry_at entries c) base)))
    with (FileList.get_entries (disk base) (file_list base)).
  rewrite G, bind_get.
  change (FileList.cursor (file_list (moved c (entry_at entries c) base))) with c.
  cbv zeta. destruct (c <? len entries - 1)%Z; [|reflexivity].
  now apply move_at.
Qed.

Lemma up_at (base : t) (entries : list Path) (c : Z) :
  FileList.get_entries (disk base) (file_list base) = Ok entries ->
  action_cursor_up (moved c (entry_at entries c) base)
  = (let c' := if (c >? 0)%Z then (c - 1)%Z else c in
     moved c' (entry_at entries c') base, Ok tt).
Proof.
  intros G. unfold action_cursor_up. rewrite bind_get.
  change (FileList.cursor (file_list (moved c (entry_at entries c) base))) with c.
  cbv zeta. destruct (c >? 0)%Z; [|reflexivity].
  now apply move_at.
Qed.

Lemma downs_at (base : t) (entries : list Path) (n : nat) (c : Z) :
  FileList.get_entries (disk base) (file_list base) = Ok entries ->
  run_keys (repeat CursorDown n) (moved c (entry_at entries c) base)
  = (let c' := Z.max c (Z.min (c + Z.of_nat n) (len entries - 1)) in
     moved c' (entry_at entries c') base, Ok tt).
Proof.
  intros G. revert c. induction n as [|n IH]; intros c; cbv zeta.
  - replace (Z.max c (Z.min (c + Z.of_nat 0) (len entries - 1))) with c by lia.
    reflexivity.
  - cbn [repeat run_keys run].
    rewrite (bind_run _ _ _ _ _ _ _ _ (down_at base entries c G)).
    cbv zeta. rewrite IH. cbv zeta.
    destruct (c <? len entries - 1)%Z eqn:C;
      [apply Z.ltb_lt in C | apply Z.ltb_ge in C].
    + replace (Z.max (c + 1) (Z.min (c + 1 + Z.of_nat n) (len entries - 1)))
        with (Z.max c (Z.min (c + Z.of_nat (S n)) (len entries - 1))) by lia.
      reflexivity.
    + replace (Z.max c (Z.min (c + Z.of_nat n) (len entries - 1)))
        with (Z.max c (Z.min (c + Z.of_nat (S n)) (len entries - 1))) by lia.
      reflexivity.
Qed.

Lemma ups_at (base : t) (entries : list Path) (n : nat) (c : Z) :
  FileList.get_entries (disk base) (file_list base) = Ok entries ->
  run_keys (repeat CursorUp n) (moved c (entry_at entries c) base)
  = (let c' := Z.min c (Z.max (c - Z.of_nat n) 0) in
     moved c' (entry_at entries c') base, Ok tt).
Proof.
  intros G. revert c. induction n as [|n IH]; intros c; cbv zeta.
  - replace (Z.min c (Z.max (c - Z.of_nat 0) 0)) with c by lia.
    reflexivity.
  - cbn [repeat run_keys run].
    rewrite (bind_run _ _ _ _ _ _ _ _ (up_at base entries c G)).
    cbv zeta. rewrite IH. cbv zeta.
    destruct (c >? 0)%Z eqn:C;
      [apply Z.gtb_lt in C | rewrite Z.gtb_ltb in C; apply Z.ltb_ge in C].
    + replace (Z.min (c - 1) (Z.max (c - 1 - Z.of_nat n) 0))
        with (Z.min c (Z.max (c - Z.of_nat (S n)) 0)) by lia.
      reflexivity.
    + replace (Z.min c (Z.max (c - Z.of_nat n) 0))
        with (Z.min c (Z.max (c - Z.of_nat (S n)) 0)) by lia.
      reflexivity.
Qed.
End CursorMoves.

Section CursorKeys.
Context `{Host}.
Import Explorer.

Lemma go_bottom_exact (s : t) (entries : list Path) :
  consistent s ->
  FileList.get_entries (disk s) (file_list s) = Ok entries ->
  (entries = [] -> FileList.cursor (file_list s) = 0%Z) ->
  action_go_bottom s
  = (let c' := Z.max 0 (len entries - 1) in
     moved c' (entry_at entries c') s, Ok tt).
Proof.
  intros HC G HT. unfold action_go_bottom, get_entries. rewrite bind_lift, G.
  cbv zeta. destruct entries as [|e entries].
  - pose proof (moved_self s [] HC G) as E. rewrite (HT eq_refl) in E.
    change (Z.max 0 (len [] - 1)) with 0%Z. now rewrite E.
  - replace (Z.max 0 (len (e :: entries) - 1)) with (len (e :: entries) - 1)%Z
      by (unfold len; simpl length; lia).
    apply set_cursor_then_update_exact.
    now apply (selected_at (disk s)
                 (FileList.with_cursor (len (e :: entries) - 1) (file_list s))).
Qed.

(** X4. Pressing the down key [n] times from a state of a session moves
    the cursor [n] lines down, stopping on the last line of the listing;
    with as many presses as the listing has entries the state reached is
    the very state the go-to-bottom key gives. *)
Theorem repeated_down_reaches_bottom (s : t) (entries : list Path) (n : nat) :
  reachable s ->
  FileList.get_entries (disk s) (file_list s) = Ok entries ->
  exists s',
    run_keys (repeat CursorDown n) s = (s', Ok tt) /\
    FileList.cursor (file_list s')
    = Z.min (FileList.cursor (file_list s) + Z.of_nat n)
            (Z.max 0 (len entries - 1)) /\
    FileList.selected_path (disk s') (file_list s')
    = Ok (entry_at entries (FileList.cursor (file_list s'))) /\
    ((length entries <= n)%nat -> action_go_bottom s = (s', Ok tt)).
Proof.
  intros HR G.
  pose proof (reachable_consistent s HR) as HC.
  pose proof (reachable_cursor s entries HR G) as Hc.
  pose proof (downs_at s entries n (FileList.cursor (file_list s)) G) as D.
  rewrite (moved_self s entries HC G) in D. cbv zeta in D.
  eexists. split; [exact D|].
  assert (Ec : Z.max (FileList.cursor (file_list s))
                 (Z.min (FileList.cursor (file_list s) + Z.of_nat n)
                    (len entries - 1))
               = Z.min (FileList.cursor (file_list s) + Z.of_nat n)
                   (Z.max 0 (len entries - 1))) by (unfold len in *; lia).
  split; [exact Ec|]. split.
  - now apply (selected_at (disk s)
                 (FileList.with_cursor _ (file_list s))).
  - intros Hn. rewrite (go_bottom_exact s entries HC G).
    + cbv zeta.
      replace (Z.max 0 (len entries - 1))
        with (Z.max (FileList.cursor (file_list s))
                (Z.min (FileList.cursor (file_list s) + Z.of_nat n)
                   (len entries - 1))) by (unfold len in *; lia).
      reflexivity.
    + intros ->. unfold len in Hc. simpl in Hc. lia.
Qed.

(** X5. Pressing the up key [n] times from a state of a session moves the
    cursor [n] lines up, stopping on line 0; with at least as many presses
    as the cursor's line number the state reached is the very state the
    go-to-top key gives. *)
Theorem repeated_up_reaches_top (s : t) (entries : list Path) (n : nat) :
  reachable s ->
  FileList.get_entries (disk s) (file_list s) = Ok entries ->
  exists s',
    run_keys (repeat CursorUp n) s = (s', Ok tt) /\
    FileList.cursor (file_list s')
    = Z.max 0 (FileList.cursor (file_list s) - Z.of_nat n) /\
    FileList.selected_path (disk s') (file_list s')
    = Ok (entry_at entries (FileList.cursor (file_list s'))) /\
    ((FileList.cursor (file_list s) <= Z.of_nat n)%Z ->
     action_go_top s = (s', Ok tt)).
Proof.
  intros HR G.
  pose proof (reachable_consistent s HR) as HC.
  pose proof (reachable_cursor s entries HR G) as Hc.
  pose proof (ups_at s entries n (FileList.cursor (file_list s)) G) as D.
  rewrite (moved_self s entries HC G) in D. cbv zeta in D.
  eexists. split; [exact D|].
  assert (Ec : Z.min (FileList.cursor (file_list s))
                 (Z.max (FileList.cursor (file_list s) - Z.of_nat n) 0)
               = Z.max 0 (FileList.cursor (file_list s) - Z.of_nat n)) by lia.
  split; [exact Ec|]. split.
  - now apply (selected_at (disk s)
                 (FileList.with_cursor _ (file_list s))).
  - intros Hn. unfold action_go_top.
    rewrite (set_cursor_then_update_exact 0 s (entry_at entries 0)).
    + replace (Z.min (FileList.cursor (file_list s))
                 (Z.max (FileList.cursor (file_list s) - Z.of_nat n) 0))
        with 0%Z by lia.
      reflexivity.
    + now apply (selected_at (disk s) (FileList.with_cursor 0 (file_list s))).
Qed.

(** X6. In a state of a session, a press of the down key that moves the
    cursor is undone by the up key, and a press of the up key that moves
    the cursor is undone by the down key: the state is the one before,
    preview included. *)
Theorem cursor_down_up_round_trip (s : t) (entries : list Path) :
  reachable s ->
  FileList.get_entries (disk s) (file_list s) = Ok entries ->
  ((FileList.cursor (file_list s) < len entries - 1)%Z ->
   run_keys [CursorDown; CursorUp] s = (s, Ok tt)) /\
  ((0 < FileList.cursor (file_list s))%Z ->
   run_keys [CursorUp; CursorDown] s = (s, Ok tt)).
Proof.
  intros HR G.
  pose proof (reachable_consistent s HR) as HC.
  pose proof (reachable_cursor s entries HR G) as Hc.
  set (c := FileList.cursor (file_list s)) in *.
  pose proof (moved_self s entries HC G) as Es. fold c in Es.
  split; intros Hm; cbn [run_keys run].
  - pose proof (down_at s entries c G) as D. cbv zeta in D.
    rewrite (proj2 (Z.ltb_lt _ _) Hm), Es in D.
    rewrite (bind_run _ _ _ _ _ _ _ _ D).
    pose proof (up_at s entries (c + 1) G) as U. cbv zeta in U.
    replace (c + 1 >? 0)%Z with true in U by lia.
    replace (c + 1 - 1)%Z with c in U by lia. rewrite Es in U.
    now rewrite (bind_run _ _ _ _ _ _ _ _ U).
  - pose proof (up_at s entries c G) as U. cbv zeta in U.
    replace (c >? 0)%Z with true in U by lia. rewrite Es in U.
    rewrite (bind_run _ _ _ _ _ _ _ _ U).
    pose proof (down_at s entries (c - 1) G) as D. cbv zeta in D.
    replace (c - 1 <? len entries - 1)%Z with true in D by lia.
    replace (c - 1 + 1)%Z with c in D by lia. rewrite Es in D.
    now rewrite (bind_run _ _ _ _ _ _ _ _ D).
Qed.
End CursorKeys.

Lemma at_bottom_reachable : Explorer.reachable (H := disk_host) at_bottom.
Proof.
  apply (Explorer.reach_step (H := disk_host)
           Explorer.GoBottom (s := mounted));
    [|apply run_outcome; vm_compute; reflexivity].
  exact mounted_reachable.
Qed.

(** Three presses of the down key in the scenario directory, from the
    first of its three lines. *)
Lemma repeated_down_reaches_bottom_witness :
  exists s',
    run_keys (H := disk_host) (repeat Explorer.CursorDown 3) mounted = (s', Ok tt) /\
    FileList.cursor (Explorer.file_list s')
    = Z.min (FileList.cursor (Explorer.file_list mounted) + Z.of_nat 3)
            (Z.max 0 (len [tmp_x ++ [lit "A"]; tmp_x ++ [lit ".hidden"];
                           tmp_x ++ [lit "b.txt"]] - 1)) /\
    FileList.selected_path (Explorer.disk s') (Explorer.file_list s')
    = Ok (entry_at [tmp_x ++ [lit "A"]; tmp_x ++ [lit ".hidden"];
                    tmp_x ++ [lit "b.txt"]]
                   (FileList.cursor (Explorer.file_list s'))) /\
    ((length [tmp_x ++ [lit "A"]; tmp_x ++ [lit ".hidden"];
              tmp_x ++ [lit "b.txt"]] <= 3)%nat ->
     Explorer.action_go_bottom mounted = (s', Ok tt)).
Proof.
  apply (repeated_down_reaches_bottom (H := disk_host) mounted
           [tmp_x ++ [lit "A"]; tmp_x ++ [lit ".hidden"]; tmp_x ++ [lit "b.txt"]]
           3 mounted_reachable).
  vm_compute. reflexivity.
Defined.

(** Two presses of the up key from the last of the three lines. *)
Lemma repeated_up_reaches_top_witness :
  exists s',
    run_keys (H := disk_host) (repeat Explorer.CursorUp 2) at_bottom = (s', Ok tt) /\
    FileList.cursor (Explorer.file_list s')
    = Z.max 0 (FileList.cursor (Explorer.file_list at_bottom) - Z.of_nat 2) /\
    FileList.selected_path (Explorer.disk s') (Explorer.file_list s')
    = Ok (entry_at [tmp_x ++ [lit "A"]; tmp_x ++ [lit ".hidden"];
                    tmp_x ++ [lit "b.txt"]]
                   (FileList.cursor (Explorer.file_list s'))) /\
    ((FileList.cursor (Explorer.file_list at_bottom) <= Z.of_nat 2)%Z ->
     Explorer.action_go_top at_bottom = (s', Ok tt)).
Proof.
  apply (repeated_up_reaches_top (H := disk_host) at_bottom
           [tmp_x ++ [lit "A"]; tmp_x ++ [lit ".hidden"]; tmp_x ++ [lit "b.txt"]]
           2 at_bottom_reachable).
  vm_compute. reflexivity.
Defined.

(** Down and up again from the first line of the scenario directory. *)
Lemma cursor_down_up_round_trip_witness :
  run_keys (H := disk_host) [Explorer.CursorDown; Explorer.CursorUp] mounted
  = (mounted, Ok tt).
Proof.
  apply (proj1 (cursor_down_up_round_trip (H := disk_host) mounted
                  [tmp_x ++ [lit "A"]; tmp_x ++ [lit ".hidden"];
                   tmp_x ++ [lit "b.txt"]]
                  mounted_reachable ltac:(vm_compute; reflexivity))).
  vm_compute. reflexivity.
Defined.

(* ===================================================================== *)

(* ===================================================================== *)
(** ** The listing and the enumerated names *)
(* ===================================================================== *)

Section Children.
Context `{Host}.

Lemma is_hidden_child (d : Path) (n : str) :
  is_hidden (d ++ [n]) = startswith n (lit ".").
Proof. unfold is_hidden. now rewrite name_child. Qed.

Lemma visible_children (d : Path) (names : list str) :
  visible (map (fun n => d ++ [n]) names)
  = map (fun n => d ++ [n])
        (filter (fun n => negb (startswith n (lit "."))) names).
Proof.
  unfold visible. induction names as [|n names IH]; simpl; [reflexivity|].
  rewrite is_hidden_child. destruct (startswith n (lit ".")); simpl; now rewrite IH.
Qed.

Lemma filter_true (A : Type) (l : list A) : filter (fun _ => true) l = l.
Proof. induction l as [|x l IH]; simpl; [reflexivity | now rewrite IH]. Qed.

(** X7. When the system enumerates the directory of the main pane, the
    type tests of the sort key decide what is listed.  When [is_dir()]
    returns on the path of every enumerated name, the listing has one
    entry per name, the path of that name below the directory, nothing
    else and nothing twice that was not enumerated twice; with the hidden
    flag off the names that start with a dot, and only they, are left
    out.  When [is_dir()] raises on one, the first such name in the
    order of the enumeration decides: a [PermissionError] makes the
    listing empty, any other exception leaves [get_entries]. *)
Theorem listing_is_children (f : fs) (self : FileList.t) (names : list str) :
  listdir f (FileList.current_dir self) = Ok names ->
  (Forall (fun n => tested f (FileList.current_dir self ++ [n])) names ->
   exists entries,
     FileList.get_entries f self = Ok entries /\
     Permutation entries
       (map (fun n => FileList.current_dir self ++ [n])
            (filter (fun n => FileList.show_hidden self
                              || negb (startswith n (lit "."))) names))) /\
  (forall pre n post e,
      names = pre ++ n :: post ->
      Forall (fun m => tested f (FileList.current_dir self ++ [m])) pre ->
      is_dir f (FileList.current_dir self ++ [n]) = Raise e ->
      FileList.get_entries f self
      = match e with PermissionError => Ok [] | _ => Raise e end).
Proof.
  intros E. split.
  - intros HT.
    assert (HF : Forall (tested f)
                   (map (fun n => FileList.current_dir self ++ [n]) names))
      by (apply Forall_map; exact HT).
    unfold FileList.get_entries, listing, iterdir. rewrite E. simpl.
    rewrite (sorted_entries_tested f _ HF).
    eexists. split; [reflexivity|].
    destruct (FileList.show_hidden self); simpl.
    + rewrite <- sorted_perm. now rewrite filter_true.
    + unfold visible.
      rewrite filter_sorted by (exact key_lt_asym || exact key_le_trans).
      rewrite <- sorted_perm.
      fold (visible (map (fun n => FileList.current_dir self ++ [n]) names)).
      now rewrite visible_children.
  - intros pre n post e -> Hpre En.
    unfold FileList.get_entries, listing, iterdir. rewrite E. simpl.
    rewrite map_app. simpl.
    rewrite (sorted_entries_raise f _ _ _ e); [now destruct e| |exact En].
    apply Forall_map. exact Hpre.
Qed.

Lemma entries_children (f : fs) (self : FileList.t) (entries : list Path) (e : Path) :
  FileList.get_entries f self = Ok entries -> In e entries ->
  exists n, e = FileList.current_dir self ++ [n].
Proof.
  intros G HIn.
  destruct (get_entries_ok _ _ _ G) as [->|(raw & Er & _ & ->)]; [contradiction|].
  assert (HIn' : In e (sorted key_lt (key_of f) raw)).
  { destruct (FileList.show_hidden self); [exact HIn|].
    unfold visible in HIn. now apply filter_In in HIn. }
  apply (Permutation_in _ (Permutation_sym (sorted_perm _ _ _ _ _))) in HIn'.
  unfold iterdir in Er.
  destruct (listdir f (FileList.current_dir self)) as [names|x]; [|discriminate].
  injection Er as <-.
  apply in_map_iff in HIn'. destruct HIn' as (n & <- & _). eauto.
Qed.

Lemma parent_child (d : Path) (n : str) : parent (d ++ [n]) = d.
Proof. unfold parent. apply removelast_last. Qed.

Lemma child_neq (d : Path) (n : str) : d ++ [n] <> d.
Proof.
  intros E. apply (f_equal (@length str)) in E.
  rewrite length_app in E. simpl in E. lia.
Qed.
End Children.

(** The scenario directory with the hidden flag off. *)
Lemma listing_is_children_witness :
  exists entries,
    FileList.get_entries (H := disk_host) scenario (FileList.mk tmp_x 0 false)
    = Ok entries /\
    Permutation entries
      (map (fun n => tmp_x ++ [n])
           (filter (fun n => false || negb (startswith n (lit ".")))
                   [lit "b.txt"; lit "A"; lit ".hidden"])).
Proof.
  apply (proj1 (listing_is_children (H := disk_host) scenario
                  (FileList.mk tmp_x 0 false)
                  [lit "b.txt"; lit "A"; lit ".hidden"]
                  ltac:(vm_compute; reflexivity))).
  repeat constructor; eexists; vm_compute; reflexivity.
Defined.

(* ===================================================================== *)
(** ** Entering a directory and coming back *)
(* ===================================================================== *)

Section Descend.
Context `{Host}.
Import Explorer.

Lemma set_current_dir_exact (d : Path) (s : t) (entries : list Path) :
  in_sync s -> current_dir s <> d ->
  FileList.get_entries (disk s) (FileList.mk d 0 (show_hidden s)) = Ok entries ->
  set_current_dir d s = (arrived d entries s, Ok tt).
Proof.
  intros HS N G. unfold set_current_dir. rewrite bind_get.
  destruct (path_eq_dec (current_dir s) d) as [E|_]; [contradiction|].
  rewrite bind_modify. unfold watch_current_dir.
  rewrite (sync_all_exact (with_current_dir d s) entries (entry_at entries 0)).
  - unfold synced_state. rewrite (synced_after_move d s HS N). reflexivity.
  - rewrite (synced_after_move d s HS N). exact G.
  - rewrite (synced_after_move d s HS N).
    exact (selected_at _ (FileList.mk d 0 (show_hidden s)) entries G).
Qed.

Lemma set_current_dir_inv (d : Path) (s s' : t) :
  in_sync s -> current_dir s <> d ->
  set_current_dir d s = (s', Ok tt) ->
  exists entries,
    FileList.get_entries (disk s) (FileList.mk d 0 (show_hidden s)) = Ok entries /\
    s' = arrived d entries s.
Proof.
  intros HS N E.
  assert (L : listable s').
  { revert E. unfold set_current_dir. rewrite bind_get.
    destruct (path_eq_dec (current_dir s) d) as [E|_]; [contradiction|].
    rewrite bind_modify. apply sync_all_listable. }
  destruct L as [entries G].
  destruct (set_current_dir_frame _ _ _ _ E) as (Ed & _ & _ & [[E' _]|(_ & _ & F)]);
    [contradiction|].
  rewrite Ed, F, (synced_after_move d s HS N) in G.
  rewrite (set_current_dir_exact d s entries HS N G) in E.
  injection E as <-. eauto.
Qed.

Lemma place_cursor_exact (old : Path) (entries listing : list Path) (i : Z) (s : t) :
  FileList.get_entries (disk s) (file_list s) = Ok listing ->
  place_cursor old i entries s
  = (match index_from old i entries with
     | Some j => moved j (entry_at listing j) s
     | None => s
     end, Ok tt).
Proof.
  intros G. revert i. induction entries as [|e rest IH]; simpl; intros i.
  - reflexivity.
  - destruct (path_eq_dec e old); [|apply IH].
    apply set_cursor_then_update_exact.
    exact (selected_at (disk s) (FileList.with_cursor i (file_list s)) listing G).
Qed.

Lemma index_from_nodup (x : Path) (l : list Path) (k : nat) (i : Z) :
  NoDup l -> nth_error l k = Some x ->
  index_from x i l = Some (i + Z.of_nat k)%Z.
Proof.
  intros ND. revert k i. induction ND as [|e l Hnot ND IH]; intros k i.
  - destruct k; discriminate.
  - destruct k as [|k]; simpl.
    + intros E; injection E as ->.
      destruct (path_eq_dec x x); [|contradiction]. f_equal. lia.
    + intros E. destruct (path_eq_dec e x) as [->|_].
      * apply nth_error_In in E. contradiction.
      * rewrite (IH k (i + 1)%Z E). f_equal. lia.
Qed.

(** Ascending from a directory whose parent lists as [entries]. *)
Lemma parent_dir_exact (s : t) (entries : list Path) :
  in_sync s ->
  parent (current_dir s) <> current_dir s ->
  FileList.get_entries (disk s)
    (FileList.mk (parent (current_dir s)) 0 (show_hidden s)) = Ok entries ->
  action_parent_dir s
  = (match index_from (current_dir s) 0 entries with
     | Some j =>
         moved j (entry_at entries j) (arrived (parent (current_dir s)) entries s)
     | None => arrived (parent (current_dir s)) entries s
     end, Ok tt).
Proof.
  intros HS N G. unfold action_parent_dir. rewrite bind_get.
  destruct (path_eq_dec (parent (current_dir s)) (current_dir s)) as [E|_];
    [contradiction|].
  rewrite (bind_run _ _ _ _ _ _ _ _
             (set_current_dir_exact (parent (current_dir s)) s entries HS
                (fun E => N (eq_sym E)) G)).
  unfold get_entries. rewrite bind_lift.
  change (FileList.get_entries
            (disk (arrived (parent (current_dir s)) entries s))
            (file_list (arrived (parent (current_dir s)) entries s)))
    with (FileList.get_entries (disk s)
            (FileList.mk (parent (current_dir s)) 0 (show_hidden s))).
  rewrite G. now apply place_cursor_exact.
Qed.

(** X8. From a state of a session whose listing repeats no entry, with
    the cursor on a directory: the enter key makes that directory the
    current one with the cursor on line 0, and the parent key pressed
    next gives back the very state the session was in, the cursor on the
    directory and the three side panes as they were. *)
Theorem enter_then_parent_round_trip (s s1 : t) (entries : list Path) (sel : Path) :
  reachable s ->
  FileList.get_entries (disk s) (file_list s) = Ok entries ->
  NoDup entries ->
  FileList.selected_path (disk s) (file_list s) = Ok (Some sel) ->
  is_dir (disk s) sel = Ok true ->
  action_enter_dir s = (s1, Ok tt) ->
  current_dir s1 = sel /\
  FileList.cursor (file_list s1) = 0%Z /\
  action_parent_dir s1 = (s, Ok tt).
Proof.
  intros HR G ND Sel Dir E.
  destruct (reachable_valid s HR) as [[Hc Hlt] HS].
  pose proof (reachable_consistent s HR) as HC.
  pose proof (selected_at _ _ _ G) as Sel'. rewrite Sel in Sel'.
  injection Sel' as Sel'. unfold entry_at in Sel'.
  destruct ((0 <=? FileList.cursor (file_list s))%Z
            && (FileList.cursor (file_list s) <? len entries)%Z) eqn:B;
    [|discriminate].
  symmetry in Sel'.
  destruct (entries_children _ _ _ _ G (nth_error_In _ _ Sel')) as [n En].
  destruct HS as [Ed Eh]. rewrite Ed in En.
  assert (N : current_dir s <> sel) by (rewrite En; intros X; exact (child_neq _ _ (eq_sym X))).
  unfold action_enter_dir, selected_path in E. rewrite bind_lift, Sel, bind_lift, Dir in E.
  apply set_current_dir_inv in E; [|now split | exact N].
  destruct E as (inner & Gi & ->).
  split; [reflexivity|]. split; [reflexivity|].
  assert (Gup : FileList.get_entries (disk s)
                  (FileList.mk (current_dir s) 0 (show_hidden s)) = Ok entries).
  { rewrite <- G. destruct (file_list s) as [fd fc fh]. simpl in Ed, Eh.
    now rewrite Ed, Eh. }
  assert (Pp : parent sel = current_dir s) by (rewrite En; apply parent_child).
  rewrite (parent_dir_exact (arrived sel inner s) entries);
    change (current_dir (arrived sel inner s)) with sel;
    change (disk (arrived sel inner s)) with (disk s);
    change (show_hidden (arrived sel inner s)) with (show_hidden s);
    rewrite ?Pp.
  - rewrite (index_from_nodup sel entries _ 0 ND Sel').
    f_equal.
    replace (0 + Z.of_nat (Z.to_nat (FileList.cursor (file_list s))))%Z
      with (FileList.cursor (file_list s)) by lia.
    assert (Ea : entry_at entries (FileList.cursor (file_list s)) = Some sel)
      by (unfold entry_at; now rewrite B).
    rewrite Ea.
    destruct HC as (entries' & sel' & G' & Sel0 & Hp & Hv & Hb).
    rewrite G in G'. injection G' as <-.
    rewrite Sel in Sel0. injection Sel0 as <-.
    destruct s as [d c cd sh pp [fd fc fh] pv sb]. simpl in *.
    unfold moved, arrived, with_preview_pane, with_file_list, FileList.with_cursor.
    simpl. subst. reflexivity.
  - split; reflexivity.
  - rewrite En. apply not_eq_sym, child_neq.
  - exact Gup.
Qed.
End Descend.

(** Entering [A] from the scenario directory and ascending again. *)
Lemma enter_then_parent_round_trip_witness :
  Explorer.current_dir inside_A = tmp_x ++ [lit "A"] /\
  FileList.cursor (Explorer.file_list inside_A) = 0%Z /\
  Explorer.action_parent_dir inside_A = (mounted, Ok tt).
Proof.
  apply (enter_then_parent_round_trip (H := disk_host) mounted inside_A
           [tmp_x ++ [lit "A"]; tmp_x ++ [lit ".hidden"]; tmp_x ++ [lit "b.txt"]]
           (tmp_x ++ [lit "A"]) mounted_reachable).
  - vm_compute. reflexivity.
  - repeat constructor; vm_compute; intuition discriminate.
  - vm_compute. reflexivity.
  - vm_compute. reflexivity.
  - apply (run_outcome _ _ (Explorer.action_enter_dir (H := disk_host)) mounted).
    vm_compute. reflexivity.
Defined.

(* ===================================================================== *)
(** ** The hidden flag *)
(* ===================================================================== *)

Section Toggle.
Context `{Host}.
Import Explorer.

(** Whether a directory can be listed does not depend on the flag. *)
Lemma get_entries_any_flag (f : fs) (d : Path) (c c' : Z) (h h' : bool)
      (entries : list Path) :
  FileList.get_entries f (FileList.mk d c h) = Ok entries ->
  exists entries', FileList.get_entries f (FileList.mk d c' h') = Ok entries'.
Proof.
  unfold FileList.get_entries; simpl.
  destruct (listing f d) as [l|[]]; try discriminate; eauto.
Qed.

Lemma toggle_exact (s : t) (entries : list Path) :
  in_sync s ->
  FileList.get_entries (disk s)
    (FileList.mk (current_dir s) 0 (negb (show_hidden s))) = Ok entries ->
  action_toggle_hidden s
  = (synced_state (with_show_hidden (negb (show_hidden s)) s) entries
       (entry_at entries 0), Ok tt).
Proof.
  intros HS G. unfold action_toggle_hidden. rewrite bind_modify.
  apply sync_all_exact; rewrite (synced_after_toggle s HS).
  - exact G.
  - exact (selected_at _ (FileList.mk (current_dir s) 0 (negb (show_hidden s)))
             entries G).
Qed.

(** X9. In a state of a session, toggling the hidden flag twice returns:
    the flag and the listing are the ones before, and the cursor is on
    line 0, not on the line it was on; the state is the very state the
    go-to-top key gives. *)
Theorem toggle_hidden_twice (s : t) :
  reachable s ->
  exists s',
    run_keys [ToggleHidden; ToggleHidden] s = (s', Ok tt) /\
    action_go_top s = (s', Ok tt) /\
    show_hidden s' = show_hidden s /\
    FileList.cursor (file_list s') = 0%Z /\
    FileList.get_entries (disk s') (file_list s')
    = FileList.get_entries (disk s) (file_list s).
Proof.
  intros HR.
  destruct (reachable_valid s HR) as [_ HS].
  destruct (reachable_listable s HR) as [entries G].
  pose proof (reachable_consistent s HR) as HC.
  assert (Es : file_list s = FileList.mk (current_dir s)
                 (FileList.cursor (file_list s)) (show_hidden s)).
  { destruct HS as [Ed Eh]. destruct (file_list s); simpl in *. now subst. }
  rewrite Es in G.
  destruct (get_entries_any_flag _ _ _ 0 _ (negb (show_hidden s)) _ G)
    as [flipped Gf].
  exists (moved 0 (entry_at entries 0) s).
  assert (Etop : action_go_top s = (moved 0 (entry_at entries 0) s, Ok tt)).
  { apply set_cursor_then_update_exact.
    apply (selected_at (disk s) (FileList.with_cursor 0 (file_list s))).
    rewrite Es. exact G. }
  split; [|split; [exact Etop|split; [reflexivity|split; [reflexivity|]]]].
  - cbn [run_keys run].
    rewrite (bind_run _ _ _ _ _ _ _ _ (toggle_exact s flipped HS Gf)).
    set (s1 := synced_state (with_show_hidden (negb (show_hidden s)) s) flipped
                 (entry_at flipped 0)).
    assert (HS1 : in_sync s1).
    { split; unfold s1, synced_state; simpl;
        rewrite (synced_after_toggle s HS); reflexivity. }
    assert (G1 : FileList.get_entries (disk s1)
                   (FileList.mk (current_dir s1) 0 (negb (show_hidden s1)))
                 = Ok entries).
    { unfold s1; simpl. rewrite negb_involutive.
      rewrite <- G. reflexivity. }
    rewrite (bind_run _ _ _ _ _ _ _ _ (toggle_exact s1 entries HS1 G1)).
    unfold ret. f_equal.
    destruct HC as (entries' & sel' & G' & _ & Hp & _ & Hb).
    rewrite Es in G'. rewrite G in G'. injection G' as <-.
    unfold synced_state. rewrite (synced_after_toggle s1 HS1).
    unfold s1; simpl. rewrite negb_involutive.
    clear HS1 G1 Gf Etop HR. subst s1.
    destruct s as [d c cd sh pp [fd fc fh] pv sb]. simpl in *.
    injection Es as -> ->. subst. reflexivity.
  - simpl. now rewrite Es.
Qed.
End Toggle.

(** Two toggles with the cursor on the last line of the scenario
    directory. *)
Lemma toggle_hidden_twice_witness :
  exists s',
    run_keys (H := disk_host) [Explorer.ToggleHidden; Explorer.ToggleHidden] at_bottom
    = (s', Ok tt) /\
    Explorer.action_go_top at_bottom = (s', Ok tt) /\
    Explorer.show_hidden s' = Explorer.show_hidden at_bottom /\
    FileList.cursor (Explorer.file_list s') = 0%Z /\
    FileList.get_entries (Explorer.disk s') (Explorer.file_list s')
    = FileList.get_entries (Explorer.disk at_bottom) (Explorer.file_list at_bottom).
Proof.
  exact (toggle_hidden_twice (H := disk_host) at_bottom at_bottom_reachable).
Defined.

(* ===================================================================== *)
(** ** What the keys change *)
(* ===================================================================== *)

Section Changes.
Context `{Host}.
Import Explorer.

Lemma refresh_view_cursor (s s' : t) (entries' : list Path) :
  in_sync s -> (0 <= FileList.cursor (file_list s))%Z ->
  _refresh_view s = (s', Ok tt) ->
  FileList.get_entries (disk s') (file_list s') = Ok entries' ->
  FileList.cursor (file_list s')
  = Z.min (FileList.cursor (file_list s)) (Z.max 0 (len entries' - 1)).
Proof.
  unfold _refresh_view. intros HS Hc E G'.
  apply bind_ok in E. destruct E as (s1 & [] & E1 & E2).
  apply sync_all_frame in E1. destruct E1 as [_ F1].
  rewrite (synced_unchanged s HS) in F1.
  unfold get_entries in E2. rewrite bind_lift in E2.
  destruct (FileList.get_entries (disk s1) (file_list s1)) as [entries|e] eqn:G;
    [|discriminate].
  rewrite bind_get in E2. apply bind_ok in E2. destruct E2 as (s2 & [] & E2 & E3).
  apply update_preview_frame in E3. destruct E3 as [(Ed & _) F3].
  rewrite F3, Ed in G'. rewrite F3.
  destruct (FileList.cursor (file_list s1) >=? len entries)%Z eqn:C;
    injection E2 as <-; simpl in *.
  - rewrite get_entries_with_cursor, G in G'. injection G' as <-.
    rewrite F1 in C. unfold len in *. lia.
  - rewrite G in G'. injection G' as <-.
    rewrite F1 in C |- *. unfold len in *. lia.
Qed.

Lemma host_then_refresh_place (c : call) (op : fs -> fs * result unit)
      (s s' : t) (entries' : list Path) :
  in_sync s -> (0 <= FileList.cursor (file_list s))%Z ->
  bind (host_call c op) (fun _ => _refresh_view) s = (s', Ok tt) ->
  FileList.get_entries (disk s') (file_list s') = Ok entries' ->
  current_dir s' = current_dir s /\
  show_hidden s' = show_hidden s /\
  calls s' = c :: calls s /\
  FileList.cursor (file_list s')
  = Z.min (FileList.cursor (file_list s)) (Z.max 0 (len entries' - 1)).
Proof.
  intros HS Hc E G'. apply bind_ok in E. destruct E as (s1 & [] & E1 & E2).
  unfold host_call in E1. destruct (op (disk s)) as [f' r'].
  injection E1 as <- _.
  destruct (refresh_view_frame _ _ _ E2) as (_ & Ec & Ecd & Eh).
  split; [exact Ecd|]. split; [exact Eh|]. split; [exact Ec|].
  now apply (refresh_view_cursor (with_disk f' c s) s' entries').
Qed.

(** X10. A create, rename or delete that returns leaves the session in
    the directory it was in, with the hidden flag it had, and with the
    cursor on the line it was on, unless the listing has become too short
    for that: then the cursor is on its last line, or on line 0 when it is
    empty. *)
Theorem mutation_keeps_place (a : action) (s s' : t) (entries' : list Path) :
  reachable s ->
  is_navigation a = false ->
  run a s = (s', Ok tt) ->
  FileList.get_entries (disk s') (file_list s') = Ok entries' ->
  current_dir s' = current_dir s /\
  show_hidden s' = show_hidden s /\
  FileList.cursor (file_list s')
  = Z.min (FileList.cursor (file_list s)) (Z.max 0 (len entries' - 1)).
Proof.
  intros HR Ha E G'.
  destruct (reachable_valid s HR) as [[Hc _] HS].
  assert (Hstay : s' = s ->
                  current_dir s' = current_dir s /\
                  show_hidden s' = show_hidden s /\
                  FileList.cursor (file_list s')
                  = Z.min (FileList.cursor (file_list s))
                          (Z.max 0 (len entries' - 1))).
  { intros ->. split; [reflexivity|]. split; [reflexivity|].
    pose proof (reachable_cursor s entries' HR G'). lia. }
  assert (Hcall : forall c op,
             bind (host_call c op) (fun _ => _refresh_view) s = (s', Ok tt) ->
             current_dir s' = current_dir s /\
             show_hidden s' = show_hidden s /\
             FileList.cursor (file_list s')
             = Z.min (FileList.cursor (file_list s))
                     (Z.max 0 (len entries' - 1))).
  { intros c op E'.
    destruct (host_then_refresh_place c op s s' entries' HS Hc E' G')
      as (A1 & A2 & _ & A3).
    auto. }
  destruct a as [| | | | | | | |answer|answer|confirmed]; try discriminate;
    simpl in E.
  - unfold action_create in E. destruct answer as [name|].
    + destruct (truthy name).
      * rewrite bind_get in E. destruct (endswith _ _); exact (Hcall _ _ E).
      * injection E as <-. now apply Hstay.
    + injection E as <-. now apply Hstay.
  - unfold action_rename, selected_path in E. rewrite bind_lift in E.
    destruct (FileList.selected_path (disk s) (file_list s)) as [[sel|]|e];
      try discriminate.
    + destruct answer as [new_name|].
      * destruct (_ && _).
        -- rewrite bind_get in E. exact (Hcall _ _ E).
        -- injection E as <-. now apply Hstay.
      * injection E as <-. now apply Hstay.
    + injection E as <-. now apply Hstay.
  - unfold action_delete, selected_path in E. rewrite bind_lift in E.
    destruct (FileList.selected_path (disk s) (file_list s)) as [[sel|]|e];
      try discriminate.
    + destruct confirmed.
      * rewrite bind_lift in E.
        destruct (is_dir _ _) as [[]|]; try discriminate; exact (Hcall _ _ E).
      * injection E as <-. now apply Hstay.
    + injection E as <-. now apply Hstay.
Qed.

(** X11. A navigation key issues none of the calls that change the file
    system, and leaves the file system as it is, whether its handler
    returns or raises. *)
Theorem navigation_leaves_disk (a : action) (s s' : t) (r : result unit) :
  is_navigation a = true ->
  run a s = (s', r) ->
  disk s' = disk s /\ calls s' = calls s.
Proof.
  intros Ha.
  assert (Hp : forall s1 s2 : t, same_place s1 s2 ->
                 disk s2 = disk s1 /\ calls s2 = calls s1)
    by (intros s1 s2 (A & B & _); auto).
  destruct a as [| | | | | | | |answer|answer|confirmed]; try discriminate;
    simpl.
  - unfold action_cursor_down, get_entries. rewrite bind_lift.
    destruct (FileList.get_entries (disk s) (file_list s)).
    + rewrite bind_get. destruct (_ <? _)%Z.
      * intros E. apply set_cursor_then_update in E. now apply Hp.
      * intros E; injection E as <- _. auto.
    + intros E; injection E as <- _. auto.
  - unfold action_cursor_up. rewrite bind_get. destruct (_ >? _)%Z.
    + intros E. apply set_cursor_then_update in E. now apply Hp.
    + intros E; injection E as <- _. auto.
  - unfold action_enter_dir, selected_path. rewrite bind_lift.
    destruct (FileList.selected_path (disk s) (file_list s)) as [[sel|]|e].
    + rewrite bind_lift. destruct (is_dir (disk s) sel) as [[]|].
      * intros E. apply set_current_dir_frame in E. tauto.
      * intros E; injection E as <- _. auto.
      * intros E; injection E as <- _. auto.
    + intros E; injection E as <- _. auto.
    + intros E; injection E as <- _. auto.
  - unfold action_parent_dir. rewrite bind_get. destruct (path_eq_dec _ _).
    + intros E; injection E as <- _. auto.
    + intros E. apply bind_inv in E.
      destruct E as [(s1 & [] & E1 & E2) | (e & E1 & _)];
        apply set_current_dir_frame in E1; destruct E1 as (Ed & Ec & _);
        [|auto].
      unfold get_entries in E2. rewrite bind_lift in E2.
      destruct (FileList.get_entries (disk s1) (file_list s1)).
      * apply place_cursor_run in E2. destruct E2 as [(Ed2 & Ec2 & _) _].
        split; congruence.
      * injection E2 as <- _. auto.
  - intros E. apply set_cursor_then_update in E. now apply Hp.
  - unfold action_go_bottom, get_entries. rewrite bind_lift.
    destruct (FileList.get_entries (disk s) (file_list s)) as [[|e l]|e].
    + intros E; injection E as <- _. auto.
    + intros E. apply set_cursor_then_update in E. now apply Hp.
    + intros E; injection E as <- _. auto.
  - intros E. apply set_current_dir_frame in E. tauto.
  - unfold action_toggle_hidden. rewrite bind_modify. intros E.
    apply sync_all_frame in E. destruct E as [(Ed & Ec & _) _]. auto.
Qed.
End Changes.

(** The deletion of [b.txt] under the cursor on the last of three lines:
    the cursor goes from line 2 to line 1. *)
Lemma mutation_keeps_place_witness :
  Explorer.current_dir after_delete = Explorer.current_dir at_bottom /\
  Explorer.show_hidden after_delete = Explorer.show_hidden at_bottom /\
  FileList.cursor (Explorer.file_list after_delete)
  = Z.min (FileList.cursor (Explorer.file_list at_bottom))
          (Z.max 0 (len [tmp_x ++ [lit "A"]; tmp_x ++ [lit ".hidden"]] - 1)).
Proof.
  apply (mutation_keeps_place (H := disk_host) (Explorer.Delete true)
           at_bottom after_delete
           [tmp_x ++ [lit "A"]; tmp_x ++ [lit ".hidden"]] at_bottom_reachable).
  - reflexivity.
  - apply (run_outcome _ _ (Explorer.run (H := disk_host) (Explorer.Delete true))
             at_bottom).
    vm_compute. reflexivity.
  - vm_compute. reflexivity.
Defined.

(** Entering [A] from the scenario directory. *)
Lemma navigation_leaves_disk_witness :
  Explorer.disk inside_A = Explorer.disk mounted /\
  Explorer.calls inside_A = Explorer.calls mounted.
Proof.
  apply (navigation_leaves_disk (H := disk_host) Explorer.EnterDir
           mounted inside_A (Ok tt)).
  - reflexivity.
  - apply (run_outcome _ _ (Explorer.run (H := disk_host) Explorer.EnterDir)
             mounted).
    vm_compute. reflexivity.
Defined.

(* ===================================================================== *)

(* ===================================================================== *)
(** ** The dialogs and the mutations they lead to *)
(* ===================================================================== *)

Section DialogFlows.
Context `{Host}.
Import Explorer.

Lemma host_then_refresh_calls (c : call) (op : fs -> fs * result unit)
      (s s' : t) (r : result unit) :
  bind (host_call c op) (fun _ => _refresh_view) s = (s', r) ->
  calls s' = c :: calls s /\ current_dir s' = current_dir s.
Proof.
  intros E. apply bind_inv in E.
  destruct E as [(s1 & [] & E1 & E2) | (e & E1 & _)];
    unfold host_call in E1; destruct (op (disk s)) as [f' r'];
    injection E1 as <- _; [|split; reflexivity].
  apply refresh_view_frame in E2. destruct E2 as (_ & Ec & Ecd & _).
  split; assumption.
Qed.

Lemma host_then_refresh_disk (c : call) (op : fs -> fs * result unit)
      (s s' : t) (r : result unit) :
  bind (host_call c op) (fun _ => _refresh_view) s = (s', r) ->
  disk s' = fst (op (disk s)).
Proof.
  intros E. apply bind_inv in E.
  destruct E as [(s1 & [] & E1 & E2) | (e & E1 & _)];
    unfold host_call in E1; destruct (op (disk s)) as [f' r'];
    injection E1 as <- _; [|reflexivity].
  apply refresh_view_frame in E2. now destruct E2 as (Ed & _).
Qed.

Lemma strip_empty (s : str) : strip s = [] <-> forallb isspace s = true.
Proof.
  split; [|apply strip_blank].
  intros E. destruct (strip_split s) as ((pre & post & Es & Hpre & Hpost) & _).
  rewrite E in Es. simpl in Es. rewrite Es, forallb_app. now rewrite Hpre, Hpost.
Qed.

(** X12. However the create dialog is left, the create action does one
    of two things.  When the dialog was cancelled, or its field held
    nothing but white space, nothing happens.  Otherwise one call is
    issued, on the path of the stripped text below the current directory:
    a [mkdir] of the text without its trailing slashes when it ends with
    a slash, a [touch] when it does not; the session stays in its
    directory whatever the call's outcome. *)
Theorem create_from_dialog (value : str) (ev : InputDialog.event)
        (s s' : t) (r : result unit) :
  action_create (InputDialog.dismissed value ev) s = (s', r) ->
  (s' = s /\ r = Ok tt /\
   (InputDialog.dismissed value ev = None \/ forallb isspace value = true)) \/
  (InputDialog.dismissed value ev = Some (strip value) /\
   forallb isspace value = false /\
   calls s'
   = (if endswith (strip value) (lit "/")
      then CallMkdir (joinpath (current_dir s) (rstrip1 47 (strip value)))
      else CallTouch (joinpath (current_dir s) (strip value))) :: calls s /\
   current_dir s' = current_dir s).
Proof.
  assert (Hsome : action_create (Some (strip value)) s = (s', r) ->
    (s' = s /\ r = Ok tt /\
     (Some (strip value) = None \/ forallb isspace value = true)) \/
    (Some (strip value) = Some (strip value) /\
     forallb isspace value = false /\
     calls s'
     = (if endswith (strip value) (lit "/")
        then CallMkdir (joinpath (current_dir s) (rstrip1 47 (strip value)))
        else CallTouch (joinpath (current_dir s) (strip value))) :: calls s /\
     current_dir s' = current_dir s)).
  { unfold action_create.
    destruct (strip value) as [|c name] eqn:Es;
      [change (truthy []) with false | change (truthy (c :: name)) with true];
      cbv iota.
    - intros E; injection E as <- <-. left.
      split; [reflexivity|]. split; [reflexivity|]. right.
      now apply strip_empty.
    - rewrite bind_get. intros E. right. split; [reflexivity|].
      split.
      + destruct (forallb isspace value) eqn:B; [|reflexivity].
        apply strip_empty in B. congruence.
      + destruct (endswith (c :: name) (lit "/"));
          now apply host_then_refresh_calls in E. }
  assert (Hnone : action_create None s = (s', r) ->
    s' = s /\ r = Ok tt /\ (@None str = None \/ forallb isspace value = true))
    by (intros E; injection E as <- <-; auto).
  destruct ev as [button_id| |]; simpl.
  - unfold InputDialog.on_button_pressed.
    destruct (str_eqb button_id (lit "ok")); [exact Hsome|].
    intros E. left. now apply Hnone.
  - exact Hsome.
  - intros E. left. now apply Hnone.
Qed.

(** X13. The confirmation dialog answers yes when it is left by the
    button [yes] or the key [y], and in no other way.  Left in any other
    way, the delete action changes nothing and issues no call.  Left
    with yes while an entry is under the cursor, [is_dir()] returns on
    that entry, one call is issued on it, [rmtree] when [is_dir()] holds
    and [unlink] when it does not, and the file system is the one that
    call leaves, whether the call returns or raises.  With no entry
    under the cursor nothing happens. *)
Theorem delete_needs_confirmation (ev : ConfirmDialog.event)
        (s s' : t) (r : result unit) :
  action_delete (ConfirmDialog.dismissed ev) s = (s', r) ->
  (ConfirmDialog.dismissed ev = true <->
   ev = ConfirmDialog.Pressed (lit "yes") \/ ev = ConfirmDialog.KeyY) /\
  (ConfirmDialog.dismissed ev = false -> s' = s) /\
  (forall sel,
      ConfirmDialog.dismissed ev = true ->
      FileList.selected_path (disk s) (file_list s) = Ok (Some sel) ->
      exists d,
        is_dir (disk s) sel = Ok d /\
        calls s' = (if d then CallRmtree sel else CallUnlink sel) :: calls s /\
        disk s' = fst ((if d then rmtree else unlink) (disk s) sel) /\
        current_dir s' = current_dir s) /\
  (FileList.selected_path (disk s) (file_list s) = Ok None ->
   s' = s /\ r = Ok tt).
Proof.
  intros E. split; [apply confirm_dialog_yes|].
  revert E. unfold action_delete, selected_path. rewrite bind_lift.
  destruct (FileList.selected_path (disk s) (file_list s)) as [[sel|]|e] eqn:Sel.
  - destruct (ConfirmDialog.dismissed ev) eqn:D.
    + rewrite bind_lift. destruct (selected_tested _ _ _ Sel) as [d Ed].
      rewrite Ed. intros E.
      split; [discriminate|]. split; [|discriminate].
      intros sel' _ Es. injection Es as <-. exists d.
      split; [exact Ed|].
      destruct d.
      * pose proof (host_then_refresh_disk _ _ _ _ _ E).
        apply host_then_refresh_calls in E. tauto.
      * pose proof (host_then_refresh_disk _ _ _ _ _ E).
        apply host_then_refresh_calls in E. tauto.
    + intros E; injection E as <- _.
      split; [reflexivity|]. split; discriminate.
  - intros E; injection E as <- <-.
    split; [reflexivity|]. split; [discriminate|]. auto.
  - intros E; injection E as <- _.
    split; [reflexivity|]. split; discriminate.
Qed.

(** X14. Accepting the rename dialog without editing its field, which
    opens with the name of the entry under the cursor: when white space
    neither starts nor ends that name, nothing happens; when it does, and
    the name is not white space only, the entry is renamed to its name
    with that white space removed. *)
Theorem rename_unedited (s s' : t) (r : result unit) (sel : Path) :
  FileList.selected_path (disk s) (file_list s) = Ok (Some sel) ->
  action_rename (InputDialog.dismissed (name sel) InputDialog.Submitted) s
  = (s', r) ->
  ((forall c rest, name sel = c :: rest -> isspace c = false) /\
   (forall c front, name sel = front ++ [c] -> isspace c = false) ->
   s' = s /\ r = Ok tt) /\
  (forallb isspace (name sel) = false ->
   (exists c rest, name sel = c :: rest /\ isspace c = true) \/
   (exists c front, name sel = front ++ [c] /\ isspace c = true) ->
   calls s'
   = CallRename sel (joinpath (current_dir s) (strip (name sel))) :: calls s).
Proof.
  intros Sel. unfold action_rename, selected_path.
  rewrite bind_lift, Sel.
  change (InputDialog.dismissed (name sel) InputDialog.Submitted)
    with (Some (strip (name sel))).
  cbv iota beta. intros E. split.
  - intros Hw. apply strip_fixed in Hw. rewrite Hw in E.
    unfold str_eqb in E. destruct (str_eq_dec (name sel) (name sel)); [|contradiction].
    rewrite andb_false_r in E. now injection E as <- <-.
  - intros Hb Hw.
    assert (Nb : strip (name sel) <> []).
    { intros X. apply strip_empty in X. congruence. }
    assert (Nf : strip (name sel) <> name sel).
    { intros X. apply strip_fixed in X. destruct X as [Hh Hl].
      destruct Hw as [(c & rest & Ec & Hc) | (c & front & Ec & Hc)].
      - rewrite (Hh _ _ Ec) in Hc. discriminate.
      - rewrite (Hl _ _ Ec) in Hc. discriminate. }
    unfold str_eqb in E.
    destruct (str_eq_dec (strip (name sel)) (name sel)); [contradiction|].
    destruct (strip (name sel)) as [|c new_name]; [contradiction|].
    simpl in E. rewrite bind_get in E.
    now apply host_then_refresh_calls in E.
Qed.
End DialogFlows.

(** The create dialog is answered with [" new/ "] in the scenario
    directory: one [mkdir] of [/tmp/x/new]. *)
Lemma create_from_dialog_witness :
  (after_create = mounted /\ Ok tt = Ok tt /\
   (InputDialog.dismissed [32; 110; 101; 119; 47; 32]%N InputDialog.Submitted = None \/
    forallb isspace [32; 110; 101; 119; 47; 32]%N = true)) \/
  (InputDialog.dismissed [32; 110; 101; 119; 47; 32]%N InputDialog.Submitted
   = Some (strip [32; 110; 101; 119; 47; 32]%N) /\
   forallb isspace [32; 110; 101; 119; 47; 32]%N = false /\
   Explorer.calls after_create
   = (if endswith (strip [32; 110; 101; 119; 47; 32]%N) (lit "/")
      then CallMkdir (joinpath (Explorer.current_dir mounted)
                        (rstrip1 47 (strip [32; 110; 101; 119; 47; 32]%N)))
      else CallTouch (joinpath (Explorer.current_dir mounted)
                        (strip [32; 110; 101; 119; 47; 32]%N)))
       :: Explorer.calls mounted /\
   Explorer.current_dir after_create = Explorer.current_dir mounted).
Proof.
  apply (create_from_dialog (H := disk_host) [32; 110; 101; 119; 47; 32]%N
           InputDialog.Submitted mounted after_create (Ok tt)).
  apply (run_outcome _ _
           (Explorer.action_create (H := disk_host)
              (InputDialog.dismissed [32; 110; 101; 119; 47; 32]%N
                 InputDialog.Submitted)) mounted).
  vm_compute. reflexivity.
Defined.

(** The key [y] with the cursor on [b.txt]: one [unlink]. *)
Lemma delete_needs_confirmation_witness :
  exists d,
    is_dir (Host := disk_host) (Explorer.disk at_bottom) (tmp_x ++ [lit "b.txt"]) = Ok d /\
    Explorer.calls after_delete
    = (if d then CallRmtree (tmp_x ++ [lit "b.txt"])
       else CallUnlink (tmp_x ++ [lit "b.txt"])) :: Explorer.calls at_bottom /\
    Explorer.disk after_delete
    = fst ((if d then rmtree (Host := disk_host) else unlink (Host := disk_host))
             (Explorer.disk at_bottom) (tmp_x ++ [lit "b.txt"])) /\
    Explorer.current_dir after_delete = Explorer.current_dir at_bottom.
Proof.
  refine (proj1 (proj2 (proj2
            (delete_needs_confirmation (H := disk_host) ConfirmDialog.KeyY
               at_bottom after_delete (Ok tt) _))) (tmp_x ++ [lit "b.txt"]) _ _).
  - apply (run_outcome _ _
             (Explorer.action_delete (H := disk_host)
                (ConfirmDialog.dismissed ConfirmDialog.KeyY)) at_bottom).
    vm_compute. reflexivity.
  - reflexivity.
  - vm_compute. reflexivity.
Defined.

(** The file ["a "] is renamed to ["a"]. *)
Lemma rename_unedited_witness :
  Explorer.calls spaced_renamed
  = CallRename (tmp_x ++ [[97; 32]%N])
      (joinpath (Explorer.current_dir spaced_mounted) (strip [97; 32]%N))
      :: Explorer.calls spaced_mounted.
Proof.
  apply (proj2 (rename_unedited (H := disk_host) spaced_mounted spaced_renamed
                  (Ok tt) (tmp_x ++ [[97; 32]%N])
                  ltac:(vm_compute; reflexivity)
                  ltac:(apply (run_outcome _ _
                                 (Explorer.action_rename (H := disk_host)
                                    (InputDialog.dismissed [97; 32]%N
                                       InputDialog.Submitted)) spaced_mounted);
                        vm_compute; reflexivity))).
  - vm_compute. reflexivity.
  - right. exists 32%N, [97%N]. split; vm_compute; reflexivity.
Defined.

(* ===================================================================== *)

(* ===================================================================== *)
(** ** What the main pane draws *)
(* ===================================================================== *)

Section Rows.
Context `{Host}.
Import Explorer.

(** The row of an entry is drawn when [is_dir()] returns on it and its
    columns and its markup can be had. *)
Lemma render_row_ok (f : fs) (self : FileList.t) (i : Z) (entry : Path) :
  tested f entry -> has_columns f entry -> has_marker f entry ->
  exists r,
    FileList.render_row f self i entry = Ok r /\
    FileList.row_name r = name entry /\
    FileList.row_reverse r = Z.eqb i (FileList.cursor self).
Proof.
  intros [d Ed] [cols Ec] Hm. unfold FileList.render_row.
  rewrite Ec, Ed. cbn [and_then].
  destruct d.
  - cbn [and_then]. eexists. split; [reflexivity|]. split; reflexivity.
  - destruct (Hm Ed) as [l El]. rewrite El. cbn [and_then].
    eexists. split; [reflexivity|]. split; reflexivity.
Qed.

Lemma render_rows_ok (f : fs) (self : FileList.t) (entries : list Path) (i : Z) :
  Forall (tested f) entries ->
  Forall (has_columns f) entries ->
  Forall (has_marker f) entries ->
  exists rs,
    FileList.render_rows f self i entries = Ok rs /\
    map FileList.row_name rs = map name entries /\
    forall k r,
      nth_error rs k = Some r ->
      FileList.row_reverse r = Z.eqb (i + Z.of_nat k) (FileList.cursor self).
Proof.
  intros HT. revert i. induction HT as [|e rest He _ IH]; intros i HC HM.
  - exists []. split; [reflexivity|]. split; [reflexivity|].
    intros [|k] r; discriminate.
  - inversion HC as [|? ? Hc HC']; subst. inversion HM as [|? ? Hm HM']; subst.
    destruct (render_row_ok f self i e He Hc Hm) as (r & Er & En & Ev).
    destruct (IH (i + 1)%Z HC' HM') as (rs & Ers & Ens & Evs).
    exists (r :: rs). cbn [FileList.render_rows]. rewrite Er. cbn [and_then].
    rewrite Ers. cbn [and_then].
    split; [reflexivity|]. split; [simpl; now rewrite En, Ens|].
    intros [|k] r'; simpl.
    + intros X; injection X as <-. now rewrite Z.add_0_r.
    + intros X. rewrite (Evs k r' X). f_equal. lia.
Qed.

(** The first entry whose columns raise ends the drawing. *)
Lemma render_rows_raise (f : fs) (self : FileList.t)
      (pre : list Path) (p : Path) (post : list Path) (e : exn) (i : Z) :
  Forall (tested f) pre ->
  Forall (has_columns f) pre ->
  Forall (has_marker f) pre ->
  FileList.columns f p = Raise e ->
  FileList.render_rows f self i (pre ++ p :: post) = Raise e.
Proof.
  intros HT. revert i. induction HT as [|x rest Hx _ IH]; intros i HC HM Ep.
  - simpl. unfold FileList.render_row. now rewrite Ep.
  - inversion HC as [|? ? Hc HC']; subst. inversion HM as [|? ? Hm HM']; subst.
    destruct (render_row_ok f self i x Hx Hc Hm) as (r & Er & _).
    simpl. rewrite Er. cbn [and_then]. now rewrite (IH (i + 1)%Z HC' HM' Ep).
Qed.

(** What the columns of a row raise is no [OSError]: it comes from
    [lstat] or from the conversion of the time. *)
Lemma columns_raise (f : fs) (p : Path) (e : exn) :
  FileList.columns f p = Raise e ->
  is_oserror e = false /\
  (lstat f p = Raise e \/
   exists st, lstat f p = Ok st /\ fromtimestamp (st_mtime st) = Raise e).
Proof.
  unfold FileList.columns.
  destruct (lstat f p) as [st|x]; cbn [and_then except_OSError].
  - destruct (fromtimestamp (st_mtime st)) as [dt|x] eqn:Et;
      cbn [and_then except_OSError]; [discriminate|].
    destruct (is_oserror x) eqn:B; [discriminate|].
    intros X; injection X as <-. eauto.
  - destruct (is_oserror x) eqn:B; [discriminate|].
    intros X; injection X as <-. auto.
Qed.

(** X15. In a state of a session whose listing is not empty, when the
    columns and the markup of every entry can be had (the time of each
    entry that [lstat] reads converts to a date, and [is_symlink()]
    returns where it is asked), the main pane draws one row per entry, in
    the order of the listing and under the entry's name, and exactly one
    row in reverse video: the row of the cursor, which is the row of the
    entry [selected_path] returns.  When the columns of an entry raise,
    which [except OSError] lets through for a time outside the range of
    [datetime], the first such entry ends [render_list] with that
    exception and no row is drawn. *)
Theorem render_list_highlights_selection (s : t) (entries : list Path) :
  reachable s ->
  FileList.get_entries (disk s) (file_list s) = Ok entries ->
  entries <> [] ->
  (Forall (has_columns (disk s)) entries ->
   Forall (has_marker (disk s)) entries ->
   exists rs sel,
     FileList.render_list (disk s) (file_list s) = Ok (FileList.Rows rs) /\
     FileList.selected_path (disk s) (file_list s) = Ok (Some sel) /\
     map FileList.row_name rs = map name entries /\
     (forall k r,
         nth_error rs k = Some r ->
         (FileList.row_reverse r = true
          <-> Z.of_nat k = FileList.cursor (file_list s))) /\
     (exists r,
         nth_error rs (Z.to_nat (FileList.cursor (file_list s))) = Some r /\
         FileList.row_reverse r = true /\
         FileList.row_name r = name sel)) /\
  (forall pre p post e,
      entries = pre ++ p :: post ->
      Forall (has_columns (disk s)) pre ->
      Forall (has_marker (disk s)) pre ->
      FileList.columns (disk s) p = Raise e ->
      FileList.render_list (disk s) (file_list s) = Raise e /\
      is_oserror e = false).
Proof.
  intros HR G Hne.
  pose proof (get_entries_tested _ _ _ G) as HT.
  split.
  - intros HC HM.
    destruct (reachable_valid s HR) as [[Hc Hlt] _].
    specialize (Hlt entries G Hne).
    set (c := FileList.cursor (file_list s)) in *.
    assert (Hk : (Z.to_nat c < length entries)%nat) by (unfold len in Hlt; lia).
    destruct (nth_error entries (Z.to_nat c)) as [sel|] eqn:En;
      [|apply nth_error_None in En; lia].
    destruct (render_rows_ok (disk s) (file_list s) entries 0 HT HC HM)
      as (rs & Ers & Ens & Ev).
    exists rs, sel.
    split; [|split; [|split; [|split]]].
    + unfold FileList.render_list. rewrite G.
      destruct entries; [contradiction|]. now rewrite Ers.
    + rewrite (selected_at _ _ _ G). unfold entry_at. fold c.
      rewrite (proj2 (Z.leb_le _ _) Hc), (proj2 (Z.ltb_lt _ _) Hlt). simpl.
      now rewrite En.
    + exact Ens.
    + intros k r E. rewrite (Ev k r E). fold c. rewrite Z.add_0_l.
      apply Z.eqb_eq.
    + assert (Hl : length rs = length entries).
      { rewrite <- (length_map FileList.row_name rs), Ens. apply length_map. }
      destruct (nth_error rs (Z.to_nat c)) as [r|] eqn:Er;
        [|apply nth_error_None in Er; lia].
      exists r. split; [reflexivity|]. split.
      * rewrite (Ev _ r Er). fold c. apply Z.eqb_eq. lia.
      * pose proof (map_nth_error FileList.row_name _ _ Er) as X.
        rewrite Ens, (map_nth_error name _ _ En) in X. now injection X.
  - intros pre p post e -> HC HM Ep.
    split; [|exact (proj1 (columns_raise _ _ _ Ep))].
    apply Forall_app in HT. destruct HT as [HT _].
    unfold FileList.render_list. rewrite G.
    rewrite (render_rows_raise (disk s) (file_list s) pre p post e 0 HT HC HM Ep).
    now destruct pre.
Qed.

(** X16. In a state of a session whose listing is empty the cursor is on
    line 0, nothing is selected, the preview holds no path, the main pane
    draws the empty-directory message and the status bar counts no
    directory and no file. *)
Theorem empty_listing_state (s : t) :
  reachable s ->
  FileList.get_entries (disk s) (file_list s) = Ok [] ->
  FileList.cursor (file_list s) = 0%Z /\
  FileList.selected_path (disk s) (file_list s) = Ok None /\
  preview_pane s = PreviewPane.mk None (show_hidden s) /\
  FileList.render_list (disk s) (file_list s) = Ok FileList.EmptyDirectory /\
  StatusBar.text (status_bar s)
  = Some {| StatusBar.shown_dir := current_dir s;
            StatusBar.count_dirs := 0; StatusBar.count_files := 0 |}.
Proof.
  intros HR G.
  pose proof (reachable_rests s HR G) as Hc.
  destruct (reachable_consistent s HR) as (entries & sel & G' & Sel & _ & Hv & Hb).
  rewrite G in G'. injection G' as <-.
  pose proof (selected_at _ _ _ G) as Sel'. rewrite Hc in Sel'.
  change (entry_at [] 0) with (@None Path) in Sel'.
  rewrite Sel' in Sel. injection Sel as <-.
  split; [exact Hc|]. split; [exact Sel'|]. split; [exact Hv|]. split.
  - unfold FileList.render_list. now rewrite G.
  - now rewrite Hb.
Qed.
End Rows.

(** The scenario directory after the deletion, the cursor on the second
    of its two lines. *)
Lemma render_list_highlights_selection_witness :
  exists rs sel,
    FileList.render_list (Explorer.disk after_delete) (Explorer.file_list after_delete)
    = Ok (FileList.Rows rs) /\
    FileList.selected_path (Explorer.disk after_delete)
      (Explorer.file_list after_delete) = Ok (Some sel) /\
    map FileList.row_name rs
    = map name [tmp_x ++ [lit "A"]; tmp_x ++ [lit ".hidden"]] /\
    (forall k r,
        nth_error rs k = Some r ->
        (FileList.row_reverse r = true
         <-> Z.of_nat k = FileList.cursor (Explorer.file_list after_delete))) /\
    (exists r,
        nth_error rs (Z.to_nat (FileList.cursor (Explorer.file_list after_delete)))
        = Some r /\
        FileList.row_reverse r = true /\
        FileList.row_name r = name sel).
Proof.
  apply (proj1 (render_list_highlights_selection (H := disk_host) after_delete
                  [tmp_x ++ [lit "A"]; tmp_x ++ [lit ".hidden"]]
                  after_delete_reachable
                  ltac:(vm_compute; reflexivity) ltac:(discriminate))).
  - repeat constructor; eexists; vm_compute; reflexivity.
  - repeat constructor; intros _; eexists; vm_compute; reflexivity.
Defined.

(** The empty directory [A] of the scenario. *)
Lemma empty_listing_state_witness :
  FileList.cursor (Explorer.file_list inside_A) = 0%Z /\
  FileList.selected_path (Explorer.disk inside_A) (Explorer.file_list inside_A)
  = Ok None /\
  Explorer.preview_pane inside_A
  = PreviewPane.mk None (Explorer.show_hidden inside_A) /\
  FileList.render_list (Explorer.disk inside_A) (Explorer.file_list inside_A)
  = Ok FileList.EmptyDirectory /\
  StatusBar.text (Explorer.status_bar inside_A)
  = Some {| StatusBar.shown_dir := Explorer.current_dir inside_A;
            StatusBar.count_dirs := 0; StatusBar.count_files := 0 |}.
Proof.
  apply (empty_listing_state (H := disk_host) inside_A inside_A_reachable).
  vm_compute. reflexivity.
Defined.


(* ===================================================================== *)
(** ** The side panes and the keys *)
(* ===================================================================== *)

Section SidePanes.
Context `{Host}.
Import Explorer.

Lemma index_from_first (x : Path) (l : list Path) (i j : Z) (k : nat) (e : Path) :
  index_from x i l = Some j ->
  (Z.of_nat k < j - i)%Z -> nth_error l k = Some e -> e <> x.
Proof.
  revert i k. induction l as [|y l IH]; simpl; intros i k; [discriminate|].
  destruct (path_eq_dec y x) as [->|N].
  - intros E; injection E as <-. lia.
  - intros E Hk. destruct k as [|k]; simpl.
    + intros E'; injection E' as <-. exact N.
    + apply (IH (i + 1)%Z k E). lia.
Qed.

Lemma index_from_in (x : Path) (l : list Path) (i : Z) :
  In x l -> exists j, index_from x i l = Some j.
Proof.
  intros HIn. destruct (index_from x i l) as [j|] eqn:E; [eauto|].
  apply index_from_none in E. contradiction.
Qed.

Lemma Forall_upto (A : Type) (P : A -> Prop) (n : Z) (l : list A) :
  Forall P l -> Forall P (upto n l).
Proof.
  intros HF. revert n. induction HF as [|x l Hx _ IH]; intros n; simpl;
    [constructor|].
  destruct (0 <? n)%Z; constructor; [exact Hx | apply IH].
Qed.

(** The lines of the parent pane can be drawn for entries on which
    [is_dir()] returns. *)
Lemma traverse_line (f : fs) (self : ParentPane.t) (entries : list Path) :
  Forall (tested f) entries ->
  traverse (ParentPane.line f self) entries
  = Ok (map (fun e => (name e,
                       if path_eq_dec e (ParentPane.current_dir self)
                       then ParentPane.Current
                       else if directory f e then ParentPane.Directory
                            else ParentPane.Plain)) entries).
Proof.
  induction 1 as [|e entries He _ IH]; simpl; [reflexivity|].
  rewrite IH. unfold ParentPane.line.
  destruct (path_eq_dec e (ParentPane.current_dir self)); [reflexivity|].
  now rewrite (proj1 (tested_kind f e He)).
Qed.

(** So can the lines of the digest of a directory. *)
Lemma traverse_digest_line (f : fs) (entries : list Path) :
  Forall (tested f) entries ->
  traverse (PreviewPane.digest_line f) entries
  = Ok (map (fun e => (name e, directory f e)) entries).
Proof.
  induction 1 as [|e entries He _ IH]; simpl; [reflexivity|].
  rewrite IH. unfold PreviewPane.digest_line.
  now rewrite (proj1 (tested_kind f e He)).
Qed.

(** X17. In a state of a session below the root, when the listing of the
    parent directory has the current directory: the parent pane draws one
    line per entry of that listing, and the parent key returns with the
    cursor on the line the parent pane draws in reverse video for the
    current directory, the first such line. *)
Theorem parent_pane_marks_return_line (s : t) (entries : list Path) :
  reachable s ->
  parent (current_dir s) <> current_dir s ->
  FileList.get_entries (disk s)
    (FileList.mk (parent (current_dir s)) 0 (show_hidden s)) = Ok entries ->
  In (current_dir s) entries ->
  exists ls s',
    ParentPane.render_entries (disk s) (parent_pane s) = Ok (ParentPane.Lines ls) /\
    map fst ls = map name entries /\
    action_parent_dir s = (s', Ok tt) /\
    (0 <= FileList.cursor (file_list s'))%Z /\
    nth_error ls (Z.to_nat (FileList.cursor (file_list s')))
    = Some (name (current_dir s), ParentPane.Current) /\
    (forall k n st,
        (Z.of_nat k < FileList.cursor (file_list s'))%Z ->
        nth_error ls k = Some (n, st) -> st <> ParentPane.Current).
Proof.
  intros HR N G HIn.
  destruct (reachable_valid s HR) as [_ HS].
  destruct (reachable_consistent s HR) as (_ & _ & _ & _ & Hp & _ & _).
  destruct (index_from_in _ _ 0 HIn) as [j Ij].
  pose proof (parent_dir_exact s entries HS N G) as Ep. rewrite Ij in Ep.
  destruct (index_from_some _ _ _ _ Ij) as [Bj Hj]. rewrite Z.sub_0_r in Hj.
  pose proof (get_entries_tested _ _ _ G) as HT.
  set (self := ParentPane.mk (current_dir s) (show_hidden s)).
  set (draw := fun e => (name e,
                         if path_eq_dec e (ParentPane.current_dir self)
                         then ParentPane.Current
                         else if directory (disk s) e then ParentPane.Directory
                              else ParentPane.Plain)).
  exists (map draw entries).
  eexists. split; [|split; [|split; [exact Ep|]]].
  - rewrite Hp. fold self. unfold ParentPane.render_entries.
    change (ParentPane.current_dir self) with (current_dir s).
    change (ParentPane.show_hidden self) with (show_hidden s).
    destruct (path_eq_dec (parent (current_dir s)) (current_dir s));
      [contradiction|].
    unfold FileList.get_entries in G. simpl in G.
    destruct (listing (disk s) (parent (current_dir s))) as [l|[]];
      try discriminate.
    + injection G as G. rewrite G.
      now rewrite (traverse_line (disk s) self entries HT).
    + injection G as <-. contradiction.
  - rewrite map_map. reflexivity.
  - change (FileList.cursor
              (file_list (moved j (entry_at entries j)
                            (arrived (parent (current_dir s)) entries s))))
      with j.
    split; [lia|]. split.
    + rewrite nth_error_map, Hj. simpl. unfold draw.
      change (ParentPane.current_dir self) with (current_dir s).
      now destruct (path_eq_dec (current_dir s) (current_dir s)).
    + intros k n st Hk. rewrite nth_error_map.
      destruct (nth_error entries k) as [e|] eqn:Ek; [|discriminate].
      simpl. unfold draw.
      change (ParentPane.current_dir self) with (current_dir s).
      intros E; injection E as _ <-.
      assert (Ne : e <> current_dir s).
      { apply (index_from_first _ _ 0 j k e Ij); [lia | exact Ek]. }
      destruct (path_eq_dec e (current_dir s)); [contradiction|].
      destruct (directory (disk s) e); discriminate.
Qed.

(** X18. In a state of a session with the cursor on a directory that
    exists and whose header line can be built.  When the system
    enumerates the directory and [is_dir()] returns on each of its
    children, what the preview pane shows below the header is the head
    of the listing the enter key leads to, its first fifty entries each
    with its name and whether it is a directory, followed by the count
    of the others when there are more.  When the sorted enumeration
    raises [PermissionError], from the enumeration or from the type test
    of a child, the preview shows the permission message where the enter
    key leads to the empty listing.  The preview reads no file content
    in either case. *)
Theorem preview_shows_entered_listing (s : t) (sel : Path)
        (h : option PreviewPane.head) :
  reachable s ->
  FileList.selected_path (disk s) (file_list s) = Ok (Some sel) ->
  path_exists (disk s) sel = Ok true ->
  PreviewPane.head_of (disk s) sel = Ok h ->
  is_dir (disk s) sel = Ok true ->
  (forall names,
      listdir (disk s) sel = Ok names ->
      Forall (fun n => tested (disk s) (sel ++ [n])) names ->
      exists s1 inner,
        action_enter_dir s = (s1, Ok tt) /\
        FileList.get_entries (disk s1) (file_list s1) = Ok inner /\
        PreviewPane.render_preview (disk s) (preview_pane s)
        = ([], Ok {| PreviewPane.header := h;
                     PreviewPane.content :=
                       PreviewPane.DirDigest
                         (map (fun e => (name e, directory (disk s) e))
                              (upto 50 inner))
                         (if (len inner >? 50)%Z
                          then Some (len inner - 50)%Z else None) |})) /\
  (listing (disk s) sel = Raise PermissionError ->
   exists s1,
     action_enter_dir s = (s1, Ok tt) /\
     FileList.get_entries (disk s1) (file_list s1) = Ok [] /\
     PreviewPane.render_preview (disk s) (preview_pane s)
     = ([], Ok {| PreviewPane.header := h;
                  PreviewPane.content := PreviewPane.PermissionDenied |})).
Proof.
  intros HR Sel Ex Eh Dir.
  destruct (reachable_valid s HR) as [_ HS].
  destruct (reachable_listable s HR) as [entries G].
  destruct (reachable_consistent s HR) as (_ & sel' & _ & Sel' & _ & Hv & _).
  rewrite Sel in Sel'. injection Sel' as <-.
  pose proof (selected_at _ _ _ G) as Sa. rewrite Sel in Sa.
  injection Sa as Sa. unfold entry_at in Sa.
  destruct (_ && _); [|discriminate]. symmetry in Sa.
  destruct (entries_children _ _ _ _ G (nth_error_In _ _ Sa)) as [n En].
  destruct HS as [Ed Eh']. rewrite Ed in En.
  assert (N : current_dir s <> sel)
    by (rewrite En; apply not_eq_sym, child_neq).
  assert (Enter : forall inner,
             FileList.get_entries (disk s) (FileList.mk sel 0 (show_hidden s))
             = Ok inner ->
             action_enter_dir s = (arrived sel inner s, Ok tt)).
  { intros inner Gi. unfold action_enter_dir, selected_path.
    rewrite bind_lift, Sel, bind_lift, Dir.
    apply set_current_dir_exact; [now split | exact N | exact Gi]. }
  split.
  - intros names L HT.
    assert (HF : Forall (tested (disk s)) (map (fun n => sel ++ [n]) names))
      by (apply Forall_map; exact HT).
    assert (El : listing (disk s) sel
                 = Ok (sorted key_lt (key_of (disk s))
                         (map (fun n => sel ++ [n]) names))).
    { apply listing_tested; [|exact HF]. unfold iterdir. now rewrite L. }
    set (inner := if show_hidden s
                  then sorted key_lt (key_of (disk s))
                         (map (fun n => sel ++ [n]) names)
                  else visible (sorted key_lt (key_of (disk s))
                                  (map (fun n => sel ++ [n]) names))).
    assert (Gi : FileList.get_entries (disk s) (FileList.mk sel 0 (show_hidden s))
                 = Ok inner).
    { unfold FileList.get_entries. simpl. now rewrite El. }
    exists (arrived sel inner s), inner.
    split; [exact (Enter inner Gi)|]. split; [exact Gi|].
    rewrite Hv. unfold PreviewPane.render_preview.
    cbn [PreviewPane.preview_path PreviewPane.show_hidden].
    rewrite Ex, Eh, Dir, El. fold inner.
    rewrite (traverse_digest_line (disk s) (upto 50 inner)); [reflexivity|].
    apply Forall_upto. exact (get_entries_tested _ _ _ Gi).
  - intros El.
    assert (Gi : FileList.get_entries (disk s) (FileList.mk sel 0 (show_hidden s))
                 = Ok []).
    { unfold FileList.get_entries. simpl. now rewrite El. }
    exists (arrived sel [] s).
    split; [exact (Enter [] Gi)|]. split; [exact Gi|].
    rewrite Hv. unfold PreviewPane.render_preview.
    cbn [PreviewPane.preview_path]. now rewrite Ex, Eh, Dir, El.
Qed.

End SidePanes.

Lemma at_home_reachable : Explorer.reachable (H := disk_host) at_home.
Proof.
  apply (Explorer.reach_mount (H := disk_host) home_tree user_home).
  apply run_outcome. vm_compute. reflexivity.
Qed.

(** Inside [A], whose parent is the scenario directory. *)
Lemma parent_pane_marks_return_line_witness :
  exists ls s',
    ParentPane.render_entries (Explorer.disk inside_A) (Explorer.parent_pane inside_A)
    = Ok (ParentPane.Lines ls) /\
    map fst ls
    = map name [tmp_x ++ [lit "A"]; tmp_x ++ [lit ".hidden"]; tmp_x ++ [lit "b.txt"]] /\
    Explorer.action_parent_dir inside_A = (s', Ok tt) /\
    (0 <= FileList.cursor (Explorer.file_list s'))%Z /\
    nth_error ls (Z.to_nat (FileList.cursor (Explorer.file_list s')))
    = Some (name (Explorer.current_dir inside_A), ParentPane.Current) /\
    (forall k n st,
        (Z.of_nat k < FileList.cursor (Explorer.file_list s'))%Z ->
        nth_error ls k = Some (n, st) -> st <> ParentPane.Current).
Proof.
  apply (parent_pane_marks_return_line (H := disk_host) inside_A
           [tmp_x ++ [lit "A"]; tmp_x ++ [lit ".hidden"]; tmp_x ++ [lit "b.txt"]]
           inside_A_reachable).
  - vm_compute. discriminate.
  - vm_compute. reflexivity.
  - left. vm_compute. reflexivity.
Defined.

(** The home directory with the cursor on [docs], which holds [a.txt]. *)
Lemma preview_shows_entered_listing_witness :
  exists s1 inner,
    Explorer.action_enter_dir at_home = (s1, Ok tt) /\
    FileList.get_entries (Explorer.disk s1) (Explorer.file_list s1) = Ok inner /\
    PreviewPane.render_preview (Explorer.disk at_home)
      (Explorer.preview_pane at_home)
    = ([], Ok {| PreviewPane.header :=
                   Some {| PreviewPane.perms := lit "drwxr-xr-x";
                           PreviewPane.owner := lit "user";
                           PreviewPane.group := lit "user";
                           PreviewPane.size := lit "  4.0K";
                           PreviewPane.mtime := lit "1970-01-01 00:00:00" |};
                 PreviewPane.content :=
                   PreviewPane.DirDigest
                     (map (fun e => (name e, directory (Explorer.disk at_home) e))
                          (upto 50 inner))
                     (if (len inner >? 50)%Z
                      then Some (len inner - 50)%Z else None) |}).
Proof.
  apply (proj1 (preview_shows_entered_listing (H := disk_host) at_home
                  (user_home ++ [lit "docs"]) _ at_home_reachable
                  ltac:(vm_compute; reflexivity) ltac:(vm_compute; reflexivity)
                  ltac:(vm_compute; reflexivity) ltac:(vm_compute; reflexivity))
           [lit "a.txt"]).
  - vm_compute. reflexivity.
  - repeat constructor; eexists; vm_compute; reflexivity.
Defined.


(* ===================================================================== *)
(** ** The size column *)
(* ===================================================================== *)

Lemma round_half_even_near (n d : Z) :
  (0 < d)%Z -> (Z.abs (2 * (n - round_half_even n d * d)) <= d)%Z.
Proof.
  intros Hd. unfold round_half_even. cbv zeta.
  pose proof (Z.div_mod n d ltac:(lia)) as E.
  pose proof (Z.mod_pos_bound n d Hd) as B.
  destruct (2 * (n mod d) <? d)%Z eqn:C1;
    [apply Z.ltb_lt in C1 | apply Z.ltb_ge in C1].
  - nia.
  - destruct (d <? 2 * (n mod d))%Z eqn:C2;
      [apply Z.ltb_lt in C2 | apply Z.ltb_ge in C2].
    + nia.
    + destruct (Z.even (n / d)); nia.
Qed.

(** The tie of [round_half_even] goes to the even neighbour. *)
Lemma round_half_even_tie (n d : Z) :
  (0 < d)%Z -> (2 * (n mod d) = d)%Z -> Z.even (round_half_even n d) = true.
Proof.
  intros Hd E. unfold round_half_even. cbv zeta.
  rewrite (proj2 (Z.ltb_ge _ _)) by lia.
  rewrite (proj2 (Z.ltb_ge _ _)) by lia.
  destruct (Z.even (n / d)) eqn:Ev; [exact Ev|].
  rewrite Z.even_add, Ev. reflexivity.
Qed.

(** X20. For a size from 0 to below [2 ** 53] the size column is a
    number, right-aligned in five columns, followed by one unit letter.
    The unit is the power [k] of 1024 with
    [1024 ** k <= size < 1024 ** (k + 1)], [P] standing for every size
    from [1024 ** 5] on.  In bytes the number is the size itself; in
    every other unit it is written with one decimal, and is a tenth
    nearest to [size / 1024 ** k]: at most half a tenth away, and an even
    tenth when two are equally near. *)
Theorem format_size_unit (size : Z) :
  (0 <= size < 2 ^ 53)%Z ->
  exists (k : nat) (number : str),
    format_size size = rjust 5 number ++ [nth k (lit "BKMGTP") 0%N] /\
    (k <= 5)%nat /\
    (k <> 0%nat -> 1024 ^ Z.of_nat k <= size)%Z /\
    (k <> 5%nat -> size < 1024 ^ (Z.of_nat k + 1))%Z /\
    (k = 0%nat -> number = str_of_int size) /\
    (k <> 0%nat ->
     exists t,
       number = str_of_int (t / 10) ++ lit "." ++ str_of_int (t mod 10) /\
       (Z.abs (2 * (10 * size - t * 1024 ^ Z.of_nat k)) <= 1024 ^ Z.of_nat k)%Z /\
       (Z.abs (2 * (10 * size - t * 1024 ^ Z.of_nat k)) = 1024 ^ Z.of_nat k ->
        Z.even t = true)%Z).
Proof.
  intros Hs.
  assert (Hnum : forall k : nat,
             (0 < k)%nat ->
             exists t,
               fixed1 size (1024 ^ Z.of_nat k)
               = str_of_int (t / 10) ++ lit "." ++ str_of_int (t mod 10) /\
               (Z.abs (2 * (10 * size - t * 1024 ^ Z.of_nat k))
                <= 1024 ^ Z.of_nat k)%Z /\
               (Z.abs (2 * (10 * size - t * 1024 ^ Z.of_nat k))
                = 1024 ^ Z.of_nat k -> Z.even t = true)%Z).
  { intros k Hk.
    assert (Hd : (0 < 1024 ^ Z.of_nat k)%Z) by (apply Z.pow_pos_nonneg; lia).
    exists (round_half_even (10 * size) (1024 ^ Z.of_nat k)).
    split; [reflexivity|]. split; [now apply round_half_even_near|].
    intros Ea. apply round_half_even_tie; [exact Hd|].
    revert Ea. unfold round_half_even. cbv zeta.
    pose proof (Z.div_mod (10 * size) (1024 ^ Z.of_nat k) ltac:(lia)) as E.
    pose proof (Z.mod_pos_bound (10 * size) (1024 ^ Z.of_nat k) Hd) as B.
    destruct (2 * ((10 * size) mod 1024 ^ Z.of_nat k) <? 1024 ^ Z.of_nat k)%Z eqn:C1;
      [apply Z.ltb_lt in C1 | apply Z.ltb_ge in C1].
    - nia.
    - destruct (1024 ^ Z.of_nat k <? 2 * ((10 * size) mod 1024 ^ Z.of_nat k))%Z eqn:C2;
        [apply Z.ltb_lt in C2 | apply Z.ltb_ge in C2]; [nia | lia]. }
  unfold format_size. cbn [format_size_loop].
  change (str_eqb (lit "B") (lit "B")) with true.
  change (str_eqb (lit "K") (lit "B")) with false.
  change (str_eqb (lit "M") (lit "B")) with false.
  change (str_eqb (lit "G") (lit "B")) with false.
  change (str_eqb (lit "T") (lit "B")) with false.
  cbn [negb].
  change (1024 * 1)%Z with (1024 ^ Z.of_nat 1)%Z.
  change (1024 * 1024 ^ Z.of_nat 1)%Z with (1024 ^ Z.of_nat 2)%Z.
  change (1024 * 1024 ^ Z.of_nat 2)%Z with (1024 ^ Z.of_nat 3)%Z.
  change (1024 * 1024 ^ Z.of_nat 3)%Z with (1024 ^ Z.of_nat 4)%Z.
  change (1024 * 1024 ^ Z.of_nat 4)%Z with (1024 ^ Z.of_nat 5)%Z.
  destruct (size <? 1024 ^ Z.of_nat 1)%Z eqn:C1;
    [apply Z.ltb_lt in C1 | apply Z.ltb_ge in C1].
  { exists 0%nat, (str_of_int size).
    split; [reflexivity|]. split; [lia|]. split; [congruence|].
    split; [intros _; exact C1|]. split; [reflexivity | congruence]. }
  destruct (size <? 1024 ^ Z.of_nat 2)%Z eqn:C2;
    [apply Z.ltb_lt in C2 | apply Z.ltb_ge in C2].
  { exists 1%nat, (fixed1 size (1024 ^ Z.of_nat 1)).
    split; [reflexivity|]. split; [lia|]. split; [intros _; exact C1|].
    split; [intros _; exact C2|]. split; [discriminate|].
    intros _. apply Hnum. lia. }
  destruct (size <? 1024 ^ Z.of_nat 3)%Z eqn:C3;
    [apply Z.ltb_lt in C3 | apply Z.ltb_ge in C3].
  { exists 2%nat, (fixed1 size (1024 ^ Z.of_nat 2)).
    split; [reflexivity|]. split; [lia|]. split; [intros _; exact C2|].
    split; [intros _; exact C3|]. split; [discriminate|].
    intros _. apply Hnum. lia. }
  destruct (size <? 1024 ^ Z.of_nat 4)%Z eqn:C4;
    [apply Z.ltb_lt in C4 | apply Z.ltb_ge in C4].
  { exists 3%nat, (fixed1 size (1024 ^ Z.of_nat 3)).
    split; [reflexivity|]. split; [lia|]. split; [intros _; exact C3|].
    split; [intros _; exact C4|]. split; [discriminate|].
    intros _. apply Hnum. lia. }
  destruct (size <? 1024 ^ Z.of_nat 5)%Z eqn:C5;
    [apply Z.ltb_lt in C5 | apply Z.ltb_ge in C5].
  { exists 4%nat, (fixed1 size (1024 ^ Z.of_nat 4)).
    split; [reflexivity|]. split; [lia|]. split; [intros _; exact C4|].
    split; [intros _; exact C5|]. split; [discriminate|].
    intros _. apply Hnum. lia. }
  exists 5%nat, (fixed1 size (1024 ^ Z.of_nat 5)).
  split; [reflexivity|]. split; [lia|]. split; [intros _; exact C5|].
  split; [congruence|]. split; [discriminate|].
  intros _. apply Hnum. lia.
Qed.

(** A size of 1280 bytes is 1.25 K, half-way between two tenths. *)
Lemma format_size_unit_witness :
  format_size 1280 = lit "  1.2K" /\
  exists (k : nat) (number : str),
    format_size 1280 = rjust 5 number ++ [nth k (lit "BKMGTP") 0%N] /\
    (k <= 5)%nat /\
    (k <> 0%nat -> 1024 ^ Z.of_nat k <= 1280)%Z /\
    (k <> 5%nat -> 1280 < 1024 ^ (Z.of_nat k + 1))%Z /\
    (k = 0%nat -> number = str_of_int 1280) /\
    (k <> 0%nat ->
     exists t,
       number = str_of_int (t / 10) ++ lit "." ++ str_of_int (t mod 10) /\
       (Z.abs (2 * (10 * 1280 - t * 1024 ^ Z.of_nat k)) <= 1024 ^ Z.of_nat k)%Z /\
       (Z.abs (2 * (10 * 1280 - t * 1024 ^ Z.of_nat k)) = 1024 ^ Z.of_nat k ->
        Z.even t = true)%Z).
Proof.
  split; [vm_compute; reflexivity|].
  apply (format_size_unit 1280). split; [lia | reflexivity].
Defined.

(* ===================================================================== *)
(** ** Going home *)
(* ===================================================================== *)

Section Home.
Context `{Host}.
Import Explorer.

(** X21. The home key in a state of a session.  Pressed in the home
    directory it changes nothing, the cursor staying on its line: the
    assignment does not change [current_dir], so no watcher runs.  Pressed
    elsewhere, with a home directory that can be listed, it makes the home
    directory the current one, with the cursor on line 0 and the preview
    on the first entry. *)
Theorem go_home_unless_there (s : t) (entries : list Path) :
  reachable s ->
  FileList.get_entries (disk s) (FileList.mk home 0 (show_hidden s)) = Ok entries ->
  (current_dir s = home -> action_go_home s = (s, Ok tt)) /\
  (current_dir s <> home ->
   exists s',
     action_go_home s = (s', Ok tt) /\
     current_dir s' = home /\
     file_list s' = FileList.mk home 0 (show_hidden s) /\
     preview_pane s' = PreviewPane.mk (entry_at entries 0) (show_hidden s) /\
     FileList.get_entries (disk s') (file_list s') = Ok entries).
Proof.
  intros HR G. destruct (reachable_valid s HR) as [_ HS]. split.
  - intros E. unfold action_go_home, set_current_dir. rewrite bind_get.
    now destruct (path_eq_dec (current_dir s) home).
  - intros N. exists (arrived home entries s).
    split; [|split; [reflexivity|split; [reflexivity|split; [reflexivity|exact G]]]].
    unfold action_go_home. now apply set_current_dir_exact.
Qed.
End Home.

Lemma on_link_reachable : Explorer.reachable (H := disk_host) on_link.
Proof.
  apply (Explorer.reach_step (H := disk_host) Explorer.CursorDown (s := at_home));
    [|apply run_outcome; vm_compute; reflexivity].
  exact at_home_reachable.
Qed.

(** In the home directory with the cursor on its second line. *)
Lemma go_home_unless_there_witness :
  FileList.cursor (Explorer.file_list on_link) = 1%Z /\
  Explorer.action_go_home on_link = (on_link, Ok tt).
Proof.
  split; [vm_compute; reflexivity|].
  apply (proj1 (go_home_unless_there (H := disk_host) on_link
                  (map (fun n => user_home ++ [lit n])
                       ["docs"; "link"; "locked"; "notes.txt"; "photo.PNG";
                        "readme.md"]%string)
                  on_link_reachable ltac:(vm_compute; reflexivity))).
  vm_compute. reflexivity.
Defined.
